(** * Wallet management: the ledger mutation core

    A shallow embedding of [WalletService] (src/modules/wallet/wallet.service.ts),
    of [PrismaService.executeTransaction] (the retry loop around interactive
    store transactions) and of the queue processor that dispatches settlement
    jobs, with the statements the specification makes about them.

    Modelling conventions.
    - A [Decimal] a request, a job or the cache carries is an exact decimal of
      any precision: a rational counting units of 10^-8. A [Decimal(20, 8)]
      column holds an integer number of such units; writing a value to the
      column rounds it to the nearest unit, a half away from zero, and the
      store rejects the write (P2020) when the rounded value has more than
      twelve digits before the decimal point. The bound of the [Int] version
      column is not modelled.
    - The relational store is a pair of tables: wallets keyed by their primary
      key, and the ledger as a list of rows in insertion order. Generated
      columns the service never reads (a ledger row's own id, timestamps,
      metadata) are left out.
    - Redis is a finite map from keys to cached balances; expiry of an entry
      (the 300 s TTL) is not modelled.
    - An [async] method is a function from the world to an outcome (resolved
      or rejected) and a new world.
    - What the environment decides (generated identifiers, writes committed by
      other workers while a store transaction is open, failures reported by
      the store for an interactive transaction) is an explicit argument.
      So is whether the queue accepts a job. Calls to Redis always succeed.
    - Logging and the HTTP layer other than the API key guard (controllers,
      filters, validation pipes) are not embedded. *)

From Stdlib Require Import ZArith QArith Qround Lqa String List Bool Lia.
From stdpp Require Import base option gmap strings list fin_maps sorting.

Local Open Scope string_scope.
Local Open Scope list_scope.
Local Open Scope Z_scope.

(** ** Decimals and the [Decimal(20, 8)] columns *)

Module Decimal.
Definition t : Type := Q.

Bind Scope Q_scope with t.

(** The decimal that a column value stands for. *)
Definition of_units (z : Z) : t := inject_Z z.

(** [a.lt(b)] and [a.gt(b)] *)
Definition lt (a b : t) : bool := negb (Qle_bool b a).

Definition gt (a b : t) : bool := lt b a.
End Decimal.

Bind Scope Q_scope with Decimal.t.

(** The column value a decimal is stored as: the nearest number of units, a
    half rounded away from zero. *)
Definition rounded (d : Decimal.t) : Z :=
  if Qle_bool 0 d
  then Qfloor (d + (1 # 2))
  else - Qfloor (- d + (1 # 2)).

(** Whether a column value fits [Decimal(20, 8)]: fewer than 10^12 before the
    decimal point, that is fewer than 10^20 units. *)
Definition in_range (z : Z) : bool := Z.abs z <? 10 ^ 20.

(** A decimal that is a whole number of units is stored as it is. *)
Definition at_scale (d : Decimal.t) : Prop := d = Decimal.of_units (rounded d).

(** ** Data model (prisma/schema.prisma) *)

Inductive TransactionType := DEPOSIT | WITHDRAWAL | TRANSFER_OUT | TRANSFER_IN.

Inductive TransactionStatus := PENDING | COMPLETED | CANCELLED | FAILED.

Module Wallet.
Record t := mk {
  id : string;
  userId : string;
  balance : Z;
  isActive : bool;
  version : Z
}.
End Wallet.

(** The wallets table is keyed by the primary key [id]; a stored row holds the
    other columns, and reading it back gives the entity. *)
Module WalletRow.
Record t := mk {
  userId : string;
  balance : Z;
  isActive : bool;
  version : Z
}.

Definition entity (id : string) (r : t) : Wallet.t :=
  Wallet.mk id (userId r) (balance r) (isActive r) (version r).
End WalletRow.

Module Transaction.
Record t := mk {
  transactionId : string;
  referenceId : option string;
  walletId : string;
  destinationWalletId : option string;
  amount : Z;
  type : TransactionType;
  status : TransactionStatus;
  description : option string
}.

Definition with_status (s : TransactionStatus) (r : t) : t :=
  mk (transactionId r) (referenceId r) (walletId r) (destinationWalletId r)
     (amount r) (type r) s (description r).
End Transaction.

#[global] Instance TransactionStatus_eq_dec : EqDecision TransactionStatus.
Proof. solve_decision. Defined.

#[global] Instance TransactionType_eq_dec : EqDecision TransactionType.
Proof. solve_decision. Defined.

(** ** Request and job payloads *)

Module CreateWalletDto.
Record t := mk { userId : string; initialBalance : option Decimal.t }.
End CreateWalletDto.

Module DepositFundsDto.
Record t := mk {
  walletId : string;
  amount : Decimal.t;
  description : option string;
  transactionId : option string
}.
End DepositFundsDto.

Module WithdrawFundsDto.
Record t := mk {
  walletId : string;
  amount : Decimal.t;
  description : option string;
  transactionId : option string
}.
End WithdrawFundsDto.

Module TransferFundsDto.
Record t := mk {
  sourceWalletId : string;
  destinationWalletId : string;
  amount : Decimal.t;
  description : option string;
  referenceId : string
}.
End TransferFundsDto.

(** The payload of a 'deposit' or 'withdrawal' job; [amount] is the request's
    [amount.toString()], which keeps every digit. *)
Module SingleJob.
Record t := mk {
  walletId : string;
  amount : Decimal.t;
  description : option string;
  transactionId : string
}.
End SingleJob.

(** The payload of a 'transfer' job. *)
Module TransferJob.
Record t := mk {
  sourceWalletId : string;
  destinationWalletId : string;
  amount : Decimal.t;
  description : option string;
  referenceId : string
}.
End TransferJob.

Inductive Job :=
| JobDeposit (data : SingleJob.t)
| JobWithdrawal (data : SingleJob.t)
| JobTransfer (data : TransferJob.t).

(** ** Errors *)

Inductive Exception :=
| NotFoundException (message : string)
| BadRequestException (message : string)
| ConflictException (message : string)
| PrismaError (code : string) (target : list string)
| PlainError (message : string)
| Undefined.

(** [error.code] as the retry loop and [createWallet] read it: only store
    errors carry one. *)
Definition error_code (e : Exception) : option string :=
  match e with
  | PrismaError code _ => Some code
  | _ => None
  end.

(** ** The world: store, cache, queue, and a trace

    The trace records what happens around interactive store transactions: each
    begin, the wallet statements issued inside, and the delays of the retry
    loop. *)

Inductive Event :=
| TxBegin
| WalletFindUnique (id : string)
| WalletFindMany (ids : list string)
| WalletUpdate (id : string)
| Delay (ms : Z).

Record World := mkWorld {
  wallets : gmap string WalletRow.t;
  transactions : list Transaction.t;
  redis : gmap string Decimal.t;
  queue : list Job;
  trace : list Event
}.

Definition set_wallets (f : gmap string WalletRow.t → gmap string WalletRow.t) (s : World) : World :=
  mkWorld (f (wallets s)) (transactions s) (redis s) (queue s) (trace s).

Definition set_transactions (f : list Transaction.t → list Transaction.t) (s : World) : World :=
  mkWorld (wallets s) (f (transactions s)) (redis s) (queue s) (trace s).

Definition set_redis (f : gmap string Decimal.t → gmap string Decimal.t) (s : World) : World :=
  mkWorld (wallets s) (transactions s) (f (redis s)) (queue s) (trace s).

Definition set_queue (f : list Job → list Job) (s : World) : World :=
  mkWorld (wallets s) (transactions s) (redis s) (f (queue s)) (trace s).

Definition emit (e : Event) (s : World) : World :=
  mkWorld (wallets s) (transactions s) (redis s) (queue s) (trace s ++ [e]).

(** ** Promises: state passing with rejection *)

Inductive Outcome (A : Type) :=
| Resolved (a : A)
| Rejected (e : Exception).
Arguments Resolved {A} a.
Arguments Rejected {A} e.

Definition Promise (A : Type) : Type := World → Outcome A * World.

Definition resolve {A} (a : A) : Promise A := fun s => (Resolved a, s).

Definition throw {A} (e : Exception) : Promise A := fun s => (Rejected e, s).

Definition bind {A B} (m : Promise A) (k : A → Promise B) : Promise B :=
  fun s =>
    match m s with
    | (Resolved a, s') => k a s'
    | (Rejected e, s') => (Rejected e, s')
    end.

Definition try_catch {A} (m : Promise A) (handler : Exception → Promise A) : Promise A :=
  fun s =>
    match m s with
    | (Resolved a, s') => (Resolved a, s')
    | (Rejected e, s') => handler e s'
    end.

Definition modify (f : World → World) : Promise unit := fun s => (Resolved tt, f s).

Declare Scope promise_scope.
Delimit Scope promise_scope with promise.
Notation "'await' x <- m ; k" := (bind m (fun x => k))
  (at level 10, x name, m at level 100, k at level 200) : promise_scope.
Notation "'perform' m ; k" := (bind m (fun _ => k))
  (at level 10, m at level 100, k at level 200) : promise_scope.
Local Open Scope promise_scope.

(** ** Store statements (the Prisma client) *)

(** [prisma.wallet.findFirst({ where: { id, isActive: true } })] *)
Definition wallet_findFirst_active (walletId : string) : Promise (option Wallet.t) :=
  fun s =>
    match wallets s !! walletId with
    | Some r =>
        if WalletRow.isActive r
        then (Resolved (Some (WalletRow.entity walletId r)), s)
        else (Resolved None, s)
    | None => (Resolved None, s)
    end.

(** [prisma.wallet.create({ data: { userId, balance } })]: the balance is
    stored rounded, and rejected when out of the column's range; the primary
    key is generated ([cuid]); a second wallet for the same user violates the
    unique index on the column of [userId], which the schema maps to
    [user_id], and the store's error names the column. *)
Definition wallet_create (cuid userId : string) (balance : Decimal.t) : Promise Wallet.t :=
  fun s =>
    if negb (in_range (rounded balance))
    then (Rejected (PrismaError "P2020" []), s)
    else
      match wallets s !! cuid with
      | Some _ => (Rejected (PrismaError "P2002" ["id"]), s)
      | None =>
          if bool_decide (map_Exists (fun _ r => WalletRow.userId r = userId) (wallets s))
          then (Rejected (PrismaError "P2002" ["user_id"]), s)
          else
            let r := WalletRow.mk userId (rounded balance) true 0 in
            (Resolved (WalletRow.entity cuid r), set_wallets (insert cuid r) s)
      end.

(** The row after [data: { isActive: false }]. *)
Definition deactivated (r : WalletRow.t) : WalletRow.t :=
  WalletRow.mk (WalletRow.userId r) (WalletRow.balance r) false (WalletRow.version r).

(** [prisma.wallet.update({ where: { id }, data: { isActive: false } })] *)
Definition wallet_update_inactive (walletId : string) : Promise Wallet.t :=
  fun s =>
    match wallets s !! walletId with
    | Some r =>
        (Resolved (WalletRow.entity walletId (deactivated r)),
         set_wallets (insert walletId (deactivated r)) s)
    | None => (Rejected (PrismaError "P2025" []), s)
    end.

(** [prisma.transaction.findUnique({ where: { transactionId } })] *)
Definition transaction_findUnique (transactionId : string) : Promise (option Transaction.t) :=
  fun s =>
    (Resolved (List.find (fun r => bool_decide (Transaction.transactionId r = transactionId))
                         (transactions s)), s).

(** [prisma.transaction.findMany({ where: { referenceId } })] *)
Definition transaction_findMany (referenceId : string) : Promise (list Transaction.t) :=
  fun s =>
    (Resolved (List.filter (fun r => bool_decide (Transaction.referenceId r = Some referenceId))
                           (transactions s)), s).

(** The [data] of [prisma.transaction.create]: the columns of the row, with
    the amount as the request carries it. *)
Module TransactionData.
Record t := mk {
  transactionId : string;
  referenceId : option string;
  walletId : string;
  destinationWalletId : option string;
  amount : Decimal.t;
  type : TransactionType;
  status : TransactionStatus;
  description : option string
}.

(** The row these data are stored as. *)
Definition row (d : t) : Transaction.t :=
  Transaction.mk (transactionId d) (referenceId d) (walletId d) (destinationWalletId d)
                 (rounded (amount d)) (type d) (status d) (description d).
End TransactionData.

(** [prisma.transaction.create({ data })]: the amount is stored rounded, and
    rejected when out of the column's range; [transactionId] is unique, and
    both wallet references are foreign keys into the wallets table. The
    unique-constraint error names the column in its target; the foreign-key
    error has no target. *)
Definition transaction_create (data : TransactionData.t) : Promise Transaction.t :=
  fun s =>
    let row := TransactionData.row data in
    if negb (in_range (Transaction.amount row))
    then (Rejected (PrismaError "P2020" []), s)
    else if existsb (fun r => bool_decide (Transaction.transactionId r = Transaction.transactionId row))
                    (transactions s)
    then (Rejected (PrismaError "P2002" ["transaction_id"]), s)
    else
      match wallets s !! Transaction.walletId row with
      | None => (Rejected (PrismaError "P2003" []), s)
      | Some _ =>
          match Transaction.destinationWalletId row with
          | Some d =>
              match wallets s !! d with
              | None => (Rejected (PrismaError "P2003" []), s)
              | Some _ => (Resolved row, set_transactions (fun l => l ++ [row]) s)
              end
          | None => (Resolved row, set_transactions (fun l => l ++ [row]) s)
          end
      end.

(** The two [where] clauses [updateMany] is called with. *)
Inductive TransactionWhere :=
| ByTransactionId (transactionId : string)
| ByReferenceId (referenceId : string).

Definition matches (w : TransactionWhere) (r : Transaction.t) : bool :=
  match w with
  | ByTransactionId t => bool_decide (Transaction.transactionId r = t)
  | ByReferenceId x => bool_decide (Transaction.referenceId r = Some x)
  end.

Definition mark (w : TransactionWhere) (status : TransactionStatus)
    (l : list Transaction.t) : list Transaction.t :=
  List.map (fun r => if matches w r then Transaction.with_status status r else r) l.

(** [prisma.transaction.updateMany({ where, data: { status } })], resolving to
    the number of rows matched. *)
Definition transaction_updateMany (w : TransactionWhere) (status : TransactionStatus) : Promise nat :=
  fun s =>
    (Resolved (length (List.filter (matches w) (transactions s))),
     set_transactions (mark w status) s).

(** [prisma.$transaction([...])]: the statements of the batch run in order and
    commit together; when one is rejected none of them has any effect on the
    tables. *)
Fixpoint run_batch {A} (ops : list (Promise A)) : Promise (list A) :=
  match ops with
  | [] => resolve []
  | op :: rest =>
      await a <- op;
      await l <- run_batch rest;
      resolve (a :: l)
  end.

Definition rollback (before after : World) : World :=
  mkWorld (wallets before) (transactions before) (redis after) (queue after) (trace after).

Definition batch_transaction {A} (ops : list (Promise A)) : Promise (list A) :=
  fun s =>
    match run_batch ops s with
    | (Resolved l, s') => (Resolved l, s')
    | (Rejected e, s') => (Rejected e, rollback s s')
    end.

(** ** Interactive transactions

    [prisma.$transaction(fn, { maxWait, timeout, isolationLevel: 'ReadCommitted' })].
    What the environment does during one attempt is an [Attempt]: the writes
    other workers commit to the wallets table after this transaction has read
    and before it updates ([concurrent]), and a failure the store reports
    either before running [fn] or at commit ([fault]). The client handed to
    [fn] reads the wallets as they were when the transaction began; its
    updates act on the rows as they are after [concurrent]. A rejected
    transaction undoes its own writes to the tables and nothing else. *)

Inductive FaultPoint := AtBegin | AtCommit.

Record Attempt := mkAttempt {
  concurrent : gmap string WalletRow.t → gmap string WalletRow.t;
  fault : option (FaultPoint * Exception)
}.

Record TxClient := mkTx { snapshot : gmap string WalletRow.t }.

Definition interactive_transaction {T} (fn : TxClient → Promise T) (a : Attempt) : Promise T :=
  fun s =>
    let s0 := emit TxBegin s in
    match fault a with
    | Some (AtBegin, e) => (Rejected e, s0)
    | _ =>
        let s1 := set_wallets (concurrent a) s0 in
        match fn (mkTx (wallets s0)) s1 with
        | (Resolved v, s2) =>
            match fault a with
            | Some (AtCommit, e) => (Rejected e, rollback s1 s2)
            | _ => (Resolved v, s2)
            end
        | (Rejected e, s2) => (Rejected e, rollback s1 s2)
        end
    end.

(** [tx.wallet.findUnique({ where: { id } })] *)
Definition tx_wallet_findUnique (prisma : TxClient) (walletId : string) : Promise (option Wallet.t) :=
  fun s =>
    (Resolved (WalletRow.entity walletId <$> snapshot prisma !! walletId),
     emit (WalletFindUnique walletId) s).

(** [tx.wallet.findMany({ where: { id: { in: ids } } })]: every row whose id
    is listed, once. *)
Definition tx_wallet_findMany (prisma : TxClient) (ids : list string) : Promise (list Wallet.t) :=
  fun s =>
    (Resolved (omap (fun i => WalletRow.entity i <$> snapshot prisma !! i) (remove_dups ids)),
     emit (WalletFindMany ids) s).

Inductive BalanceUpdate :=
| increment (by_ : Decimal.t)
| decrement (by_ : Decimal.t).

(** The balance the column holds after [balance: { increment }] or
    [balance: { decrement }]: the sum or difference, rounded. *)
Definition apply_update (u : BalanceUpdate) (balance : Z) : Z :=
  match u with
  | increment a => rounded (Decimal.of_units balance + a)%Q
  | decrement a => rounded (Decimal.of_units balance - a)%Q
  end.

(** The row after [data: { balance: u, version: { increment: 1 } }]. *)
Definition bump (u : BalanceUpdate) (r : WalletRow.t) : WalletRow.t :=
  WalletRow.mk (WalletRow.userId r) (apply_update u (WalletRow.balance r))
               (WalletRow.isActive r) (WalletRow.version r + 1).

(** [tx.wallet.update({ where: { id, version }, data: { balance: u, version: { increment: 1 } } })]:
    rejected with P2025 when no row has this id and this version, and with
    P2020 when the new balance is out of the column's range. *)
Definition tx_wallet_update (walletId : string) (version : Z) (u : BalanceUpdate) : Promise Wallet.t :=
  fun s =>
    let s' := emit (WalletUpdate walletId) s in
    match wallets s !! walletId with
    | Some r =>
        if bool_decide (WalletRow.version r = version)
        then
          if in_range (WalletRow.balance (bump u r))
          then (Resolved (WalletRow.entity walletId (bump u r)),
                set_wallets (insert walletId (bump u r)) s')
          else (Rejected (PrismaError "P2020" []), s')
        else (Rejected (PrismaError "P2025" []), s')
    | None => (Rejected (PrismaError "P2025" []), s')
    end.

(** ** PrismaService.executeTransaction: the retry loop *)

Definition retryable (error : Exception) : bool :=
  match error_code error with
  | Some code => bool_decide (code = "P2034") || bool_decide (code = "P2028")
  | None => false
  end.

Definition backoff (i : nat) : Z := 2 ^ Z.of_nat i * 100.

(** The [for] loop from iteration [i] on, with [remaining = maxRetries - i]
    iterations left; [env i] is what the environment does during attempt [i]. *)
Fixpoint executeTransaction_loop {T} (fn : TxClient → Promise T) (env : nat → Attempt)
    (remaining i : nat) (lastError : Exception) : Promise T :=
  match remaining with
  | O => throw lastError
  | S n =>
      try_catch (interactive_transaction fn (env i))
        (fun error =>
           if retryable error
           then
             perform modify (emit (Delay (backoff i)));
             executeTransaction_loop fn env n (S i) error
           else throw error)
  end.

Definition executeTransaction {T} (fn : TxClient → Promise T) (env : nat → Attempt)
    (maxRetries : nat) : Promise T :=
  executeTransaction_loop fn env maxRetries 0 Undefined.

Definition defaultMaxRetries : nat := 3.

(** ** Cache and queue *)

Definition balance_key (walletId : string) : string := ("wallet_balance_" ++ walletId)%string.

Definition redis_get (key : string) : Promise (option Decimal.t) :=
  fun s => (Resolved (redis s !! key), s).

(** [redis.set(key, JSON.stringify(balance.toString()), 'EX', 300)] *)
Definition cacheWalletBalance (walletId : string) (balance : Decimal.t) : Promise unit :=
  modify (set_redis (insert (balance_key walletId) balance)).

Definition invalidateWalletCache (walletId : string) : Promise unit :=
  modify (set_redis (delete (balance_key walletId))).

(** [transactionQueue.add(name, data, opts)]: the queue takes the job, or the
    call is rejected ([enqueue] is the error, when the queue is down) and no
    job is added. *)
Definition queue_add (enqueue : option Exception) (job : Job) : Promise unit :=
  match enqueue with
  | None => modify (set_queue (fun q => q ++ [job]))
  | Some error => throw error
  end.

(** [Array.prototype.sort] with the default comparator, on strings. *)
Fixpoint sort_insert (x : string) (l : list string) : list string :=
  match l with
  | [] => [x]
  | y :: rest => if String.leb x y then x :: y :: rest else y :: sort_insert x rest
  end.

Definition Array_sort (l : list string) : list string := foldr sort_insert [] l.

(** ** WalletService: the request side *)

Definition createWallet (cuid : string) (createWalletDto : CreateWalletDto.t) : Promise Wallet.t :=
  let userId := CreateWalletDto.userId createWalletDto in
  let initialBalance := default 0%Q (CreateWalletDto.initialBalance createWalletDto) in
  try_catch
    (await wallet <- wallet_create cuid userId initialBalance;
     perform cacheWalletBalance (Wallet.id wallet) initialBalance;
     resolve wallet)
    (fun error =>
       match error with
       | PrismaError code target =>
           if bool_decide (code = "P2002") && bool_decide ("userId" ∈ target)
           then throw (ConflictException "User already has a wallet")
           else throw error
       | _ => throw error
       end).

Definition getWallet (walletId : string) : Promise Wallet.t :=
  await wallet <- wallet_findFirst_active walletId;
  match wallet with
  | None => throw (NotFoundException "Wallet not found")
  | Some wallet => resolve wallet
  end.

Definition getWalletBalance (walletId : string) : Promise Decimal.t :=
  await cachedBalance <- redis_get (balance_key walletId);
  match cachedBalance with
  | Some parsedBalance => resolve parsedBalance
  | None =>
      await wallet <- getWallet walletId;
      perform cacheWalletBalance walletId (Decimal.of_units (Wallet.balance wallet));
      resolve (Decimal.of_units (Wallet.balance wallet))
  end.

(** [uuidv4] is the value the generator returns when the request carries no
    [transactionId]; [enqueue] is what the queue answers. *)
Definition depositFunds (uuidv4 : string) (enqueue : option Exception)
    (depositFundsDto : DepositFundsDto.t) : Promise Transaction.t :=
  let walletId := DepositFundsDto.walletId depositFundsDto in
  let amount := DepositFundsDto.amount depositFundsDto in
  let description := DepositFundsDto.description depositFundsDto in
  let transactionId := default uuidv4 (DepositFundsDto.transactionId depositFundsDto) in
  await existingTransaction <- transaction_findUnique transactionId;
  match existingTransaction with
  | Some existingTransaction => resolve existingTransaction
  | None =>
      perform getWallet walletId;
      await transaction <-
        transaction_create
          (TransactionData.mk transactionId None walletId None amount DEPOSIT PENDING description);
      perform queue_add enqueue (JobDeposit (SingleJob.mk walletId amount description transactionId));
      resolve transaction
  end.

Definition withdrawFunds (uuidv4 : string) (enqueue : option Exception)
    (withdrawFundsDto : WithdrawFundsDto.t) : Promise Transaction.t :=
  let walletId := WithdrawFundsDto.walletId withdrawFundsDto in
  let amount := WithdrawFundsDto.amount withdrawFundsDto in
  let description := WithdrawFundsDto.description withdrawFundsDto in
  let transactionId := default uuidv4 (WithdrawFundsDto.transactionId withdrawFundsDto) in
  await existingTransaction <- transaction_findUnique transactionId;
  match existingTransaction with
  | Some existingTransaction => resolve existingTransaction
  | None =>
      await balance <- getWalletBalance walletId;
      if Decimal.lt balance amount
      then throw (BadRequestException "Insufficient funds")
      else
        await transaction <-
          transaction_create
            (TransactionData.mk transactionId None walletId None amount WITHDRAWAL PENDING description);
        perform queue_add enqueue (JobWithdrawal (SingleJob.mk walletId amount description transactionId));
        resolve transaction
  end.

(** [uuid_out] and [uuid_in] are the two values the generator returns, in the
    order the two rows are built. *)
Definition transferFunds (uuid_out uuid_in : string) (enqueue : option Exception)
    (transferFundsDto : TransferFundsDto.t) : Promise (list Transaction.t) :=
  let sourceWalletId := TransferFundsDto.sourceWalletId transferFundsDto in
  let destinationWalletId := TransferFundsDto.destinationWalletId transferFundsDto in
  let amount := TransferFundsDto.amount transferFundsDto in
  let description := TransferFundsDto.description transferFundsDto in
  let referenceId := TransferFundsDto.referenceId transferFundsDto in
  await existingTransactions <- transaction_findMany referenceId;
  if (0 <? length existingTransactions)%nat
  then resolve existingTransactions
  else
    perform getWallet sourceWalletId;
    perform getWallet destinationWalletId;
    await balance <- getWalletBalance sourceWalletId;
    if Decimal.lt balance amount
    then throw (BadRequestException "Insufficient funds")
    else
      await transactions <-
        batch_transaction
          [ transaction_create
              (TransactionData.mk uuid_out (Some referenceId) sourceWalletId (Some destinationWalletId)
                              amount TRANSFER_OUT PENDING description);
            transaction_create
              (TransactionData.mk uuid_in (Some referenceId) destinationWalletId (Some sourceWalletId)
                              amount TRANSFER_IN PENDING description) ];
      perform queue_add enqueue
        (JobTransfer (TransferJob.mk sourceWalletId destinationWalletId amount description referenceId));
      resolve transactions.

Definition deactivateWallet (walletId : string) : Promise Wallet.t :=
  perform getWallet walletId;
  await balance <- getWalletBalance walletId;
  if Decimal.gt balance 0
  then throw (BadRequestException "Cannot deactivate wallet with non-zero balance")
  else
    await updatedWallet <- wallet_update_inactive walletId;
    perform invalidateWalletCache walletId;
    resolve updatedWallet.

(** ** WalletService: the settlement side

    Each handler is [try { await executeTransaction(async (prisma) => body) }
    catch (error) { mark FAILED; throw error }]; the callbacks are named here. *)

Definition processDeposit_tx (data : SingleJob.t) (prisma : TxClient) : Promise unit :=
  let walletId := SingleJob.walletId data in
  let amountDecimal := SingleJob.amount data in
  let transactionId := SingleJob.transactionId data in
  await wallet <- tx_wallet_findUnique prisma walletId;
  match wallet with
  | None => throw (NotFoundException "Wallet not found")
  | Some wallet =>
      await updatedWallet <-
        tx_wallet_update walletId (Wallet.version wallet) (increment amountDecimal);
      perform transaction_updateMany (ByTransactionId transactionId) COMPLETED;
      cacheWalletBalance walletId (Decimal.of_units (Wallet.balance updatedWallet))
  end.

Definition processDeposit (data : SingleJob.t) (env : nat → Attempt) : Promise unit :=
  let transactionId := SingleJob.transactionId data in
  try_catch
    (executeTransaction (processDeposit_tx data) env defaultMaxRetries)
    (fun error =>
       perform transaction_updateMany (ByTransactionId transactionId) FAILED;
       throw error).

Definition processWithdrawal_tx (data : SingleJob.t) (prisma : TxClient) : Promise unit :=
  let walletId := SingleJob.walletId data in
  let amountDecimal := SingleJob.amount data in
  let transactionId := SingleJob.transactionId data in
  await wallet <- tx_wallet_findUnique prisma walletId;
  match wallet with
  | None => throw (NotFoundException "Wallet not found")
  | Some wallet =>
      let currentBalance := Decimal.of_units (Wallet.balance wallet) in
      if Decimal.lt currentBalance amountDecimal
      then throw (BadRequestException "Insufficient funds")
      else
        await updatedWallet <-
          tx_wallet_update walletId (Wallet.version wallet) (decrement amountDecimal);
        perform transaction_updateMany (ByTransactionId transactionId) COMPLETED;
        cacheWalletBalance walletId (Decimal.of_units (Wallet.balance updatedWallet))
  end.

Definition processWithdrawal (data : SingleJob.t) (env : nat → Attempt) : Promise unit :=
  let transactionId := SingleJob.transactionId data in
  try_catch
    (executeTransaction (processWithdrawal_tx data) env defaultMaxRetries)
    (fun error =>
       perform transaction_updateMany (ByTransactionId transactionId) FAILED;
       throw error).

Definition find_wallet (walletId : string) (l : list Wallet.t) : option Wallet.t :=
  List.find (fun w => bool_decide (Wallet.id w = walletId)) l.

Definition processTransfer_tx (data : TransferJob.t) (prisma : TxClient) : Promise unit :=
  let sourceWalletId := TransferJob.sourceWalletId data in
  let destinationWalletId := TransferJob.destinationWalletId data in
  let amountDecimal := TransferJob.amount data in
  let referenceId := TransferJob.referenceId data in
  let walletIds := Array_sort [sourceWalletId; destinationWalletId] in
  await wallets <- tx_wallet_findMany prisma walletIds;
  match find_wallet sourceWalletId wallets, find_wallet destinationWalletId wallets with
  | Some sourceWallet, Some destinationWallet =>
      let sourceBalance := Decimal.of_units (Wallet.balance sourceWallet) in
      if Decimal.lt sourceBalance amountDecimal
      then throw (BadRequestException "Insufficient funds")
      else
        await updatedSourceWallet <-
          tx_wallet_update sourceWalletId (Wallet.version sourceWallet)
                           (decrement amountDecimal);
        await updatedDestinationWallet <-
          tx_wallet_update destinationWalletId (Wallet.version destinationWallet)
                           (increment amountDecimal);
        perform transaction_updateMany (ByReferenceId referenceId) COMPLETED;
        perform cacheWalletBalance sourceWalletId
          (Decimal.of_units (Wallet.balance updatedSourceWallet));
        cacheWalletBalance destinationWalletId
          (Decimal.of_units (Wallet.balance updatedDestinationWallet))
  | _, _ => throw (NotFoundException "One or both wallets not found")
  end.

Definition processTransfer (data : TransferJob.t) (env : nat → Attempt) : Promise unit :=
  let referenceId := TransferJob.referenceId data in
  try_catch
    (executeTransaction (processTransfer_tx data) env defaultMaxRetries)
    (fun error =>
       perform transaction_updateMany (ByReferenceId referenceId) FAILED;
       throw error).

(** ** TransactionProcessor: one handler per job name *)

Definition handle (job : Job) (env : nat → Attempt) : Promise unit :=
  match job with
  | JobDeposit data => processDeposit data env
  | JobWithdrawal data => processWithdrawal data env
  | JobTransfer data => processTransfer data env
  end.

(** ** Running the model *)

Definition quiet : Attempt := mkAttempt (fun ws => ws) None.

Definition calm : nat → Attempt := fun _ => quiet.

Definition final {A} (p : Outcome A * World) : World := snd p.

Definition outcome {A} (p : Outcome A * World) : Outcome A := fst p.

Definition balance_of (walletId : string) (s : World) : option Z :=
  WalletRow.balance <$> wallets s !! walletId.

Definition version_of (walletId : string) (s : World) : option Z :=
  WalletRow.version <$> wallets s !! walletId.

Definition active_of (walletId : string) (s : World) : option bool :=
  WalletRow.isActive <$> wallets s !! walletId.

(** The ledger row with a given [transactionId], and the rows with a given
    [referenceId]. *)
Definition row_of (transactionId : string) (s : World) : option Transaction.t :=
  List.find (fun r => bool_decide (Transaction.transactionId r = transactionId)) (transactions s).

Definition rows_of_reference (referenceId : string) (s : World) : list Transaction.t :=
  List.filter (fun r => bool_decide (Transaction.referenceId r = Some referenceId)) (transactions s).

Definition status_of (transactionId : string) (s : World) : option TransactionStatus :=
  Transaction.status <$> row_of transactionId s.

Definition empty_world : World := mkWorld ∅ [] ∅ [] [].

(** ** Views used in the statements *)

(** What a job's handler runs inside the store transaction, the ledger rows it
    marks, and its amount. *)
Definition job_tx (job : Job) : TxClient → Promise unit :=
  match job with
  | JobDeposit data => processDeposit_tx data
  | JobWithdrawal data => processWithdrawal_tx data
  | JobTransfer data => processTransfer_tx data
  end.

Definition job_key (job : Job) : TransactionWhere :=
  match job with
  | JobDeposit data => ByTransactionId (SingleJob.transactionId data)
  | JobWithdrawal data => ByTransactionId (SingleJob.transactionId data)
  | JobTransfer data => ByReferenceId (TransferJob.referenceId data)
  end.

Definition job_amount (job : Job) : Decimal.t :=
  match job with
  | JobDeposit data => SingleJob.amount data
  | JobWithdrawal data => SingleJob.amount data
  | JobTransfer data => TransferJob.amount data
  end.

(** Projections of the trace: how many store transactions were begun, the
    delays slept, and the wallets updated, in order. *)
Definition attempts (tr : list Event) : nat :=
  length (List.filter (fun e => match e with TxBegin => true | _ => false end) tr).

Definition delays (tr : list Event) : list Z :=
  omap (fun e => match e with Delay ms => Some ms | _ => None end) tr.

Definition updates (tr : list Event) : list string :=
  omap (fun e => match e with WalletUpdate id => Some id | _ => None end) tr.

(** The retry loop attempt by attempt: [world_at fn env i s] is the world in
    which attempt [i] begins when the loop is entered in [s] and gets that
    far, that is after the attempts before it, each followed by its delay;
    [attempt_at fn env i s] is that attempt, and [callback_run fn env i s]
    what its callback does, on a client that reads the wallets as they are
    when the attempt begins. An attempt is [retried] when it is rejected with
    a retryable error. *)
Fixpoint world_at {T} (fn : TxClient → Promise T) (env : nat → Attempt) (i : nat) (s : World)
    : World :=
  match i with
  | O => s
  | S j =>
      emit (Delay (backoff j)) (final (interactive_transaction fn (env j) (world_at fn env j s)))
  end.

Definition attempt_at {T} (fn : TxClient → Promise T) (env : nat → Attempt) (i : nat) (s : World)
    : Outcome T * World :=
  interactive_transaction fn (env i) (world_at fn env i s).


Definition retried {T} (r : Outcome T * World) : bool :=
  match outcome r with
  | Resolved _ => false
  | Rejected error => retryable error
  end.

(** Every public operation of the service and of the processor, with what the
    environment contributes to it. *)
Inductive Operation :=
| OpCreateWallet (cuid : string) (dto : CreateWalletDto.t)
| OpGetWallet (walletId : string)
| OpGetWalletBalance (walletId : string)
| OpDepositFunds (uuidv4 : string) (enqueue : option Exception) (dto : DepositFundsDto.t)
| OpWithdrawFunds (uuidv4 : string) (enqueue : option Exception) (dto : WithdrawFundsDto.t)
| OpTransferFunds (uuid_out uuid_in : string) (enqueue : option Exception)
    (dto : TransferFundsDto.t)
| OpDeactivateWallet (walletId : string)
| OpHandle (job : Job) (env : nat → Attempt).

Definition step (op : Operation) (s : World) : World :=
  match op with
  | OpCreateWallet cuid dto => final (createWallet cuid dto s)
  | OpGetWallet walletId => final (getWallet walletId s)
  | OpGetWalletBalance walletId => final (getWalletBalance walletId s)
  | OpDepositFunds uuidv4 enqueue dto => final (depositFunds uuidv4 enqueue dto s)
  | OpWithdrawFunds uuidv4 enqueue dto => final (withdrawFunds uuidv4 enqueue dto s)
  | OpTransferFunds uuid_out uuid_in enqueue dto =>
      final (transferFunds uuid_out uuid_in enqueue dto s)
  | OpDeactivateWallet walletId => final (deactivateWallet walletId s)
  | OpHandle job env => final (handle job env s)
  end.

Definition run (ops : list Operation) (s : World) : World := foldl (fun s op => step op s) s ops.

(** Balances never negative. *)
Definition nonneg (ws : gmap string WalletRow.t) : Prop :=
  ∀ id r, ws !! id = Some r → 0 ≤ WalletRow.balance r.

(** What is assumed of the writes other workers commit: rows are not deleted,
    a balance changes only together with its version, balances stay
    non-negative, and a deactivated wallet stays deactivated. *)
Definition disciplined (f : gmap string WalletRow.t → gmap string WalletRow.t) : Prop :=
  ∀ ws,
    (nonneg ws → nonneg (f ws)) ∧
    (∀ id r, ws !! id = Some r →
       ∃ r', f ws !! id = Some r' ∧
         (WalletRow.version r' = WalletRow.version r →
          WalletRow.balance r' = WalletRow.balance r) ∧
         (WalletRow.isActive r = false → WalletRow.isActive r' = false)).

(** The inputs under which the invariants are stated: amounts as request
    validation admits them, and disciplined concurrent writers. *)
Definition admissible (op : Operation) : Prop :=
  match op with
  | OpCreateWallet _ dto => (0 <= default 0 (CreateWalletDto.initialBalance dto))%Q
  | OpHandle job env => (0 <= job_amount job)%Q ∧ ∀ i, disciplined (concurrent (env i))
  | _ => True
  end.

(** The balance the read path reports: the cached value when there is one,
    else the stored balance of an active wallet. *)
Definition seen_balance (walletId : string) (s : World) : option Decimal.t :=
  match redis s !! balance_key walletId with
  | Some cached => Some cached
  | None =>
      match wallets s !! walletId with
      | Some r =>
          if WalletRow.isActive r then Some (Decimal.of_units (WalletRow.balance r)) else None
      | None => None
      end
  end.

Definition is_active (walletId : string) (s : World) : Prop :=
  ∃ r, wallets s !! walletId = Some r ∧ WalletRow.isActive r = true.

(** A callback that neither begins transactions nor sleeps itself and whose
    own rejections are not retryable. *)
Definition plain_callback {T} (fn : TxClient → Promise T) : Prop :=
  ∀ tx s,
    attempts (trace (final (fn tx s))) = attempts (trace s) ∧
    delays (trace (final (fn tx s))) = delays (trace s) ∧
    ∀ e, outcome (fn tx s) = Rejected e → retryable e = false.

(** The world a committed single-wallet settlement leaves: the wallet row
    bumped, the job's ledger row COMPLETED, the cache refreshed. *)
Definition settled_single (u : BalanceUpdate) (data : SingleJob.t) (r : WalletRow.t)
    (s : World) : World :=
  let walletId := SingleJob.walletId data in
  mkWorld (<[walletId := bump u r]> (wallets s))
          (mark (ByTransactionId (SingleJob.transactionId data)) COMPLETED (transactions s))
          (<[balance_key walletId := Decimal.of_units (WalletRow.balance (bump u r))]> (redis s))
          (queue s)
          (trace s ++ [WalletFindUnique walletId; WalletUpdate walletId]).

(** The same for a transfer: [rs] and [rd] are the source and destination rows
    the two updates found. *)
Definition settled_transfer (data : TransferJob.t) (rs rd : WalletRow.t) (s : World) : World :=
  let source := TransferJob.sourceWalletId data in
  let destination := TransferJob.destinationWalletId data in
  let amount := TransferJob.amount data in
  mkWorld (<[destination := bump (increment amount) rd]>
             (<[source := bump (decrement amount) rs]> (wallets s)))
          (mark (ByReferenceId (TransferJob.referenceId data)) COMPLETED (transactions s))
          (<[balance_key destination :=
               Decimal.of_units (WalletRow.balance (bump (increment amount) rd))]>
             (<[balance_key source :=
                  Decimal.of_units (WalletRow.balance (bump (decrement amount) rs))]> (redis s)))
          (queue s)
          (trace s ++ [WalletFindMany (Array_sort [source; destination]);
                       WalletUpdate source; WalletUpdate destination]).

(** The callback's check of the funds, on the balance it read. *)
Definition short (balance : Z) (amount : Decimal.t) : bool :=
  Decimal.lt (Decimal.of_units balance) amount.

(** The callback of a deposit or a withdrawal, case by case: [r0] is the row
    as read, [r] the row the update finds. *)
Inductive single_result (u : BalanceUpdate) (data : SingleJob.t) (tx : TxClient) (s : World)
    : Outcome unit * World → Prop :=
| single_not_found :
    snapshot tx !! SingleJob.walletId data = None →
    single_result u data tx s
      (Rejected (NotFoundException "Wallet not found"),
       emit (WalletFindUnique (SingleJob.walletId data)) s)
| single_insufficient r0 :
    snapshot tx !! SingleJob.walletId data = Some r0 →
    u = decrement (SingleJob.amount data) →
    short (WalletRow.balance r0) (SingleJob.amount data) = true →
    single_result u data tx s
      (Rejected (BadRequestException "Insufficient funds"),
       emit (WalletFindUnique (SingleJob.walletId data)) s)
| single_conflict r0 :
    snapshot tx !! SingleJob.walletId data = Some r0 →
    (u = decrement (SingleJob.amount data) →
     short (WalletRow.balance r0) (SingleJob.amount data) = false) →
    (∀ r, wallets s !! SingleJob.walletId data = Some r →
          WalletRow.version r ≠ WalletRow.version r0) →
    single_result u data tx s
      (Rejected (PrismaError "P2025" []),
       emit (WalletUpdate (SingleJob.walletId data))
            (emit (WalletFindUnique (SingleJob.walletId data)) s))
| single_overflow r0 r :
    snapshot tx !! SingleJob.walletId data = Some r0 →
    (u = decrement (SingleJob.amount data) →
     short (WalletRow.balance r0) (SingleJob.amount data) = false) →
    wallets s !! SingleJob.walletId data = Some r →
    WalletRow.version r = WalletRow.version r0 →
    in_range (WalletRow.balance (bump u r)) = false →
    single_result u data tx s
      (Rejected (PrismaError "P2020" []),
       emit (WalletUpdate (SingleJob.walletId data))
            (emit (WalletFindUnique (SingleJob.walletId data)) s))
| single_committed r0 r :
    snapshot tx !! SingleJob.walletId data = Some r0 →
    (u = decrement (SingleJob.amount data) →
     short (WalletRow.balance r0) (SingleJob.amount data) = false) →
    wallets s !! SingleJob.walletId data = Some r →
    WalletRow.version r = WalletRow.version r0 →
    in_range (WalletRow.balance (bump u r)) = true →
    single_result u data tx s (Resolved tt, settled_single u data r s).

(** The callback of a transfer, case by case: [rs0] and [rd0] are the rows as
    read, [rs] and [rd] the rows the two updates find. *)
Inductive transfer_result (data : TransferJob.t) (tx : TxClient) (s : World)
    : Outcome unit * World → Prop :=
| transfer_not_found :
    snapshot tx !! TransferJob.sourceWalletId data = None ∨
    snapshot tx !! TransferJob.destinationWalletId data = None →
    transfer_result data tx s
      (Rejected (NotFoundException "One or both wallets not found"),
       emit (WalletFindMany (Array_sort [TransferJob.sourceWalletId data;
                                         TransferJob.destinationWalletId data])) s)
| transfer_insufficient rs0 rd0 :
    snapshot tx !! TransferJob.sourceWalletId data = Some rs0 →
    snapshot tx !! TransferJob.destinationWalletId data = Some rd0 →
    short (WalletRow.balance rs0) (TransferJob.amount data) = true →
    transfer_result data tx s
      (Rejected (BadRequestException "Insufficient funds"),
       emit (WalletFindMany (Array_sort [TransferJob.sourceWalletId data;
                                         TransferJob.destinationWalletId data])) s)
| transfer_conflict_source rs0 rd0 :
    snapshot tx !! TransferJob.sourceWalletId data = Some rs0 →
    snapshot tx !! TransferJob.destinationWalletId data = Some rd0 →
    short (WalletRow.balance rs0) (TransferJob.amount data) = false →
    (∀ r, wallets s !! TransferJob.sourceWalletId data = Some r →
          WalletRow.version r ≠ WalletRow.version rs0) →
    transfer_result data tx s
      (Rejected (PrismaError "P2025" []),
       emit (WalletUpdate (TransferJob.sourceWalletId data))
         (emit (WalletFindMany (Array_sort [TransferJob.sourceWalletId data;
                                            TransferJob.destinationWalletId data])) s))
| transfer_overflow_source rs0 rd0 rs :
    snapshot tx !! TransferJob.sourceWalletId data = Some rs0 →
    snapshot tx !! TransferJob.destinationWalletId data = Some rd0 →
    short (WalletRow.balance rs0) (TransferJob.amount data) = false →
    wallets s !! TransferJob.sourceWalletId data = Some rs →
    WalletRow.version rs = WalletRow.version rs0 →
    in_range (WalletRow.balance (bump (decrement (TransferJob.amount data)) rs)) = false →
    transfer_result data tx s
      (Rejected (PrismaError "P2020" []),
       emit (WalletUpdate (TransferJob.sourceWalletId data))
         (emit (WalletFindMany (Array_sort [TransferJob.sourceWalletId data;
                                            TransferJob.destinationWalletId data])) s))
| transfer_conflict_destination rs0 rd0 rs :
    snapshot tx !! TransferJob.sourceWalletId data = Some rs0 →
    snapshot tx !! TransferJob.destinationWalletId data = Some rd0 →
    short (WalletRow.balance rs0) (TransferJob.amount data) = false →
    wallets s !! TransferJob.sourceWalletId data = Some rs →
    WalletRow.version rs = WalletRow.version rs0 →
    in_range (WalletRow.balance (bump (decrement (TransferJob.amount data)) rs)) = true →
    (TransferJob.sourceWalletId data = TransferJob.destinationWalletId data ∨
     ∀ r, wallets s !! TransferJob.destinationWalletId data = Some r →
          WalletRow.version r ≠ WalletRow.version rd0) →
    transfer_result data tx s
      (Rejected (PrismaError "P2025" []),
       emit (WalletUpdate (TransferJob.destinationWalletId data))
         (set_wallets
            (insert (TransferJob.sourceWalletId data)
                    (bump (decrement (TransferJob.amount data)) rs))
            (emit (WalletUpdate (TransferJob.sourceWalletId data))
               (emit (WalletFindMany (Array_sort [TransferJob.sourceWalletId data;
                                                  TransferJob.destinationWalletId data])) s))))
| transfer_overflow_destination rs0 rd0 rs rd :
    snapshot tx !! TransferJob.sourceWalletId data = Some rs0 →
    snapshot tx !! TransferJob.destinationWalletId data = Some rd0 →
    short (WalletRow.balance rs0) (TransferJob.amount data) = false →
    TransferJob.sourceWalletId data ≠ TransferJob.destinationWalletId data →
    wallets s !! TransferJob.sourceWalletId data = Some rs →
    WalletRow.version rs = WalletRow.version rs0 →
    in_range (WalletRow.balance (bump (decrement (TransferJob.amount data)) rs)) = true →
    wallets s !! TransferJob.destinationWalletId data = Some rd →
    WalletRow.version rd = WalletRow.version rd0 →
    in_range (WalletRow.balance (bump (increment (TransferJob.amount data)) rd)) = false →
    transfer_result data tx s
      (Rejected (PrismaError "P2020" []),
       emit (WalletUpdate (TransferJob.destinationWalletId data))
         (set_wallets
            (insert (TransferJob.sourceWalletId data)
                    (bump (decrement (TransferJob.amount data)) rs))
            (emit (WalletUpdate (TransferJob.sourceWalletId data))
               (emit (WalletFindMany (Array_sort [TransferJob.sourceWalletId data;
                                                  TransferJob.destinationWalletId data])) s))))
| transfer_committed rs0 rd0 rs rd :
    snapshot tx !! TransferJob.sourceWalletId data = Some rs0 →
    snapshot tx !! TransferJob.destinationWalletId data = Some rd0 →
    short (WalletRow.balance rs0) (TransferJob.amount data) = false →
    TransferJob.sourceWalletId data ≠ TransferJob.destinationWalletId data →
    wallets s !! TransferJob.sourceWalletId data = Some rs →
    WalletRow.version rs = WalletRow.version rs0 →
    in_range (WalletRow.balance (bump (decrement (TransferJob.amount data)) rs)) = true →
    wallets s !! TransferJob.destinationWalletId data = Some rd →
    WalletRow.version rd = WalletRow.version rd0 →
    in_range (WalletRow.balance (bump (increment (TransferJob.amount data)) rd)) = true →
    transfer_result data tx s (Resolved tt, settled_transfer data rs rd s).

(** What one committed settlement transaction does to the wallets table:
    [seen] is the table as the transaction read it, [before] the table its
    updates acted on. A row is either left alone or, its version being the one
    read, replaced by its [bump], which the column's range admits. *)
Definition committed_write (job : Job) (seen before after : gmap string WalletRow.t) : Prop :=
  ∀ id,
    after !! id = before !! id ∨
    ∃ r0 r u,
      seen !! id = Some r0 ∧ before !! id = Some r ∧
      WalletRow.version r = WalletRow.version r0 ∧
      after !! id = Some (bump u r) ∧
      in_range (WalletRow.balance (bump u r)) = true ∧
      (u = increment (job_amount job) ∨
       (u = decrement (job_amount job) ∧ short (WalletRow.balance r0) (job_amount job) = false)).

(** Every wallet deactivated in [before] is still there and deactivated in
    [after]. *)
Definition stays_inactive (before after : gmap string WalletRow.t) : Prop :=
  ∀ id r, before !! id = Some r → WalletRow.isActive r = false →
    ∃ r', after !! id = Some r' ∧ WalletRow.isActive r' = false.

(** No other worker writes to the wallets while a handler runs. *)
Definition undisturbed (env : nat → Attempt) : Prop :=
  ∀ i ws, concurrent (env i) ws = ws.

(** ** Scenarios

    Worlds reached from the empty world by running operations, used to
    exercise the statements below. *)

Definition dto_alice : CreateWalletDto.t := CreateWalletDto.mk "u1" (Some 100%Q).
Definition dto_bob : CreateWalletDto.t := CreateWalletDto.mk "u2" None.

(** Two wallets: "a" with balance 100 and "b" with balance 0. *)
Definition world_two_wallets : World :=
  run [OpCreateWallet "a" dto_alice; OpCreateWallet "b" dto_bob] empty_world.

Definition deposit_a : DepositFundsDto.t := DepositFundsDto.mk "a" 50%Q None (Some "t1").
Definition job_deposit_a : SingleJob.t := SingleJob.mk "a" 50%Q None "t1".

(** A deposit of 50 into "a" has been requested: its row is PENDING. *)
Definition world_deposit_requested : World :=
  step (OpDepositFunds "g1" None deposit_a) world_two_wallets.

(** ... and settled once, undisturbed: its row is COMPLETED. *)
Definition world_deposit_settled : World :=
  step (OpHandle (JobDeposit job_deposit_a) calm) world_deposit_requested.

Definition withdraw_a : WithdrawFundsDto.t := WithdrawFundsDto.mk "a" 30%Q None (Some "t2").

Definition world_withdrawal_requested : World :=
  step (OpWithdrawFunds "g2" None withdraw_a) world_deposit_settled.

Definition transfer_a_b : TransferFundsDto.t := TransferFundsDto.mk "a" "b" 10%Q None "r1".

Definition world_transfer_requested : World :=
  step (OpTransferFunds "g3" "g4" None transfer_a_b) world_withdrawal_requested.

(** "b" has been deactivated. *)
Definition world_b_deactivated : World := step (OpDeactivateWallet "b") world_two_wallets.

(** An environment in which, during the first attempt only, another worker
    commits a deposit of 7 into "a" between this transaction's read and its
    update; no failure is reported by the store. *)
Definition env_conflict : nat → Attempt :=
  fun i =>
    match i with
    | O => mkAttempt (alter (bump (increment 7%Q)) "a") None
    | S _ => quiet
    end.

(** The deposit into "a" has been delivered once and lost the race against the
    other worker: its row is FAILED, and the balance is 107. *)
Definition world_deposit_failed : World :=
  step (OpHandle (JobDeposit job_deposit_a) env_conflict) world_deposit_requested.

(** The store reports a transient failure on every attempt. *)
Definition env_busy : nat → Attempt :=
  fun _ => mkAttempt (fun ws => ws) (Some (AtCommit, PrismaError "P2034" [])).

(** Two funded wallets: "a" with 100 and "b" with 80. *)
Definition world_funded : World :=
  run [OpCreateWallet "a" dto_alice; OpCreateWallet "b" (CreateWalletDto.mk "u2" (Some 80%Q))]
      empty_world.

Definition job_transfer_b_a : TransferJob.t := TransferJob.mk "b" "a" 10%Q None "r2".

(** A deposit into "b" is requested while "b" is active; "b" is deactivated
    before the job is delivered. *)
Definition job_deposit_b : SingleJob.t := SingleJob.mk "b" 50%Q None "t3".

Definition world_b_deactivated_with_pending_deposit : World :=
  run [OpDepositFunds "g9" None (DepositFundsDto.mk "b" 50%Q None (Some "t3"));
       OpDeactivateWallet "b"]
      world_two_wallets.

(** The store times out at commit on every attempt. *)
Definition env_timeout : nat → Attempt :=
  fun _ => mkAttempt (fun ws => ws) (Some (AtCommit, PrismaError "P2028" [])).

(** The whole balance of "a" is withdrawn, and the settlement loses its commit
    on every attempt: the store still holds 100 for "a", the cache holds the
    balance the callback wrote before the commit failed. *)
Definition job_withdraw_all : SingleJob.t := SingleJob.mk "a" 100%Q None "t4".

Definition world_commit_lost : World :=
  run [OpWithdrawFunds "g10" None (WithdrawFundsDto.mk "a" 100%Q None (Some "t4"));
       OpHandle (JobWithdrawal job_withdraw_all) env_timeout]
      world_two_wallets.

(** The store reports a write conflict when the first attempt begins, and
    nothing afterwards. *)
Definition env_hiccup : nat → Attempt :=
  fun i =>
    match i with
    | O => mkAttempt (fun ws => ws) (Some (AtBegin, PrismaError "P2034" []))
    | S _ => quiet
    end.

(** ** WalletService: listing a user's wallets *)

(** [prisma.wallet.findMany({ where: { userId, isActive: true },
    orderBy: { createdAt: 'desc' } })]. The table as modelled has no
    [createdAt] column: [createdAt] gives the creation time of the wallet with
    a given id. *)
Definition newer_first (createdAt : string → Z) (a b : Wallet.t) : Prop :=
  createdAt (Wallet.id b) ≤ createdAt (Wallet.id a).

#[global] Instance newer_first_dec createdAt a b : Decision (newer_first createdAt a b).
Proof. unfold newer_first. apply _. Defined.

Definition wallet_findMany_by_user (createdAt : string → Z) (userId : string)
    : Promise (list Wallet.t) :=
  fun s =>
    (Resolved
       (merge_sort (newer_first createdAt)
          ((fun p => WalletRow.entity (fst p) (snd p)) <$>
             (filter (fun p => WalletRow.userId (snd p) = userId ∧
                               WalletRow.isActive (snd p) = true)
                     (map_to_list (wallets s))))),
     s).

Definition getWalletsByUserId (createdAt : string → Z) (userId : string)
    : Promise (list Wallet.t) :=
  wallet_findMany_by_user createdAt userId.

(** At most one wallet per user: the unique index on [userId]. *)
Definition unique_users (ws : gmap string WalletRow.t) : Prop :=
  ∀ id1 r1, ws !! id1 = Some r1 →
  ∀ id2 r2, ws !! id2 = Some r2 →
    WalletRow.userId r1 = WalletRow.userId r2 → id1 = id2.

(** Operations during which no other worker writes to the wallets. *)
Definition unaccompanied (op : Operation) : Prop :=
  match op with
  | OpHandle _ env => undisturbed env
  | _ => True
  end.

(** The ways an operation can change the row of the wallet [id]: not at all,
    by deactivating it, by one committed settlement write, or by creating it
    for a user who had no wallet. *)
Inductive row_change (op : Operation) (before : gmap string WalletRow.t) (id : string)
    : option WalletRow.t → Prop :=
| row_same : row_change op before id (before !! id)
| row_deactivated r :
    op = OpDeactivateWallet id →
    before !! id = Some r →
    row_change op before id (Some (deactivated r))
| row_bumped job env r u :
    op = OpHandle job env →
    before !! id = Some r →
    u = increment (job_amount job) ∨ u = decrement (job_amount job) →
    row_change op before id (Some (bump u r))
| row_created dto :
    op = OpCreateWallet id dto →
    before !! id = None →
    (∀ id' r, before !! id' = Some r → WalletRow.userId r ≠ CreateWalletDto.userId dto) →
    row_change op before id
      (Some (WalletRow.mk (CreateWalletDto.userId dto)
                          (rounded (default 0%Q (CreateWalletDto.initialBalance dto))) true 0)).

(** ** Settlement as a function of the wallets table *)

(** The wallets a job writes to. *)
Definition job_wallets (job : Job) : list string :=
  match job with
  | JobDeposit data | JobWithdrawal data => [SingleJob.walletId data]
  | JobTransfer data => [TransferJob.sourceWalletId data; TransferJob.destinationWalletId data]
  end.

(** The checks a settlement transaction makes on the rows it reads: the
    wallets exist, the debited one holds the amount, every new balance is in
    the column's range, and (for the second update of a transfer to find the
    version it read) the two wallets are different. *)
Definition covered (job : Job) (ws : gmap string WalletRow.t) : Prop :=
  match job with
  | JobDeposit data =>
      match ws !! SingleJob.walletId data with
      | Some r =>
          in_range (WalletRow.balance (bump (increment (SingleJob.amount data)) r)) = true
      | None => False
      end
  | JobWithdrawal data =>
      match ws !! SingleJob.walletId data with
      | Some r =>
          short (WalletRow.balance r) (SingleJob.amount data) = false ∧
          in_range (WalletRow.balance (bump (decrement (SingleJob.amount data)) r)) = true
      | None => False
      end
  | JobTransfer data =>
      TransferJob.sourceWalletId data ≠ TransferJob.destinationWalletId data ∧
      match ws !! TransferJob.sourceWalletId data, ws !! TransferJob.destinationWalletId data with
      | Some rs, Some rd =>
          short (WalletRow.balance rs) (TransferJob.amount data) = false ∧
          in_range (WalletRow.balance (bump (decrement (TransferJob.amount data)) rs)) = true ∧
          in_range (WalletRow.balance (bump (increment (TransferJob.amount data)) rd)) = true
      | _, _ => False
      end
  end.

(** The wallets table after the updates of a job. *)
Definition settle (job : Job) (ws : gmap string WalletRow.t) : gmap string WalletRow.t :=
  match job with
  | JobDeposit data =>
      alter (bump (increment (SingleJob.amount data))) (SingleJob.walletId data) ws
  | JobWithdrawal data =>
      alter (bump (decrement (SingleJob.amount data))) (SingleJob.walletId data) ws
  | JobTransfer data =>
      alter (bump (increment (TransferJob.amount data))) (TransferJob.destinationWalletId data)
        (alter (bump (decrement (TransferJob.amount data))) (TransferJob.sourceWalletId data) ws)
  end.

(** The cache holds the stored balance of every wallet of the job. *)
Definition cache_fresh (job : Job) (s : World) : Prop :=
  ∀ id, id ∈ job_wallets job →
    redis s !! balance_key id =
    (fun r => Decimal.of_units (WalletRow.balance r)) <$> wallets s !! id.

(** The attempt of the retry loop that meets no failure of the store, if the
    loop gets that far: [remaining] attempts are left from attempt [i] on. *)
Fixpoint commit_attempt (env : nat → Attempt) (remaining i : nat) : option nat :=
  match remaining with
  | O => None
  | S n =>
      match fault (env i) with
      | None => Some i
      | Some (_, e) => if retryable e then commit_attempt env n (S i) else None
      end
  end.

(** ** Funds *)

(** The sum of all stored balances, and what an operation adds to it: the
    initial balance of a wallet it creates, the amount of a deposit it
    settles, minus the amount of a withdrawal it settles, each as the column
    holds it. *)
Definition total_balance (ws : gmap string WalletRow.t) : Z :=
  map_fold (fun _ r acc => WalletRow.balance r + acc) 0 ws.

Definition job_net (job : Job) : Z :=
  match job with
  | JobDeposit data => rounded (SingleJob.amount data)
  | JobWithdrawal data => - rounded (SingleJob.amount data)
  | JobTransfer _ => 0
  end.

Definition inflow (op : Operation) (s : World) : Z :=
  match op with
  | OpCreateWallet cuid dto =>
      match outcome (createWallet cuid dto s) with
      | Resolved _ => rounded (default 0%Q (CreateWalletDto.initialBalance dto))
      | Rejected _ => 0
      end
  | OpHandle job env =>
      match outcome (handle job env s) with
      | Resolved _ => job_net job
      | Rejected _ => 0
      end
  | _ => 0
  end.

(** Operations that settle an amount which is a whole number of units. *)
Definition in_units (op : Operation) : Prop :=
  match op with
  | OpHandle job _ => at_scale (job_amount job)
  | _ => True
  end.

(** ** PrismaService.updateWithOptimisticLock

    The helper takes any model delegate; it is instantiated here with
    [prisma.wallet], [where = { id }] and a [data] that sets columns of the
    wallet row to values the columns hold. A [version] in [data] is
    overridden by the helper. *)
Module WalletData.
Record t := mk {
  balance : option Z;
  isActive : option bool;
  version : option Z
}.
End WalletData.

(** The row after [data]: the columns it names are set. *)
Definition set_columns (data : WalletData.t) (r : WalletRow.t) : WalletRow.t :=
  WalletRow.mk (WalletRow.userId r)
               (default (WalletRow.balance r) (WalletData.balance data))
               (default (WalletRow.isActive r) (WalletData.isActive data))
               (default (WalletRow.version r) (WalletData.version data)).

(** [prisma.wallet.updateMany({ where: { id, version }, data })], resolving to
    the [count] of rows updated. *)
Definition wallet_updateMany (id : string) (version : Z) (data : WalletData.t) : Promise nat :=
  fun s =>
    match wallets s !! id with
    | Some r =>
        if bool_decide (WalletRow.version r = version)
        then (Resolved 1%nat, set_wallets (insert id (set_columns data r)) s)
        else (Resolved 0%nat, s)
    | None => (Resolved 0%nat, s)
    end.

(** [prisma.wallet.findUnique({ where: { id } })] *)
Definition wallet_findUnique (id : string) : Promise (option Wallet.t) :=
  fun s => (Resolved (WalletRow.entity id <$> wallets s !! id), s).

Definition updateWithOptimisticLock (where_id : string) (data : WalletData.t)
    (currentVersion : Z) : Promise (option Wallet.t) :=
  await result <-
    wallet_updateMany where_id currentVersion
      (WalletData.mk (WalletData.balance data) (WalletData.isActive data)
                     (Some (currentVersion + 1)));
  if (result =? 0)%nat
  then throw (PlainError "Optimistic lock failed - record was modified by another transaction")
  else wallet_findUnique where_id.

(** ** Ledger and queue: what holds in every world the operations reach *)

(** No two ledger rows have the same [transactionId]. *)
Definition ledger_ids_unique (s : World) : Prop :=
  NoDup (Transaction.transactionId <$> transactions s).

(** Every job in the queue has a ledger row under its key, for its amount as
    the column holds it. *)
Definition queue_backed (s : World) : Prop :=
  Forall (fun job =>
            Exists (fun row => matches (job_key job) row = true ∧
                               Transaction.amount row = rounded (job_amount job))
                   (transactions s))
         (queue s).

(** Every ledger row refers to wallets that exist. *)
Definition ledger_refers_to_wallets (s : World) : Prop :=
  Forall (fun row =>
            is_Some (wallets s !! Transaction.walletId row) ∧
            from_option (fun d => is_Some (wallets s !! d)) True
                        (Transaction.destinationWalletId row))
         (transactions s).

#[global] Instance ledger_refers_to_wallets_dec s : Decision (ledger_refers_to_wallets s).
Proof.
  unfold ledger_refers_to_wallets. apply Forall_dec. intros row.
  destruct (Transaction.destinationWalletId row); cbn; apply _.
Defined.

(** What a row written by a request satisfies, in the world [s] of the
    request and for the job enqueued with it. *)
Definition written_for (s : World) (job : Job) (row : Transaction.t) : Prop :=
  row_of (Transaction.transactionId row) s = None ∧
  is_Some (wallets s !! Transaction.walletId row) ∧
  from_option (fun d => is_Some (wallets s !! d)) True (Transaction.destinationWalletId row) ∧
  matches (job_key job) row = true ∧
  Transaction.amount row = rounded (job_amount job).

(** ** Cache and store *)

(** Every cached balance is the stored balance of an existing wallet. *)
Definition cache_coherent (s : World) : Prop :=
  ∀ id b, redis s !! balance_key id = Some b →
    ∃ r, wallets s !! id = Some r ∧ b = Decimal.of_units (WalletRow.balance r).

(** A delivery whose first attempt meets no failure of the store and no write
    of another worker; a wallet created with an initial balance that is a
    whole number of units. *)
Definition cache_safe (op : Operation) : Prop :=
  match op with
  | OpHandle _ env => fault (env 0%nat) = None ∧ ∀ ws, concurrent (env 0%nat) ws = ws
  | OpCreateWallet _ dto => at_scale (default 0%Q (CreateWalletDto.initialBalance dto))
  | _ => True
  end.

(** ** ApiKeyGuard

    The guard reads the request header [wallet-api-key] (absent, or its
    value) and the [apiKey] entry of the configuration, which is
    [process.env.API_KEY || '6pfrn00011248xivxkz0t']. *)

Inductive HttpException := mkHttpException (message : string) (status : Z).

Definition http_status (e : HttpException) : Z :=
  match e with mkHttpException _ status => status end.

Definition BAD_REQUEST : Z := 400.

Definition config_apiKey (API_KEY : option string) : string :=
  match API_KEY with
  | Some key => if bool_decide (key = "") then "6pfrn00011248xivxkz0t" else key
  | None => "6pfrn00011248xivxkz0t"
  end.

(** [canActivate]: the value it returns, or the exception it throws. *)
Definition canActivate (API_KEY : option string) (header : option string)
    : HttpException + bool :=
  match header with
  | None => inl (mkHttpException "API key is missing" BAD_REQUEST)
  | Some apiKey =>
      if bool_decide (apiKey = "")
      then inl (mkHttpException "API key is missing" BAD_REQUEST)
      else
        let validApiKey := config_apiKey API_KEY in
        if bool_decide (apiKey ≠ validApiKey)
        then inl (mkHttpException "Invalid API key" BAD_REQUEST)
        else inr true
  end.

(** ** Further scenarios *)

(** The store loses the connection when the first attempt commits. *)
Definition env_disconnect : nat → Attempt :=
  fun _ => mkAttempt (fun ws => ws) (Some (AtCommit, PrismaError "P1017" [])).

(** The deposit into "b" is settled after "b" was deactivated: "b" is
    deactivated, holds 50, and the cache holds 50 for it. *)
Definition world_b_credited_after_deactivation : World :=
  step (OpHandle (JobDeposit job_deposit_b) calm) world_b_deactivated_with_pending_deposit.

(** * Properties *)

(** ** Rounding to the column's scale *)

Lemma rounded_units (z : Z) : rounded (Decimal.of_units z) = z.
Proof.
  unfold rounded, Decimal.of_units.
  destruct (Qle_bool 0 (inject_Z z)) eqn:E.
  - assert (H1 : (inject_Z z <= inject_Z z + (1 # 2))%Q) by lra.
    assert (H2 : (inject_Z z + (1 # 2) < inject_Z (z + 1))%Q)
      by (rewrite inject_Z_plus; change (inject_Z 1) with 1%Q; lra).
    apply Qfloor_resp_le in H1. rewrite Qfloor_Z in H1.
    pose proof (Qfloor_le (inject_Z z + (1 # 2))) as H3.
    assert (H4 : (inject_Z (Qfloor (inject_Z z + (1 # 2))) < inject_Z (z + 1))%Q) by lra.
    rewrite <- Zlt_Qlt in H4. lia.
  - assert (H1 : (inject_Z (- z) <= - inject_Z z + (1 # 2))%Q)
      by (rewrite inject_Z_opp; lra).
    assert (H2 : (- inject_Z z + (1 # 2) < inject_Z (- z + 1))%Q)
      by (rewrite inject_Z_plus, inject_Z_opp; change (inject_Z 1) with 1%Q; lra).
    apply Qfloor_resp_le in H1. rewrite Qfloor_Z in H1.
    pose proof (Qfloor_le (- inject_Z z + (1 # 2))) as H3.
    assert (H4 : (inject_Z (Qfloor (- inject_Z z + (1 # 2))) < inject_Z (- z + 1))%Q) by lra.
    rewrite <- Zlt_Qlt in H4. lia.
Qed.

Lemma rounded_nonneg (q : Decimal.t) : (0 <= q)%Q → 0 ≤ rounded q.
Proof.
  intros H. unfold rounded. apply Qle_bool_iff in H as H'. rewrite H'.
  assert (H1 : (inject_Z 0 <= q + (1 # 2))%Q) by (change (inject_Z 0) with 0%Q; lra).
  apply Qfloor_resp_le in H1. rewrite Qfloor_Z in H1. exact H1.
Qed.

Lemma rounded_Qeq (a b : Decimal.t) : (a == b)%Q → rounded a = rounded b.
Proof.
  intros H. unfold rounded.
  assert (E : Qle_bool 0 a = Qle_bool 0 b).
  { destruct (Qle_bool 0 a) eqn:Ea, (Qle_bool 0 b) eqn:Eb; try reflexivity.
    - apply Qle_bool_iff in Ea. rewrite H in Ea. apply Qle_bool_iff in Ea. congruence.
    - apply Qle_bool_iff in Eb. rewrite <- H in Eb. apply Qle_bool_iff in Eb. congruence. }
  rewrite E. destruct (Qle_bool 0 b).
  - apply Qfloor_comp. rewrite H. reflexivity.
  - f_equal. apply Qfloor_comp. rewrite H. reflexivity.
Qed.

Lemma rounded_add_units (b a : Z) :
  rounded (Decimal.of_units b + Decimal.of_units a)%Q = b + a.
Proof.
  rewrite <- (rounded_units (b + a)). apply rounded_Qeq.
  unfold Decimal.of_units. rewrite inject_Z_plus. reflexivity.
Qed.

Lemma rounded_sub_units (b a : Z) :
  rounded (Decimal.of_units b - Decimal.of_units a)%Q = b - a.
Proof.
  rewrite <- (rounded_units (b - a)). apply rounded_Qeq.
  unfold Decimal.of_units, Z.sub. rewrite inject_Z_plus, inject_Z_opp. reflexivity.
Qed.

Lemma lt_spec (a b : Decimal.t) : Decimal.lt a b = true ↔ (a < b)%Q.
Proof.
  unfold Decimal.lt. rewrite negb_true_iff.
  destruct (Qle_bool b a) eqn:E.
  - apply Qle_bool_iff in E. split; [discriminate | intros H; exfalso; lra].
  - split; [intros _ | reflexivity].
    destruct (Qlt_le_dec a b) as [H|H]; [exact H|].
    apply Qle_bool_iff in H. congruence.
Qed.

Lemma lt_false (a b : Decimal.t) : Decimal.lt a b = false ↔ (b <= a)%Q.
Proof.
  unfold Decimal.lt. rewrite negb_false_iff. apply Qle_bool_iff.
Qed.

Lemma short_units (b a : Z) : short b (Decimal.of_units a) = (b <? a).
Proof.
  unfold short, Decimal.of_units.
  destruct (b <? a) eqn:E.
  - apply lt_spec. apply Z.ltb_lt in E. rewrite <- Zlt_Qlt. exact E.
  - apply lt_false. apply Z.ltb_ge in E. rewrite <- Zle_Qle. exact E.
Qed.

Lemma at_scale_units (z : Z) : at_scale (Decimal.of_units z).
Proof. unfold at_scale. now rewrite rounded_units. Qed.

(** No update the callbacks make takes a non-negative balance below zero. *)
Lemma apply_update_nonneg (u : BalanceUpdate) (amount : Decimal.t) (balance : Z) :
  0 ≤ balance → (0 <= amount)%Q →
  u = increment amount ∨ (u = decrement amount ∧ short balance amount = false) →
  0 ≤ apply_update u balance.
Proof.
  intros Hb Ha [->|[-> Hs]]; cbn [apply_update]; apply rounded_nonneg.
  - assert (0 <= Decimal.of_units balance)%Q.
    { unfold Decimal.of_units. change 0%Q with (inject_Z 0). now rewrite <- Zle_Qle. }
    lra.
  - apply lt_false in Hs. lra.
Qed.

(** ** Basic facts about promises *)

Lemma bind_resolved {A B} (m : Promise A) (k : A → Promise B) s a s' :
  m s = (Resolved a, s') → bind m k s = k a s'.
Proof. intros H. unfold bind. now rewrite H. Qed.

Lemma bind_rejected {A B} (m : Promise A) (k : A → Promise B) s e s' :
  m s = (Rejected e, s') → bind m k s = (Rejected e, s').
Proof. intros H. unfold bind. now rewrite H. Qed.

Lemma getWallet_active walletId s r :
  wallets s !! walletId = Some r → WalletRow.isActive r = true →
  getWallet walletId s = (Resolved (WalletRow.entity walletId r), s).
Proof.
  intros Hr Ha. unfold getWallet, bind, wallet_findFirst_active.
  rewrite Hr, Ha. reflexivity.
Qed.

Lemma getWallet_inactive walletId s r :
  wallets s !! walletId = Some r → WalletRow.isActive r = false →
  getWallet walletId s = (Rejected (NotFoundException "Wallet not found"), s).
Proof.
  intros Hr Ha. unfold getWallet, bind, wallet_findFirst_active.
  rewrite Hr, Ha. reflexivity.
Qed.

Lemma getWallet_absent walletId s :
  wallets s !! walletId = None →
  getWallet walletId s = (Rejected (NotFoundException "Wallet not found"), s).
Proof.
  intros Hr. unfold getWallet, bind, wallet_findFirst_active.
  rewrite Hr. reflexivity.
Qed.

(** [getWallet] either resolves, for an active row, or is rejected with the
    one not-found error; it never changes the world. *)
Lemma getWallet_cases walletId s :
  (∃ r, wallets s !! walletId = Some r ∧ WalletRow.isActive r = true ∧
        getWallet walletId s = (Resolved (WalletRow.entity walletId r), s)) ∨
  ((∀ r, wallets s !! walletId = Some r → WalletRow.isActive r = false) ∧
   getWallet walletId s = (Rejected (NotFoundException "Wallet not found"), s)).
Proof.
  destruct (wallets s !! walletId) as [r|] eqn:Hr.
  - destruct (WalletRow.isActive r) eqn:Ha.
    + left. exists r. split; [reflexivity|]. split; [assumption|].
      now apply getWallet_active.
    + right. split.
      * intros r' Hr'. congruence.
      * now apply getWallet_inactive with r.
  - right. split; [intros r' Hr'; discriminate|]. now apply getWallet_absent.
Qed.

(** ** Idempotent replay on the request side *)

(** C2: a deposit or withdrawal request whose transactionId matches an
    existing ledger row, and a transfer request whose referenceId matches at
    least one existing row, resolves to the existing row(s) and leaves the
    whole world (ledger, queue, wallets, cache) as it was. *)
Theorem replay_returns_existing_without_effects :
  (∀ uuidv4 enqueue dto s existing,
     row_of (default uuidv4 (DepositFundsDto.transactionId dto)) s = Some existing →
     depositFunds uuidv4 enqueue dto s = (Resolved existing, s)) ∧
  (∀ uuidv4 enqueue dto s existing,
     row_of (default uuidv4 (WithdrawFundsDto.transactionId dto)) s = Some existing →
     withdrawFunds uuidv4 enqueue dto s = (Resolved existing, s)) ∧
  (∀ uuid_out uuid_in enqueue dto s,
     rows_of_reference (TransferFundsDto.referenceId dto) s ≠ [] →
     transferFunds uuid_out uuid_in enqueue dto s =
       (Resolved (rows_of_reference (TransferFundsDto.referenceId dto) s), s)).
Proof.
  split; [|split].
  - intros uuidv4 enqueue dto s existing H.
    unfold depositFunds, bind, transaction_findUnique. unfold row_of in H.
    rewrite H. reflexivity.
  - intros uuidv4 enqueue dto s existing H.
    unfold withdrawFunds, bind, transaction_findUnique. unfold row_of in H.
    rewrite H. reflexivity.
  - intros uuid_out uuid_in enqueue dto s H.
    unfold transferFunds, bind, transaction_findMany. unfold rows_of_reference in H |- *.
    destruct (List.filter _ (transactions s)) as [|x l] eqn:E; [congruence|].
    reflexivity.
Qed.

Lemma replay_returns_existing_without_effects_witness :
  depositFunds "g5" None deposit_a world_transfer_requested =
    (Resolved (Transaction.mk "t1" None "a" None 50 DEPOSIT COMPLETED None),
     world_transfer_requested) ∧
  withdrawFunds "g6" None withdraw_a world_transfer_requested =
    (Resolved (Transaction.mk "t2" None "a" None 30 WITHDRAWAL PENDING None),
     world_transfer_requested) ∧
  transferFunds "g7" "g8" None transfer_a_b world_transfer_requested =
    (Resolved (rows_of_reference "r1" world_transfer_requested), world_transfer_requested).
Proof.
  destruct replay_returns_existing_without_effects as (Hd & Hw & Ht).
  split; [|split].
  - apply Hd. vm_compute. reflexivity.
  - apply Hw. vm_compute. reflexivity.
  - apply (Ht "g7" "g8" None transfer_a_b world_transfer_requested). vm_compute. discriminate.
Defined.

(** ** Deactivated wallets at the read interface *)

(** C10: for a wallet whose row has isActive = false, getWallet, and with it
    getWalletBalance on a cache miss and the wallet validation of depositFunds
    and transferFunds (past the replay check), is rejected with
    NotFoundException('Wallet not found'), exactly as it is in the world where
    the row does not exist at all. *)
Theorem deactivated_wallet_reads_as_absent (walletId : string) (s : World) (r : WalletRow.t) :
  wallets s !! walletId = Some r →
  WalletRow.isActive r = false →
  let gone := set_wallets (delete walletId) s in
  let notFound := NotFoundException "Wallet not found" in
  (outcome (getWallet walletId s) = Rejected notFound ∧
   outcome (getWallet walletId gone) = Rejected notFound) ∧
  (redis s !! balance_key walletId = None →
   outcome (getWalletBalance walletId s) = Rejected notFound ∧
   outcome (getWalletBalance walletId gone) = Rejected notFound) ∧
  (∀ uuidv4 enqueue dto,
     DepositFundsDto.walletId dto = walletId →
     row_of (default uuidv4 (DepositFundsDto.transactionId dto)) s = None →
     outcome (depositFunds uuidv4 enqueue dto s) = Rejected notFound ∧
     outcome (depositFunds uuidv4 enqueue dto gone) = Rejected notFound) ∧
  (∀ uuid_out uuid_in enqueue dto,
     TransferFundsDto.sourceWalletId dto = walletId ∨
     TransferFundsDto.destinationWalletId dto = walletId →
     rows_of_reference (TransferFundsDto.referenceId dto) s = [] →
     outcome (transferFunds uuid_out uuid_in enqueue dto s) = Rejected notFound ∧
     outcome (transferFunds uuid_out uuid_in enqueue dto gone) = Rejected notFound).
Proof.
  intros Hr Ha gone notFound.
  assert (Hgone : wallets gone !! walletId = None) by apply lookup_delete_eq.
  assert (Ht : transactions gone = transactions s) by reflexivity.
  assert (Hc : redis gone = redis s) by reflexivity.
  clearbody gone.
  assert (G1 : getWallet walletId s = (Rejected notFound, s))
    by (eapply getWallet_inactive; eassumption).
  assert (G2 : getWallet walletId gone = (Rejected notFound, gone))
    by (apply getWallet_absent; assumption).
  split; [|split; [|split]].
  - rewrite G1, G2. split; reflexivity.
  - intros Hmiss.
    unfold getWalletBalance, bind, redis_get. rewrite Hc, Hmiss.
    rewrite G1, G2. split; reflexivity.
  - intros uuidv4 enqueue dto Hw Hnone.
    unfold depositFunds, bind, transaction_findUnique. unfold row_of in Hnone.
    rewrite Ht, Hnone, Hw, G1, G2. split; reflexivity.
  - intros uuid_out uuid_in enqueue dto Hside Hnone.
    unfold transferFunds, bind, transaction_findMany. unfold rows_of_reference in Hnone.
    rewrite Ht, Hnone. simpl.
    destruct (decide (TransferFundsDto.sourceWalletId dto = walletId)) as [Hs|Hs].
    + rewrite Hs, G1, G2. split; reflexivity.
    + destruct Hside as [Hside|Hd]; [contradiction|].
      rewrite Hd.
      destruct (getWallet_cases (TransferFundsDto.sourceWalletId dto) s)
        as [(r1 & _ & _ & E1)|(_ & E1)];
      destruct (getWallet_cases (TransferFundsDto.sourceWalletId dto) gone)
        as [(r2 & _ & _ & E2)|(_ & E2)];
      rewrite E1, E2, ?G1, ?G2; split; reflexivity.
Qed.

Lemma deactivated_wallet_reads_as_absent_witness :
  outcome (getWallet "b" world_b_deactivated) = Rejected (NotFoundException "Wallet not found") ∧
  outcome (getWalletBalance "b" world_b_deactivated) =
    Rejected (NotFoundException "Wallet not found") ∧
  outcome (depositFunds "g1" None (DepositFundsDto.mk "b" 5 None None) world_b_deactivated) =
    Rejected (NotFoundException "Wallet not found") ∧
  outcome (transferFunds "g1" "g2" None (TransferFundsDto.mk "a" "b" 5 None "r9")
             world_b_deactivated) =
    Rejected (NotFoundException "Wallet not found").
Proof.
  destruct (deactivated_wallet_reads_as_absent "b" world_b_deactivated
              (WalletRow.mk "u2" 0 false 0))
    as ((H1 & _) & H2 & H3 & H4).
  - vm_compute. reflexivity.
  - reflexivity.
  - split; [exact H1|]. split; [apply H2; vm_compute; reflexivity|].
    split.
    + apply (H3 "g1" None (DepositFundsDto.mk "b" 5 None None)); vm_compute; reflexivity.
    + apply (H4 "g1" "g2" None (TransferFundsDto.mk "a" "b" 5 None "r9")).
      * right. reflexivity.
      * vm_compute. reflexivity.
Defined.

(** ** The balance read path *)

Lemma getWalletBalance_spec walletId s :
  match seen_balance walletId s with
  | Some b =>
      getWalletBalance walletId s =
        (Resolved b,
         match redis s !! balance_key walletId with
         | Some _ => s
         | None => set_redis (insert (balance_key walletId) b) s
         end)
  | None => getWalletBalance walletId s = (Rejected (NotFoundException "Wallet not found"), s)
  end.
Proof.
  unfold seen_balance, getWalletBalance, bind, redis_get.
  destruct (redis s !! balance_key walletId) as [c|] eqn:Hc.
  - reflexivity.
  - destruct (wallets s !! walletId) as [r|] eqn:Hr.
    + destruct (WalletRow.isActive r) eqn:Ha.
      * rewrite (getWallet_active _ _ _ Hr Ha). reflexivity.
      * rewrite (getWallet_inactive _ _ _ Hr Ha). reflexivity.
    + rewrite (getWallet_absent _ _ Hr). reflexivity.
Qed.

(** The read path touches nothing but the cache. *)
Lemma getWalletBalance_frame walletId s :
  let s' := final (getWalletBalance walletId s) in
  wallets s' = wallets s ∧ transactions s' = transactions s ∧
  queue s' = queue s ∧ trace s' = trace s.
Proof.
  pose proof (getWalletBalance_spec walletId s) as H.
  destruct (seen_balance walletId s); rewrite H; simpl.
  - destruct (redis s !! balance_key walletId); simpl; repeat split.
  - repeat split.
Qed.

(** ** Ledger entry creation *)

Lemma transaction_create_cases data s :
  transaction_create data s =
    (Resolved (TransactionData.row data),
     set_transactions (fun l => l ++ [TransactionData.row data]) s) ∨
  ∃ e, transaction_create data s = (Rejected e, s).
Proof.
  unfold transaction_create.
  destruct (negb _); [right; eauto|].
  destruct (existsb _ _); [right; eauto|].
  destruct (wallets s !! Transaction.walletId _); [|right; eauto].
  destruct (Transaction.destinationWalletId _) as [d|]; [|left; reflexivity].
  destruct (wallets s !! d); [left; reflexivity|right; eauto].
Qed.

(** The two rows of a transfer are written by one batch: both or none. *)
Lemma transfer_batch_cases (a b : TransactionData.t) s :
  (batch_transaction [transaction_create a; transaction_create b] s =
     (Resolved [TransactionData.row a; TransactionData.row b],
      set_transactions (fun l => l ++ [TransactionData.row a; TransactionData.row b]) s)) ∨
  ∃ e s', batch_transaction [transaction_create a; transaction_create b] s = (Rejected e, s') ∧
          transactions s' = transactions s ∧ wallets s' = wallets s ∧
          queue s' = queue s.
Proof.
  unfold batch_transaction, run_batch, bind, resolve.
  destruct (transaction_create_cases a s) as [Ea|(e & Ea)]; rewrite Ea.
  - destruct (transaction_create_cases b
                (set_transactions (fun l => l ++ [TransactionData.row a]) s))
      as [Eb|(e & Eb)]; rewrite Eb.
    + left. unfold set_transactions. simpl. rewrite <- app_assoc. reflexivity.
    + right. eexists _, _. split; [reflexivity|]. simpl. repeat split.
  - right. eexists _, _. split; [reflexivity|]. simpl. repeat split.
Qed.

Lemma find_none_existsb {A} (f : A → bool) (l : list A) :
  List.find f l = None → existsb f l = false.
Proof.
  induction l as [|x l IH]; simpl; [reflexivity|].
  destruct (f x); [discriminate|]. exact IH.
Qed.

Lemma transaction_create_fresh data s :
  in_range (rounded (TransactionData.amount data)) = true →
  row_of (TransactionData.transactionId data) s = None →
  is_Some (wallets s !! TransactionData.walletId data) →
  (∀ d, TransactionData.destinationWalletId data = Some d → is_Some (wallets s !! d)) →
  transaction_create data s =
    (Resolved (TransactionData.row data),
     set_transactions (fun l => l ++ [TransactionData.row data]) s).
Proof.
  intros Hr Hfresh [w Hw] Hd. unfold transaction_create.
  cbn [TransactionData.row Transaction.amount Transaction.transactionId Transaction.walletId
       Transaction.destinationWalletId].
  rewrite Hr. cbn [negb].
  rewrite (find_none_existsb _ _ Hfresh), Hw.
  destruct (TransactionData.destinationWalletId data) as [d|]; [|reflexivity].
  destruct (Hd d eq_refl) as [w' Hw']. rewrite Hw'. reflexivity.
Qed.

(** Out of the column's range, nothing is written. *)
Lemma transaction_create_out_of_range data s :
  in_range (rounded (TransactionData.amount data)) = false →
  transaction_create data s = (Rejected (PrismaError "P2020" []), s).
Proof.
  intros Hr. unfold transaction_create.
  cbn [TransactionData.row Transaction.amount]. rewrite Hr. reflexivity.
Qed.

Lemma find_append {A} (f : A → bool) (l1 l2 : list A) :
  List.find f (l1 ++ l2) =
    match List.find f l1 with
    | Some x => Some x
    | None => List.find f l2
    end.
Proof.
  induction l1 as [|x l1 IH]; simpl; [reflexivity|].
  destruct (f x); [reflexivity|exact IH].
Qed.

Lemma row_of_snoc_ne tid data s s' :
  transactions s' = transactions s ++ [data] →
  Transaction.transactionId data ≠ tid →
  row_of tid s = None → row_of tid s' = None.
Proof.
  unfold row_of. intros -> Hne Hnone.
  rewrite find_append, Hnone. simpl.
  rewrite bool_decide_eq_false_2 by assumption. reflexivity.
Qed.

(** The ledger after [transferFunds]: unchanged, or extended by the pair; in
    the second case the call resolves to the pair when the queue takes the
    job and is rejected with the queue's error when it does not. *)
Lemma transferFunds_ledger (uuid_out uuid_in : string) (enqueue : option Exception)
    (dto : TransferFundsDto.t) (s : World) :
  let source := TransferFundsDto.sourceWalletId dto in
  let destination := TransferFundsDto.destinationWalletId dto in
  let amount := TransferFundsDto.amount dto in
  let reference := TransferFundsDto.referenceId dto in
  let out_row :=
    Transaction.mk uuid_out (Some reference) source (Some destination) (rounded amount)
                   TRANSFER_OUT PENDING (TransferFundsDto.description dto) in
  let in_row :=
    Transaction.mk uuid_in (Some reference) destination (Some source) (rounded amount)
                   TRANSFER_IN PENDING (TransferFundsDto.description dto) in
  let job :=
    JobTransfer (TransferJob.mk source destination amount
                                (TransferFundsDto.description dto) reference) in
  let result := transferFunds uuid_out uuid_in enqueue dto s in
  (transactions (final result) = transactions s ∧ queue (final result) = queue s ∧
   (rows_of_reference reference s = [] → ∃ e, outcome result = Rejected e)) ∨
  (rows_of_reference reference s = [] ∧
   transactions (final result) = transactions s ++ [out_row; in_row] ∧
   match enqueue with
   | None => outcome result = Resolved [out_row; in_row] ∧ queue (final result) = queue s ++ [job]
   | Some error => outcome result = Rejected error ∧ queue (final result) = queue s
   end).
Proof.
  intros source destination amount reference out_row in_row job result. subst result.
  unfold transferFunds, bind, transaction_findMany, rows_of_reference.
  fold source destination amount reference.
  destruct (List.filter _ (transactions s)) as [|x l] eqn:EF;
    [|left; cbn; repeat split; intros; discriminate].
  cbn [length Nat.ltb Nat.leb].
  destruct (getWallet_cases source s) as [(r1 & _ & _ & E1)|(_ & E1)]; rewrite E1;
    [|left; cbn; eauto].
  destruct (getWallet_cases destination s) as [(r2 & _ & _ & E2)|(_ & E2)]; rewrite E2;
    [|left; cbn; eauto].
  pose proof (getWalletBalance_frame source s) as (Fw & Ft & Fq & _).
  destruct (getWalletBalance source s) as [[b|e] s1] eqn:EB; simpl in Ft, Fw, Fq;
    [|left; cbn; eauto].
  destruct (Decimal.lt b amount); [left; cbn; eauto|].
  match goal with
  | |- context [batch_transaction [transaction_create ?a; transaction_create ?b]] =>
      destruct (transfer_batch_cases a b s1) as [Eb|(e & s2 & Eb & Ht2 & _ & Hq2)]; rewrite Eb
  end.
  - right. split; [reflexivity|]. unfold queue_add, modify, throw, resolve.
    destruct enqueue; cbn; rewrite Ft, Fq; repeat split; reflexivity.
  - left. cbn. rewrite Ht2, Hq2. eauto.
Qed.

(** C7: creating a transfer writes its two PENDING rows in one atomic batch:
    a TRANSFER_OUT row on the source and a TRANSFER_IN row on the destination,
    with the same referenceId, each naming the other wallet and holding the
    amount as the column stores it. Whatever the outcome of the call, and
    whether or not the queue takes the job, the ledger afterwards is either
    unchanged or extended by exactly this pair. A call that resolves on a
    reference the ledger does not hold has written the pair and returns it.
    A fresh, valid, funded request for an amount within the column's range
    writes the pair; it then resolves to the pair and enqueues one transfer
    job when the queue takes the job, and is rejected with the queue's
    error, the pair staying in the ledger, when it does not. *)
Theorem transfer_creates_both_rows_or_none
    (uuid_out uuid_in : string) (enqueue : option Exception) (dto : TransferFundsDto.t)
    (s : World) :
  let source := TransferFundsDto.sourceWalletId dto in
  let destination := TransferFundsDto.destinationWalletId dto in
  let amount := TransferFundsDto.amount dto in
  let reference := TransferFundsDto.referenceId dto in
  let out_row :=
    Transaction.mk uuid_out (Some reference) source (Some destination) (rounded amount)
                   TRANSFER_OUT PENDING (TransferFundsDto.description dto) in
  let in_row :=
    Transaction.mk uuid_in (Some reference) destination (Some source) (rounded amount)
                   TRANSFER_IN PENDING (TransferFundsDto.description dto) in
  let job :=
    JobTransfer (TransferJob.mk source destination amount
                                (TransferFundsDto.description dto) reference) in
  let result := transferFunds uuid_out uuid_in enqueue dto s in
  (transactions (final result) = transactions s ∨
   transactions (final result) = transactions s ++ [out_row; in_row]) ∧
  (∀ rows, rows_of_reference reference s = [] → outcome result = Resolved rows →
     rows = [out_row; in_row] ∧
     transactions (final result) = transactions s ++ [out_row; in_row]) ∧
  (rows_of_reference reference s = [] →
   is_active source s → is_active destination s →
   (∃ b, seen_balance source s = Some b ∧ Decimal.lt b amount = false) →
   in_range (rounded amount) = true →
   row_of uuid_out s = None → row_of uuid_in s = None → uuid_out ≠ uuid_in →
   transactions (final result) = transactions s ++ [out_row; in_row] ∧
   match enqueue with
   | None => outcome result = Resolved [out_row; in_row] ∧ queue (final result) = queue s ++ [job]
   | Some error => outcome result = Rejected error ∧ queue (final result) = queue s
   end).
Proof.
  intros source destination amount reference out_row in_row job result.
  pose proof (transferFunds_ledger uuid_out uuid_in enqueue dto s) as L.
  cbv zeta in L. fold source destination amount reference in L.
  fold out_row in_row job result in L.
  split; [|split].
  - destruct L as [(L & _)|(_ & L & _)]; [left|right]; exact L.
  - intros rows Hnone Hres.
    destruct L as [(_ & _ & L)|(_ & L & Hq)].
    + destruct (L Hnone) as [e He]. congruence.
    + split; [|exact L]. destruct enqueue; destruct Hq as [Hq _]; congruence.
  - intros Hnone (r1 & Hr1 & Ha1) (r2 & Hr2 & Ha2) (b & Hb & Hle) Hrange Hf1 Hf2 Hne.
    clear L. subst result.
    unfold transferFunds, bind, transaction_findMany.
    unfold rows_of_reference in Hnone. fold reference. rewrite Hnone. simpl.
    fold source destination amount reference.
    rewrite (getWallet_active _ _ _ Hr1 Ha1), (getWallet_active _ _ _ Hr2 Ha2).
    pose proof (getWalletBalance_frame source s) as (Fw & Ft & Fq & _).
    pose proof (getWalletBalance_spec source s) as EB. rewrite Hb in EB.
    rewrite EB in Fw, Ft, Fq |- *. simpl in Fw, Ft, Fq.
    set (s1 := match redis s !! balance_key source with
               | Some _ => s
               | None => set_redis (insert (balance_key source) b) s
               end) in *.
    rewrite Hle.
    unfold batch_transaction, run_batch, bind, resolve.
    rewrite transaction_create_fresh.
    + rewrite transaction_create_fresh.
      * unfold queue_add, modify, throw. subst out_row in_row job.
        destruct enqueue; cbn; rewrite Ft, Fq, <- app_assoc; repeat split.
      * exact Hrange.
      * apply row_of_snoc_ne with (data := out_row) (s := s1); [reflexivity|exact Hne|].
        unfold row_of in *. rewrite Ft. exact Hf2.
      * simpl. rewrite Fw, Hr2. eauto.
      * simpl. intros d [= <-]. rewrite Fw, Hr1. eauto.
    + exact Hrange.
    + unfold row_of in *. cbn. rewrite Ft. exact Hf1.
    + simpl. rewrite Fw, Hr1. eauto.
    + simpl. intros d [= <-]. rewrite Fw, Hr2. eauto.
Qed.

Lemma transfer_creates_both_rows_or_none_witness :
  transactions (final (transferFunds "g3" "g4" None transfer_a_b world_withdrawal_requested)) =
    transactions world_withdrawal_requested ++
      [Transaction.mk "g3" (Some "r1") "a" (Some "b") 10 TRANSFER_OUT PENDING None;
       Transaction.mk "g4" (Some "r1") "b" (Some "a") 10 TRANSFER_IN PENDING None].
Proof.
  destruct (transfer_creates_both_rows_or_none "g3" "g4" None transfer_a_b
              world_withdrawal_requested)
    as (_ & _ & H).
  destruct H as (H & _).
  - vm_compute. reflexivity.
  - exists (WalletRow.mk "u1" 150 true 1). vm_compute. split; reflexivity.
  - exists (WalletRow.mk "u2" 0 true 0). vm_compute. split; reflexivity.
  - exists 150%Q. split; vm_compute; reflexivity.
  - vm_compute. reflexivity.
  - vm_compute. reflexivity.
  - vm_compute. reflexivity.
  - discriminate.
  - exact H.
Defined.

(** The second row's transactionId collides with an existing row: the batch
    is rejected and the first row is not there either. *)
Example transfer_pair_is_rolled_back_on_collision :
  outcome (transferFunds "g3" "t1" None transfer_a_b world_withdrawal_requested) =
    Rejected (PrismaError "P2002" ["transaction_id"]) ∧
  transactions (final (transferFunds "g3" "t1" None transfer_a_b world_withdrawal_requested)) =
    transactions world_withdrawal_requested ∧
  queue (final (transferFunds "g3" "t1" None transfer_a_b world_withdrawal_requested)) =
    queue world_withdrawal_requested.
Proof. vm_compute. repeat split; reflexivity. Qed.

(** The queue is down: the call is rejected, and the pair is in the ledger
    with no job behind it. *)
Example transfer_pair_stays_when_queue_is_down :
  let result :=
    transferFunds "g3" "g4" (Some (PlainError "Queue is down")) transfer_a_b
                  world_withdrawal_requested in
  outcome result = Rejected (PlainError "Queue is down") ∧
  transactions (final result) =
    transactions world_withdrawal_requested ++
      [Transaction.mk "g3" (Some "r1") "a" (Some "b") 10 TRANSFER_OUT PENDING None;
       Transaction.mk "g4" (Some "r1") "b" (Some "a") 10 TRANSFER_IN PENDING None] ∧
  queue (final result) = queue world_withdrawal_requested.
Proof. vm_compute. repeat split; reflexivity. Qed.

(** ** Store transactions: reasoning rules *)

Lemma attempts_app tr tr' : attempts (tr ++ tr') = (attempts tr + attempts tr')%nat.
Proof. unfold attempts. rewrite List.filter_app, length_app. reflexivity. Qed.

Lemma delays_app tr tr' : delays (tr ++ tr') = delays tr ++ delays tr'.
Proof. unfold delays. apply omap_app. Qed.

Lemma updates_app tr tr' : updates (tr ++ tr') = updates tr ++ updates tr'.
Proof. unfold updates. apply omap_app. Qed.

Section transaction_rules.
Context {T : Type}.
Variable fn : TxClient → Promise T.
Variable Inv : World → Prop.
Variable Post : T → World → Prop.

(** One attempt: [Inv] is what holds of the world after a rejected attempt,
    [Post] what holds after a committed one. *)
Lemma attempt_rule (a : Attempt) (s : World) :
  Inv (emit TxBegin s) →
  (∀ o s2,
     fn (mkTx (wallets s)) (set_wallets (concurrent a) (emit TxBegin s)) = (o, s2) →
     Inv (rollback (set_wallets (concurrent a) (emit TxBegin s)) s2) ∧
     ∀ v, o = Resolved v → Post v s2) →
  match interactive_transaction fn a s with
  | (Resolved v, s') => Post v s'
  | (Rejected _, s') => Inv s'
  end.
Proof.
  intros Hbegin Hfn. unfold interactive_transaction.
  destruct (fn (mkTx (wallets (emit TxBegin s)))
               (set_wallets (concurrent a) (emit TxBegin s))) as [o s2] eqn:E.
  simpl wallets in E. destruct (Hfn o s2 E) as [Hrb Hpost].
  destruct (fault a) as [[[|] e]|]; [exact Hbegin| |].
  - destruct o; exact Hrb.
  - destruct o as [v|e]; [now apply Hpost|exact Hrb].
Qed.

(** The retry loop: if [Inv] survives a rejected attempt and the delay that
    follows, it holds when the loop gives up. *)
Lemma loop_rule (env : nat → Attempt) :
  (∀ ms s, Inv s → Inv (emit (Delay ms) s)) →
  (∀ i s, Inv s →
     match interactive_transaction fn (env i) s with
     | (Resolved v, s') => Post v s'
     | (Rejected _, s') => Inv s'
     end) →
  ∀ n i lastError s, Inv s →
    match executeTransaction_loop fn env n i lastError s with
    | (Resolved v, s') => Post v s'
    | (Rejected _, s') => Inv s'
    end.
Proof.
  intros Hdelay Hattempt. induction n as [|n IH]; intros i lastError s HI.
  - exact HI.
  - simpl. unfold try_catch.
    specialize (Hattempt i s HI).
    destruct (interactive_transaction fn (env i) s) as [[v|e] s'].
    + exact Hattempt.
    + destruct (retryable e).
      * unfold bind, modify. apply IH. now apply Hdelay.
      * exact Hattempt.
Qed.
End transaction_rules.

(** ** The settlement callbacks *)

Lemma find_wallet_omap (m : gmap string WalletRow.t) (x : string) (l : list string) :
  find_wallet x (omap (fun i => WalletRow.entity i <$> m !! i) l) =
    if bool_decide (x ∈ l) then WalletRow.entity x <$> m !! x else None.
Proof.
  induction l as [|i l IH]; [reflexivity|].
  cbn [omap list_omap]. destruct (decide (i = x)) as [->|Hne].
  - rewrite bool_decide_eq_true_2 by apply list_elem_of_here.
    destruct (m !! x) as [r|] eqn:Hm; cbn [fmap option_fmap option_map].
    + unfold find_wallet. cbn [List.find WalletRow.entity Wallet.id].
      rewrite bool_decide_eq_true_2 by reflexivity. reflexivity.
    + rewrite IH. destruct (bool_decide (x ∈ l)); reflexivity.
  - assert (Hb : bool_decide (x ∈ i :: l) = bool_decide (x ∈ l)).
    { apply bool_decide_ext. rewrite elem_of_cons. intuition congruence. }
    rewrite Hb. destruct (m !! i) as [r|]; cbn [fmap option_fmap option_map].
    + unfold find_wallet in *. cbn [List.find WalletRow.entity Wallet.id].
      rewrite bool_decide_eq_false_2 by exact Hne. exact IH.
    + exact IH.
Qed.

Lemma Array_sort_pair (a b : string) :
  Array_sort [a; b] = if String.leb a b then [a; b] else [b; a].
Proof. reflexivity. Qed.

Lemma elem_of_sorted_pair (x a b : string) :
  x = a ∨ x = b → x ∈ remove_dups (Array_sort [a; b]).
Proof.
  intros H. apply elem_of_remove_dups. rewrite Array_sort_pair.
  destruct (String.leb a b); rewrite !elem_of_cons; tauto.
Qed.

(** What [processTransfer] finds for either side among the rows it read. *)
Lemma transfer_finds (m : gmap string WalletRow.t) (x a b : string) :
  x = a ∨ x = b →
  find_wallet x (omap (fun i => WalletRow.entity i <$> m !! i) (remove_dups (Array_sort [a; b]))) =
    WalletRow.entity x <$> m !! x.
Proof.
  intros H. rewrite find_wallet_omap.
  rewrite bool_decide_eq_true_2 by (apply elem_of_sorted_pair; exact H).
  reflexivity.
Qed.

Ltac world_simpl :=
  cbn [snapshot wallets transactions redis queue trace emit set_wallets set_transactions
       set_redis set_queue rollback final outcome fst snd
       fmap option_fmap option_map WalletRow.entity Wallet.version Wallet.balance Wallet.id].

Ltac by_lookup :=
  intros;
  cbn [TransferJob.sourceWalletId TransferJob.destinationWalletId TransferJob.amount
       SingleJob.walletId SingleJob.amount] in *;
  world_simpl; simplify_eq; try congruence.

Lemma tx_wallet_update_hit walletId version u s r :
  wallets s !! walletId = Some r → WalletRow.version r = version →
  in_range (WalletRow.balance (bump u r)) = true →
  tx_wallet_update walletId version u s =
    (Resolved (WalletRow.entity walletId (bump u r)),
     set_wallets (insert walletId (bump u r)) (emit (WalletUpdate walletId) s)).
Proof.
  intros Hr Hv Hf. unfold tx_wallet_update. rewrite Hr.
  rewrite bool_decide_eq_true_2 by exact Hv. rewrite Hf. reflexivity.
Qed.

Lemma tx_wallet_update_overflow walletId version u s r :
  wallets s !! walletId = Some r → WalletRow.version r = version →
  in_range (WalletRow.balance (bump u r)) = false →
  tx_wallet_update walletId version u s =
    (Rejected (PrismaError "P2020" []), emit (WalletUpdate walletId) s).
Proof.
  intros Hr Hv Hf. unfold tx_wallet_update. rewrite Hr.
  rewrite bool_decide_eq_true_2 by exact Hv. rewrite Hf. reflexivity.
Qed.

Lemma tx_wallet_update_miss walletId version u s :
  (∀ r, wallets s !! walletId = Some r → WalletRow.version r ≠ version) →
  tx_wallet_update walletId version u s =
    (Rejected (PrismaError "P2025" []), emit (WalletUpdate walletId) s).
Proof.
  intros H. unfold tx_wallet_update.
  destruct (wallets s !! walletId) as [r|]; [|reflexivity].
  rewrite bool_decide_eq_false_2 by (apply H; reflexivity). reflexivity.
Qed.

Lemma single_update_cases u data tx s r0 :
  snapshot tx !! SingleJob.walletId data = Some r0 →
  (u = decrement (SingleJob.amount data) →
   short (WalletRow.balance r0) (SingleJob.amount data) = false) →
  single_result u data tx s
    (bind (tx_wallet_update (SingleJob.walletId data) (WalletRow.version r0) u)
       (fun updatedWallet =>
          perform transaction_updateMany (ByTransactionId (SingleJob.transactionId data)) COMPLETED;
          cacheWalletBalance (SingleJob.walletId data)
                             (Decimal.of_units (Wallet.balance updatedWallet)))
       (emit (WalletFindUnique (SingleJob.walletId data)) s)).
Proof.
  intros H0 Hu.
  destruct (wallets s !! SingleJob.walletId data) as [r|] eqn:Hr.
  - destruct (decide (WalletRow.version r = WalletRow.version r0)) as [Hv|Hv].
    + destruct (in_range (WalletRow.balance (bump u r))) eqn:Hf.
      * erewrite bind_resolved by (apply tx_wallet_update_hit; [exact Hr|exact Hv|exact Hf]).
        unfold bind, transaction_updateMany, cacheWalletBalance, modify.
        world_simpl.
        replace (_, _) with (Resolved tt, settled_single u data r s).
        -- eapply single_committed; eassumption.
        -- unfold settled_single, emit, set_redis, set_transactions, set_wallets. simpl.
           rewrite <- app_assoc. reflexivity.
      * erewrite bind_rejected
          by (apply tx_wallet_update_overflow with (r := r); [exact Hr|exact Hv|exact Hf]).
        eapply single_overflow; eassumption.
    + erewrite bind_rejected
        by (apply tx_wallet_update_miss; world_simpl; intros r' Hr'; congruence).
      eapply single_conflict; [eassumption|assumption|].
      intros r' Hr'. congruence.
  - erewrite bind_rejected
      by (apply tx_wallet_update_miss; world_simpl; intros r' Hr'; congruence).
    eapply single_conflict; [eassumption|assumption|].
    intros r' Hr'. congruence.
Qed.

Lemma processDeposit_tx_cases data tx s :
  single_result (increment (SingleJob.amount data)) data tx s (processDeposit_tx data tx s).
Proof.
  unfold processDeposit_tx, bind at 1, tx_wallet_findUnique.
  destruct (snapshot tx !! SingleJob.walletId data) as [r0|] eqn:H0; world_simpl.
  - apply single_update_cases; [exact H0|discriminate].
  - now apply single_not_found.
Qed.

Lemma processWithdrawal_tx_cases data tx s :
  single_result (decrement (SingleJob.amount data)) data tx s (processWithdrawal_tx data tx s).
Proof.
  unfold processWithdrawal_tx, bind at 1, tx_wallet_findUnique.
  destruct (snapshot tx !! SingleJob.walletId data) as [r0|] eqn:H0; world_simpl.
  - change (Decimal.lt (Decimal.of_units (WalletRow.balance r0)) (SingleJob.amount data))
      with (short (WalletRow.balance r0) (SingleJob.amount data)).
    destruct (short (WalletRow.balance r0) (SingleJob.amount data)) eqn:Hlt.
    + eapply single_insufficient; [exact H0|reflexivity|exact Hlt].
    + apply single_update_cases; [exact H0|intros _; exact Hlt].
  - now apply single_not_found.
Qed.

Lemma processTransfer_tx_cases data tx s :
  transfer_result data tx s (processTransfer_tx data tx s).
Proof.
  unfold processTransfer_tx, bind at 1, tx_wallet_findMany.
  rewrite !transfer_finds by tauto.
  destruct data as [src dst amt desc ref].
  cbn [TransferJob.sourceWalletId TransferJob.destinationWalletId TransferJob.amount
       TransferJob.description TransferJob.referenceId].
  destruct (snapshot tx !! src) as [rs0|] eqn:Hs0; world_simpl;
    [|apply transfer_not_found; left; exact Hs0].
  destruct (snapshot tx !! dst) as [rd0|] eqn:Hd0; world_simpl;
    [|apply transfer_not_found; right; exact Hd0].
  change (Decimal.lt (Decimal.of_units (WalletRow.balance rs0)) amt)
    with (short (WalletRow.balance rs0) amt).
  destruct (short (WalletRow.balance rs0) amt) eqn:Hlt.
  { eapply transfer_insufficient; eassumption. }
  destruct (wallets s !! src) as [rs|] eqn:Hrs.
  2:{ erewrite bind_rejected
        by (apply tx_wallet_update_miss; world_simpl; by_lookup).
      eapply transfer_conflict_source; try eassumption.
      cbn [TransferJob.sourceWalletId]. by_lookup. }
  destruct (decide (WalletRow.version rs = WalletRow.version rs0)) as [Hvs|Hvs].
  2:{ erewrite bind_rejected
        by (apply tx_wallet_update_miss; world_simpl; by_lookup).
      eapply transfer_conflict_source; try eassumption.
      cbn [TransferJob.sourceWalletId]. by_lookup. }
  destruct (in_range (WalletRow.balance (bump (decrement amt) rs))) eqn:Hfs.
  2:{ erewrite bind_rejected
        by (apply tx_wallet_update_overflow with (r := rs);
            [world_simpl; exact Hrs|exact Hvs|exact Hfs]).
      eapply transfer_overflow_source; eassumption. }
  erewrite bind_resolved
    by (apply tx_wallet_update_hit; [world_simpl; exact Hrs|exact Hvs|exact Hfs]).
  destruct (decide (src = dst)) as [Heq|Hne].
  { erewrite bind_rejected.
    - eapply transfer_conflict_destination; try eassumption. left. exact Heq.
    - apply tx_wallet_update_miss. world_simpl. intros r'.
      rewrite <- Heq, lookup_insert_eq.
      intros [= <-]. unfold bump. cbn [WalletRow.version]. rewrite <- Heq in Hd0.
      assert (rd0 = rs0) by congruence. subst rd0. lia. }
  destruct (wallets s !! dst) as [rd|] eqn:Hrd.
  2:{ erewrite bind_rejected.
      - eapply transfer_conflict_destination; try eassumption. right.
        cbn [TransferJob.destinationWalletId]. by_lookup.
      - apply tx_wallet_update_miss. world_simpl. intros r'.
        rewrite lookup_insert_ne by exact Hne. by_lookup. }
  destruct (decide (WalletRow.version rd = WalletRow.version rd0)) as [Hvd|Hvd].
  2:{ erewrite bind_rejected.
      - eapply transfer_conflict_destination; try eassumption. right.
        cbn [TransferJob.destinationWalletId]. by_lookup.
      - apply tx_wallet_update_miss. world_simpl. intros r'.
        rewrite lookup_insert_ne by exact Hne. by_lookup. }
  destruct (in_range (WalletRow.balance (bump (increment amt) rd))) eqn:Hfd.
  2:{ erewrite bind_rejected.
      - eapply transfer_overflow_destination; eassumption.
      - apply tx_wallet_update_overflow with (r := rd); [|exact Hvd|exact Hfd].
        world_simpl. rewrite lookup_insert_ne by exact Hne. exact Hrd. }
  erewrite bind_resolved.
  2:{ apply tx_wallet_update_hit; [|exact Hvd|exact Hfd].
      world_simpl. rewrite lookup_insert_ne by exact Hne. exact Hrd. }
  unfold bind, transaction_updateMany, cacheWalletBalance, modify. world_simpl.
  replace (_, _) with
    (Resolved tt, settled_transfer (TransferJob.mk src dst amt desc ref) rs rd s).
  - eapply transfer_committed; eassumption.
  - unfold settled_transfer, emit, set_redis, set_transactions, set_wallets. simpl.
    rewrite <- !app_assoc. reflexivity.
Qed.

Lemma job_tx_plain (job : Job) : plain_callback (job_tx job).
Proof.
  intros tx s. destruct job as [d|d|d]; cbn [job_tx].
  - pose proof (processDeposit_tx_cases d tx s) as H.
    destruct H; world_simpl; unfold settled_single; world_simpl;
      rewrite ?attempts_app, ?delays_app; cbn; rewrite ?Nat.add_0_r, ?app_nil_r;
      (split; [reflexivity|split; [reflexivity|]]);
      intros e' [= <-] || intros e' [=]; reflexivity.
  - pose proof (processWithdrawal_tx_cases d tx s) as H.
    destruct H; world_simpl; unfold settled_single; world_simpl;
      rewrite ?attempts_app, ?delays_app; cbn; rewrite ?Nat.add_0_r, ?app_nil_r;
      (split; [reflexivity|split; [reflexivity|]]);
      intros e' [= <-] || intros e' [=]; reflexivity.
  - pose proof (processTransfer_tx_cases d tx s) as H.
    destruct H; world_simpl; unfold settled_transfer; world_simpl;
      rewrite ?attempts_app, ?delays_app; cbn; rewrite ?Nat.add_0_r, ?app_nil_r;
      (split; [reflexivity|split; [reflexivity|]]);
      intros e' [= <-] || intros e' [=]; reflexivity.
Qed.

(** What a callback does to the ledger and the queue: nothing to the queue,
    and on success exactly the COMPLETED mark on the job's rows. *)
Lemma job_tx_ledger (job : Job) tx s :
  queue (final (job_tx job tx s)) = queue s ∧
  (outcome (job_tx job tx s) = Resolved tt →
   transactions (final (job_tx job tx s)) = mark (job_key job) COMPLETED (transactions s)).
Proof.
  destruct job as [d|d|d]; cbn [job_tx job_key].
  - pose proof (processDeposit_tx_cases d tx s) as H.
    destruct H; world_simpl; (split; [reflexivity|]); intros [=]; reflexivity.
  - pose proof (processWithdrawal_tx_cases d tx s) as H.
    destruct H; world_simpl; (split; [reflexivity|]); intros [=]; reflexivity.
  - pose proof (processTransfer_tx_cases d tx s) as H.
    destruct H; world_simpl; (split; [reflexivity|]); intros [=]; reflexivity.
Qed.

Lemma handle_unfold (job : Job) (env : nat → Attempt) (s : World) :
  handle job env s =
    try_catch (executeTransaction (job_tx job) env defaultMaxRetries)
      (fun error => perform transaction_updateMany (job_key job) FAILED; throw error) s.
Proof. destruct job; reflexivity. Qed.

(** ** The ledger under settlement *)

(** Whatever the environment does, a handler leaves the ledger as it found it
    except for the status of its job's rows: COMPLETED when it resolves, FAILED
    when it is rejected. *)
Lemma handle_ledger (job : Job) (env : nat → Attempt) (s : World) :
  transactions (final (handle job env s)) =
    mark (job_key job)
         (match outcome (handle job env s) with
          | Resolved _ => COMPLETED
          | Rejected _ => FAILED
          end)
         (transactions s) ∧
  queue (final (handle job env s)) = queue s.
Proof.
  rewrite handle_unfold. unfold try_catch, executeTransaction.
  pose proof (loop_rule (job_tx job)
                (fun s' => transactions s' = transactions s ∧ queue s' = queue s)
                (fun _ s' => transactions s' = mark (job_key job) COMPLETED (transactions s) ∧
                             queue s' = queue s) env) as L.
  specialize (L ltac:(intros ms s0 H; exact H)).
  assert (A : ∀ i s0,
             transactions s0 = transactions s ∧ queue s0 = queue s →
             match interactive_transaction (job_tx job) (env i) s0 with
             | (Resolved _, s') =>
                 transactions s' = mark (job_key job) COMPLETED (transactions s) ∧
                 queue s' = queue s
             | (Rejected _, s') => transactions s' = transactions s ∧ queue s' = queue s
             end).
  { intros i s0 [Ht Hq]. apply attempt_rule; [split; assumption|].
    intros o s2 E.
    pose proof (job_tx_ledger job (mkTx (wallets s0))
                  (set_wallets (concurrent (env i)) (emit TxBegin s0))) as [Fq Fm].
    rewrite E in Fq, Fm. world_simpl. cbn [final outcome fst snd] in Fq, Fm.
    split.
    - split; [exact Ht|]. rewrite Fq. exact Hq.
    - intros [] ->. rewrite (Fm eq_refl). world_simpl. rewrite Ht, Fq. split; [reflexivity|exact Hq]. }
  specialize (L A defaultMaxRetries 0%nat Undefined s (conj eq_refl eq_refl)).
  destruct (executeTransaction_loop (job_tx job) env defaultMaxRetries 0 Undefined s)
    as [[[]|e] s'].
  - exact L.
  - destruct L as [Lt Lq]. unfold bind, transaction_updateMany, throw. world_simpl.
    rewrite Lt. split; [reflexivity|exact Lq].
Qed.

(** ** Attempts and delays of the retry loop *)

Lemma attempt_counts {T} (fn : TxClient → Promise T) (a : Attempt) (s : World) :
  plain_callback fn →
  attempts (trace (final (interactive_transaction fn a s))) = S (attempts (trace s)) ∧
  delays (trace (final (interactive_transaction fn a s))) = delays (trace s) ∧
  (fault a = None →
   ∀ e, outcome (interactive_transaction fn a s) = Rejected e → retryable e = false) ∧
  (∀ e, fault a = Some (AtBegin, e) →
        outcome (interactive_transaction fn a s) = Rejected e).
Proof.
  intros Hfn. unfold interactive_transaction.
  assert (Hb : attempts (trace (emit TxBegin s)) = S (attempts (trace s)) ∧
               delays (trace (emit TxBegin s)) = delays (trace s)).
  { world_simpl. rewrite attempts_app, delays_app. cbn.
    rewrite app_nil_r. split; [lia|reflexivity]. }
  destruct Hb as [Hb1 Hb2].
  destruct (Hfn (mkTx (wallets (emit TxBegin s)))
                (set_wallets (concurrent a) (emit TxBegin s))) as (Ha & Hd & He).
  destruct (fn (mkTx (wallets (emit TxBegin s)))
               (set_wallets (concurrent a) (emit TxBegin s))) as [o s2].
  cbn [final outcome fst snd] in Ha, Hd, He.
  change (trace (set_wallets (concurrent a) (emit TxBegin s))) with (trace (emit TxBegin s))
    in Ha, Hd.
  rewrite Hb1 in Ha. rewrite Hb2 in Hd.
  destruct (fault a) as [[[|] e0]|]; world_simpl.
  - repeat split; try assumption; [discriminate|]. intros e [= <-]. reflexivity.
  - destruct o; world_simpl; repeat split; try assumption; discriminate.
  - destruct o; world_simpl; repeat split; try assumption; try discriminate.
    intros _ e' [= <-]. now apply He.
Qed.



Lemma matches_with_status w st r :
  matches w (Transaction.with_status st r) = matches w r.
Proof. destruct w; reflexivity. Qed.



(** ** The retry policy of settlement *)

Lemma loop_step {T} (fn : TxClient → Promise T) env n i lastError s :
  executeTransaction_loop fn env (S n) i lastError s =
    match interactive_transaction fn (env i) s with
    | (Resolved v, s') => (Resolved v, s')
    | (Rejected e, s') =>
        if retryable e
        then executeTransaction_loop fn env n (S i) e (emit (Delay (backoff i)) s')
        else (Rejected e, s')
    end.
Proof.
  cbn [executeTransaction_loop]. unfold try_catch.
  destruct (interactive_transaction fn (env i) s) as [[v|e] s']; [reflexivity|].
  destruct (retryable e); reflexivity.
Qed.

(** The loop from attempt [i] on, with [S n] attempts left: [k] is its last
    attempt. *)
Lemma loop_attempts {T} (fn : TxClient → Promise T) (env : nat → Attempt) (s : World) :
  plain_callback fn →
  ∀ n i lastError,
    let result := executeTransaction_loop fn env (S n) i lastError (world_at fn env i s) in
    ∃ k : nat,
      (i ≤ k ≤ i + n)%nat ∧
      (∀ j, (i ≤ j < k)%nat → retried (attempt_at fn env j s) = true) ∧
      attempts (trace (final result)) =
        (attempts (trace (world_at fn env i s)) + S (k - i))%nat ∧
      if retried (attempt_at fn env k s)
      then k = (i + n)%nat ∧
           result = (outcome (attempt_at fn env k s),
                     emit (Delay (backoff k)) (final (attempt_at fn env k s))) ∧
           delays (trace (final result)) =
             delays (trace (world_at fn env i s)) ++ List.map backoff (seq i (S (k - i)))
      else result = attempt_at fn env k s ∧
           delays (trace (final result)) =
             delays (trace (world_at fn env i s)) ++ List.map backoff (seq i (k - i)).
Proof.
  intros Hfn. induction n as [|n IH]; intros i lastError result; subst result;
    rewrite loop_step;
    destruct (attempt_counts fn (env i) (world_at fn env i s) Hfn) as (Ha & Hd & _);
    fold (attempt_at fn env i s) in Ha, Hd |- *;
    pose proof (eq_refl : world_at fn env (S i) s =
                          emit (Delay (backoff i)) (final (attempt_at fn env i s))) as Hw;
    destruct (attempt_at fn env i s) as [[v|e] s'] eqn:E;
    cbn [final outcome fst snd] in Ha, Hd, Hw.
  - exists i. rewrite E, Nat.sub_diag. cbn [retried outcome fst seq List.map].
    rewrite app_nil_r. cbn [final snd].
    split; [lia|]. split; [intros; lia|]. split; [rewrite Ha; lia|]. split; [reflexivity|exact Hd].
  - exists i. rewrite E, Nat.sub_diag. cbn [retried outcome fst].
    split; [lia|]. split; [intros; lia|].
    destruct (retryable e) eqn:Hr; cbn [executeTransaction_loop throw final outcome fst snd].
    + world_simpl. rewrite attempts_app, delays_app, Ha, Hd. cbn.
      split; [lia|]. split; [lia|]. split; reflexivity.
    + rewrite app_nil_r. split; [rewrite Ha; lia|]. split; [reflexivity|exact Hd].
  - exists i. rewrite E, Nat.sub_diag. cbn [retried outcome fst seq List.map].
    rewrite app_nil_r. cbn [final snd].
    split; [lia|]. split; [intros; lia|]. split; [rewrite Ha; lia|]. split; [reflexivity|exact Hd].
  - destruct (retryable e) eqn:Hr.
    + rewrite <- Hw. destruct (IH (S i) e) as (k & Hk & Hj & Ka & Kr).
      exists k. split; [lia|]. split.
      { intros j Hjk. destruct (decide (j = i)) as [->|Hne].
        - rewrite E. exact Hr.
        - apply Hj. lia. }
      assert (Ta : attempts (trace (world_at fn env (S i) s)) =
                   S (attempts (trace (world_at fn env i s)))).
      { rewrite Hw. world_simpl. rewrite attempts_app, Ha. cbn. lia. }
      assert (Td : delays (trace (world_at fn env (S i) s)) =
                   delays (trace (world_at fn env i s)) ++ [backoff i]).
      { rewrite Hw. world_simpl. rewrite delays_app, Hd. reflexivity. }
      rewrite Ta in Ka. rewrite Td in Kr.
      split; [rewrite Ka; lia|].
      destruct (retried (attempt_at fn env k s)).
      * destruct Kr as (-> & Kres & Kd). split; [lia|]. split; [exact Kres|].
        rewrite Kd, <- app_assoc.
        replace (S i + n - i)%nat with (S (S i + n - S i)) by lia. reflexivity.
      * destruct Kr as (Kres & Kd). split; [exact Kres|].
        rewrite Kd, <- app_assoc.
        replace (k - i)%nat with (S (k - S i)) by lia. reflexivity.
    + exists i. rewrite E, Nat.sub_diag. cbn [retried outcome fst]. rewrite Hr.
      cbn [seq List.map final snd]. rewrite app_nil_r.
      split; [lia|]. split; [intros; lia|]. split; [rewrite Ha; lia|].
      split; [reflexivity|exact Hd].
Qed.




(** A transient failure on every attempt: three attempts, delays of 100, 200
    and 400 ms, then the row is FAILED and the balance untouched. *)
Example transient_failures_exhaust_three_attempts :
  outcome (handle (JobDeposit job_deposit_a) env_busy world_deposit_requested) =
    Rejected (PrismaError "P2034" []) ∧
  attempts (trace (final (handle (JobDeposit job_deposit_a) env_busy
                                 world_deposit_requested))) = 3%nat ∧
  delays (trace (final (handle (JobDeposit job_deposit_a) env_busy
                               world_deposit_requested))) = [100; 200; 400] ∧
  status_of "t1" (final (handle (JobDeposit job_deposit_a) env_busy
                                world_deposit_requested)) = Some FAILED ∧
  balance_of "a" (final (handle (JobDeposit job_deposit_a) env_busy
                                world_deposit_requested)) = Some 100.
Proof. vm_compute. repeat split; reflexivity. Qed.

(** A transient failure on the first attempt only: the second attempt, 100 ms
    later, reads the wallet and commits. *)
Example transient_failure_is_retried :
  outcome (handle (JobDeposit job_deposit_a) env_hiccup world_deposit_requested) =
    Resolved tt ∧
  trace (final (handle (JobDeposit job_deposit_a) env_hiccup world_deposit_requested)) =
    [TxBegin; Delay 100; TxBegin; WalletFindUnique "a"; WalletUpdate "a"] ∧
  status_of "t1" (final (handle (JobDeposit job_deposit_a) env_hiccup
                                world_deposit_requested)) = Some COMPLETED ∧
  balance_of "a" (final (handle (JobDeposit job_deposit_a) env_hiccup
                                world_deposit_requested)) = Some 150.
Proof. vm_compute. repeat split; reflexivity. Qed.

(** ** The request side, case by case *)

Lemma createWallet_cases cuid dto s :
  (∃ e, createWallet cuid dto s = (Rejected e, s)) ∨
  (wallets s !! cuid = None ∧
   let b := default 0%Q (CreateWalletDto.initialBalance dto) in
   let r := WalletRow.mk (CreateWalletDto.userId dto) (rounded b) true 0 in
   in_range (rounded b) = true ∧
   createWallet cuid dto s =
     (Resolved (WalletRow.entity cuid r),
      mkWorld (<[cuid := r]> (wallets s)) (transactions s)
              (<[balance_key cuid := b]> (redis s)) (queue s) (trace s))).
Proof.
  unfold createWallet, try_catch, bind, wallet_create.
  destruct (in_range (rounded _)) eqn:Hf; cbn [negb]; [|left; cbn; eauto].
  destruct (wallets s !! cuid) eqn:Hc.
  - left. cbn. eauto.
  - destruct (bool_decide (map_Exists _ (wallets s))).
    + left. cbn. eauto.
    + right. split; [reflexivity|]. split; reflexivity.
Qed.

Lemma depositFunds_cases uuidv4 enqueue dto s :
  let id := default uuidv4 (DepositFundsDto.transactionId dto) in
  let row := Transaction.mk id None (DepositFundsDto.walletId dto) None
                            (rounded (DepositFundsDto.amount dto)) DEPOSIT PENDING
                            (DepositFundsDto.description dto) in
  let job := JobDeposit (SingleJob.mk (DepositFundsDto.walletId dto)
                                      (DepositFundsDto.amount dto)
                                      (DepositFundsDto.description dto) id) in
  (∃ o, depositFunds uuidv4 enqueue dto s = (o, s)) ∨
  (is_active (DepositFundsDto.walletId dto) s ∧
   depositFunds uuidv4 enqueue dto s =
     match enqueue with
     | None =>
         (Resolved row,
          mkWorld (wallets s) (transactions s ++ [row]) (redis s) (queue s ++ [job]) (trace s))
     | Some error =>
         (Rejected error,
          mkWorld (wallets s) (transactions s ++ [row]) (redis s) (queue s) (trace s))
     end).
Proof.
  intros id row job. unfold depositFunds, bind, transaction_findUnique. fold id.
  destruct (List.find _ (transactions s)); [left; eauto|].
  destruct (getWallet_cases (DepositFundsDto.walletId dto) s) as [(r & Hr & Ha & E)|(_ & E)];
    rewrite E; [|left; eauto].
  match goal with |- context [transaction_create ?d s] =>
    destruct (transaction_create_cases d s) as [Ec|(e & Ec)]; rewrite Ec
  end.
  - right. split; [exists r; split; assumption|].
    unfold queue_add, modify, throw. destruct enqueue; reflexivity.
  - left. eauto.
Qed.

Lemma withdrawFunds_cases uuidv4 enqueue dto s :
  let id := default uuidv4 (WithdrawFundsDto.transactionId dto) in
  let row := Transaction.mk id None (WithdrawFundsDto.walletId dto) None
                            (rounded (WithdrawFundsDto.amount dto)) WITHDRAWAL PENDING
                            (WithdrawFundsDto.description dto) in
  let job := JobWithdrawal (SingleJob.mk (WithdrawFundsDto.walletId dto)
                                         (WithdrawFundsDto.amount dto)
                                         (WithdrawFundsDto.description dto) id) in
  (∃ o, withdrawFunds uuidv4 enqueue dto s = (o, s)) ∨
  (∃ o, withdrawFunds uuidv4 enqueue dto s =
          (o, final (getWalletBalance (WithdrawFundsDto.walletId dto) s)) ∧
        ∀ v, o ≠ Resolved v) ∨
  (∃ b, seen_balance (WithdrawFundsDto.walletId dto) s = Some b ∧
        Decimal.lt b (WithdrawFundsDto.amount dto) = false ∧
        let s1 := final (getWalletBalance (WithdrawFundsDto.walletId dto) s) in
        withdrawFunds uuidv4 enqueue dto s =
          match enqueue with
          | None =>
              (Resolved row,
               mkWorld (wallets s1) (transactions s1 ++ [row]) (redis s1) (queue s1 ++ [job])
                       (trace s1))
          | Some error =>
              (Rejected error,
               mkWorld (wallets s1) (transactions s1 ++ [row]) (redis s1) (queue s1) (trace s1))
          end).
Proof.
  intros id row job. unfold withdrawFunds, bind, transaction_findUnique. fold id.
  destruct (List.find _ (transactions s)); [left; eauto|].
  pose proof (getWalletBalance_spec (WithdrawFundsDto.walletId dto) s) as EB.
  destruct (seen_balance (WithdrawFundsDto.walletId dto) s) as [b|] eqn:Hb; rewrite EB;
    cbn [final snd]; [|left; eauto].
  destruct (Decimal.lt b (WithdrawFundsDto.amount dto)) eqn:Hlt.
  - right. left. eexists. split; [reflexivity|]. discriminate.
  - match goal with |- context [transaction_create ?d ?s1] =>
      destruct (transaction_create_cases d s1) as [Ec|(e & Ec)]; rewrite Ec
    end.
    + right. right. exists b. split; [reflexivity|]. split; [exact Hlt|].
      unfold queue_add, modify, throw. destruct enqueue; reflexivity.
    + right. left. eexists. split; [reflexivity|]. discriminate.
Qed.

Lemma deactivateWallet_spec walletId s :
  match wallets s !! walletId with
  | Some r =>
      if WalletRow.isActive r
      then
        let seen := default (Decimal.of_units (WalletRow.balance r))
                            (redis s !! balance_key walletId) in
        if Decimal.gt seen 0
        then deactivateWallet walletId s =
               (Rejected (BadRequestException "Cannot deactivate wallet with non-zero balance"),
                final (getWalletBalance walletId s))
        else deactivateWallet walletId s =
               (Resolved (WalletRow.entity walletId (deactivated r)),
                mkWorld (<[walletId := deactivated r]> (wallets s)) (transactions s)
                        (delete (balance_key walletId) (redis s)) (queue s) (trace s))
      else deactivateWallet walletId s = (Rejected (NotFoundException "Wallet not found"), s)
  | None => deactivateWallet walletId s = (Rejected (NotFoundException "Wallet not found"), s)
  end.
Proof.
  unfold deactivateWallet.
  destruct (wallets s !! walletId) as [r|] eqn:Hr.
  - destruct (WalletRow.isActive r) eqn:Ha.
    + erewrite bind_resolved by (eapply getWallet_active; eassumption).
      pose proof (getWalletBalance_spec walletId s) as EB. unfold seen_balance in EB.
      destruct (redis s !! balance_key walletId) as [c|] eqn:Hc; cbn [default from_option id];
        rewrite ?Hr, ?Ha in EB; cbn iota in EB.
      * destruct (Decimal.gt c 0) eqn:Hpos; cbn iota; unfold bind at 1; rewrite EB;
          cbn beta iota; rewrite Hpos; [reflexivity|].
        unfold bind, wallet_update_inactive, invalidateWalletCache, modify, resolve.
        rewrite Hr. reflexivity.
      * destruct (Decimal.gt (Decimal.of_units (WalletRow.balance r)) 0) eqn:Hpos; cbn iota;
          unfold bind at 1; rewrite EB; cbn beta iota; rewrite Hpos; [reflexivity|].
        unfold bind, wallet_update_inactive, invalidateWalletCache, modify, resolve.
        cbn [wallets set_redis]. rewrite Hr. unfold set_wallets, set_redis. cbn.
        rewrite delete_insert_eq. reflexivity.
    + erewrite bind_rejected by (eapply getWallet_inactive; eassumption). reflexivity.
  - erewrite bind_rejected by (eapply getWallet_absent; eassumption). reflexivity.
Qed.

(** The request-side operations only ever append PENDING rows to the ledger. *)
Lemma request_ledger (op : Operation) (s : World) :
  match op with
  | OpHandle _ _ => True
  | _ =>
      ∃ created, transactions (step op s) = transactions s ++ created ∧
                 Forall (fun row => Transaction.status row = PENDING) created
  end.
Proof.
  destruct op as [cuid dto|id|id|u q dto|u q dto|u1 u2 q dto|id|job env]; cbn [step]; [..|exact I].
  - exists []. rewrite app_nil_r. split; [|constructor].
    destruct (createWallet_cases cuid dto s) as [(e & E)|(_ & _ & E)]; rewrite E; reflexivity.
  - exists []. rewrite app_nil_r. split; [|constructor].
    destruct (getWallet_cases id s) as [(r & _ & _ & E)|(_ & E)]; rewrite E; reflexivity.
  - exists []. rewrite app_nil_r. split; [|constructor].
    apply getWalletBalance_frame.
  - destruct (depositFunds_cases u q dto s) as [(o & E)|(_ & E)]; rewrite E; cbn [final snd].
    + exists []. rewrite app_nil_r. split; [reflexivity|constructor].
    + eexists [_]. split; [destruct q; reflexivity|]. repeat constructor.
  - destruct (withdrawFunds_cases u q dto s) as [(o & E)|[(o & E & _)|(b & _ & _ & E)]];
      rewrite E; cbn [final snd transactions].
    + exists []. rewrite app_nil_r. split; [reflexivity|constructor].
    + exists []. rewrite app_nil_r. split; [apply getWalletBalance_frame|constructor].
    + pose proof (getWalletBalance_frame (WithdrawFundsDto.walletId dto) s) as (_ & Ft & _).
      cbn zeta in Ft. eexists [_].
      split; [destruct q; cbn [transactions]; rewrite Ft; reflexivity|repeat constructor].
  - destruct (transferFunds_ledger u1 u2 q dto s) as [(E & _)|(_ & E & _)]; rewrite E.
    + exists []. rewrite app_nil_r. split; [reflexivity|constructor].
    + eexists [_; _]. split; [reflexivity|]. repeat constructor.
  - exists []. rewrite app_nil_r. split; [|constructor].
    pose proof (deactivateWallet_spec id s) as E.
    destruct (wallets s !! id) as [r|]; [|rewrite E; reflexivity].
    destruct (WalletRow.isActive r); [|rewrite E; reflexivity].
    cbn zeta in E.
    destruct (Decimal.gt _ _); rewrite E; [apply getWalletBalance_frame|reflexivity].
Qed.

(** ** The status of ledger rows *)

(** C6, as amended: every ledger row is created PENDING, and the request-side
    operations never touch an existing row. A settlement handler sets the
    status of every row matching its job's key (transactionId, or referenceId
    for a transfer) to COMPLETED when it resolves and to FAILED when it is
    rejected, whatever status the row had before, and leaves every other row
    as it was; no other status is ever written. *)
Theorem ledger_status_is_overwritten_by_settlement (op : Operation) (s : World) :
  match op with
  | OpHandle job env =>
      ∃ st, (st = COMPLETED ∨ st = FAILED) ∧
            (st = COMPLETED ↔ outcome (handle job env s) = Resolved tt) ∧
            transactions (step op s) =
              List.map (fun r => if matches (job_key job) r
                                 then Transaction.with_status st r else r)
                       (transactions s)
  | _ =>
      ∃ created, transactions (step op s) = transactions s ++ created ∧
                 Forall (fun row => Transaction.status row = PENDING) created
  end.
Proof.
  pose proof (request_ledger op s) as H.
  destruct op as [cuid dto|id|id|u q dto|u q dto|u1 u2 q dto|id|job env]; try exact H.
  clear H. cbn [step].
  pose proof (handle_ledger job env s) as [Hl _].
  destruct (outcome (handle job env s)) as [[]|e] eqn:Ho.
  - exists COMPLETED. split; [left; reflexivity|]. split; [tauto|exact Hl].
  - exists FAILED. split; [right; reflexivity|]. split; [|exact Hl].
    split; discriminate.
Qed.

(** A row that is FAILED after a first delivery becomes COMPLETED when the job
    is delivered again; and a COMPLETED row is turned FAILED by a further
    delivery that fails. *)
Lemma terminal_status_is_changed_by_redelivery :
  status_of "t1" world_deposit_failed = Some FAILED ∧
  status_of "t1" (step (OpHandle (JobDeposit job_deposit_a) calm) world_deposit_failed) =
    Some COMPLETED ∧
  status_of "t1" world_deposit_settled = Some COMPLETED ∧
  status_of "t1" (step (OpHandle (JobDeposit job_deposit_a) env_conflict)
                       world_deposit_settled) = Some FAILED.
Proof. vm_compute. repeat split; reflexivity. Qed.

(** ** What settlement does to the wallets *)

Lemma job_tx_wallets (job : Job) tx s :
  outcome (job_tx job tx s) = Resolved tt →
  committed_write job (snapshot tx) (wallets s) (wallets (final (job_tx job tx s))).
Proof.
  destruct job as [d|d|d]; cbn [job_tx job_amount].
  - pose proof (processDeposit_tx_cases d tx s) as H.
    destruct H as [H0|r0 H0 Hu Hlt|r0 H0 Hu Hv|r0 r H0 Hu Hr Hv Hf|r0 r H0 Hu Hr Hv Hf];
      world_simpl; try discriminate.
    intros _ id. unfold settled_single. world_simpl.
    destruct (decide (id = SingleJob.walletId d)) as [->|Hne].
    + right. exists r0, r, (increment (SingleJob.amount d)).
      rewrite lookup_insert_eq. repeat split; try assumption. left. reflexivity.
    + left. apply lookup_insert_ne. congruence.
  - pose proof (processWithdrawal_tx_cases d tx s) as H.
    destruct H as [H0|r0 H0 Hu Hlt|r0 H0 Hu Hv|r0 r H0 Hu Hr Hv Hf|r0 r H0 Hu Hr Hv Hf];
      world_simpl; try discriminate.
    intros _ id. unfold settled_single. world_simpl.
    destruct (decide (id = SingleJob.walletId d)) as [->|Hne].
    + right. exists r0, r, (decrement (SingleJob.amount d)).
      rewrite lookup_insert_eq. repeat split; try assumption.
      right. split; [reflexivity|]. apply Hu. reflexivity.
    + left. apply lookup_insert_ne. congruence.
  - pose proof (processTransfer_tx_cases d tx s) as H.
    destruct H as [H0|rs0 rd0 Hs0 Hd0 Hlt|rs0 rd0 Hs0 Hd0 Hle Hv
                  |rs0 rd0 rs Hs0 Hd0 Hle Hrs Hvs Hfs
                  |rs0 rd0 rs Hs0 Hd0 Hle Hrs Hvs Hfs Hd
                  |rs0 rd0 rs rd Hs0 Hd0 Hle Hne Hrs Hvs Hfs Hrd Hvd Hfd
                  |rs0 rd0 rs rd Hs0 Hd0 Hle Hne Hrs Hvs Hfs Hrd Hvd Hfd];
      world_simpl; try discriminate.
    intros _ id. unfold settled_transfer. world_simpl.
    destruct (decide (id = TransferJob.destinationWalletId d)) as [->|Hnd].
    + right. exists rd0, rd, (increment (TransferJob.amount d)).
      rewrite lookup_insert_eq. repeat split; try assumption. left. reflexivity.
    + rewrite lookup_insert_ne by congruence.
      destruct (decide (id = TransferJob.sourceWalletId d)) as [->|Hns].
      * right. exists rs0, rs, (decrement (TransferJob.amount d)).
        rewrite lookup_insert_eq. repeat split; try assumption.
        right. split; [reflexivity|exact Hle].
      * left. apply lookup_insert_ne. congruence.
Qed.

(** A rule for the wallets table across a whole handler: [Inv] must survive
    what other workers commit; a committed transaction takes [Inv] to [Post]. *)
Lemma handle_wallets_rule (job : Job) (env : nat → Attempt) (s : World)
    (Inv Post : gmap string WalletRow.t → Prop) :
  Inv (wallets s) →
  (∀ i ws, Inv ws → Inv (concurrent (env i) ws)) →
  (∀ i ws ws', Inv ws → committed_write job ws (concurrent (env i) ws) ws' → Post ws') →
  match outcome (handle job env s) with
  | Resolved _ => Post (wallets (final (handle job env s)))
  | Rejected _ => Inv (wallets (final (handle job env s)))
  end.
Proof.
  intros H0 Hrely Hcommit.
  rewrite handle_unfold. unfold try_catch, executeTransaction.
  pose proof (loop_rule (job_tx job) (fun s' => Inv (wallets s'))
                (fun _ s' => Post (wallets s')) env) as L.
  specialize (L ltac:(intros ms s0 H; exact H)).
  assert (A : ∀ i s0, Inv (wallets s0) →
             match interactive_transaction (job_tx job) (env i) s0 with
             | (Resolved _, s') => Post (wallets s')
             | (Rejected _, s') => Inv (wallets s')
             end).
  { intros i s0 HI. apply attempt_rule; [exact HI|].
    intros o s2 E. split.
    - world_simpl. apply Hrely. exact HI.
    - intros [] ->.
      pose proof (job_tx_wallets job (mkTx (wallets s0))
                    (set_wallets (concurrent (env i)) (emit TxBegin s0))) as W.
      rewrite E in W. specialize (W eq_refl). world_simpl. cbn [final snd] in W.
      eapply Hcommit; [exact HI|exact W]. }
  specialize (L A defaultMaxRetries 0%nat Undefined s H0).
  destruct (executeTransaction_loop (job_tx job) env defaultMaxRetries 0 Undefined s)
    as [[[]|e] s'].
  - exact L.
  - unfold bind, transaction_updateMany, throw. world_simpl. exact L.
Qed.

(** The first attempt when the store reports no failure during it. *)
Lemma executeTransaction_first_attempt {T} (fn : TxClient → Promise T) (env : nat → Attempt) s :
  fault (env 0%nat) = None →
  match fn (mkTx (wallets s)) (set_wallets (concurrent (env 0%nat)) (emit TxBegin s)) with
  | (Resolved v, s2) => executeTransaction fn env defaultMaxRetries s = (Resolved v, s2)
  | (Rejected e, s2) =>
      retryable e = false →
      executeTransaction fn env defaultMaxRetries s =
        (Rejected e, rollback (set_wallets (concurrent (env 0%nat)) (emit TxBegin s)) s2)
  end.
Proof.
  intros Hf. unfold executeTransaction, defaultMaxRetries. cbn [executeTransaction_loop].
  unfold try_catch, interactive_transaction. rewrite Hf. world_simpl.
  destruct (fn (mkTx (wallets s)) (set_wallets (concurrent (env 0%nat)) (emit TxBegin s)))
    as [[v|e] s2]; [reflexivity|].
  intros ->. reflexivity.
Qed.

Lemma set_wallets_same (s : World) : set_wallets (concurrent quiet) (emit TxBegin s) = emit TxBegin s.
Proof. reflexivity. Qed.

(** ** A concurrency conflict *)

(** Another worker commits to the wallet between a deposit's read and its
    update, and the store reports no failure of its own: the update matches
    no row, the handler is rejected with P2025 after this one attempt, without
    a delay, and its own writes are undone. *)
Lemma deposit_version_miss_is_final d env s r0 :
  fault (env 0%nat) = None →
  wallets s !! SingleJob.walletId d = Some r0 →
  (∀ r, concurrent (env 0%nat) (wallets s) !! SingleJob.walletId d = Some r →
        WalletRow.version r ≠ WalletRow.version r0) →
  outcome (processDeposit d env s) = Rejected (PrismaError "P2025" []) ∧
  attempts (trace (final (processDeposit d env s))) = S (attempts (trace s)) ∧
  delays (trace (final (processDeposit d env s))) = delays (trace s) ∧
  wallets (final (processDeposit d env s)) = concurrent (env 0%nat) (wallets s).
Proof.
  intros Hf H0 Hmiss.
  unfold processDeposit, try_catch.
  pose proof (executeTransaction_first_attempt (processDeposit_tx d) env s Hf) as F.
  pose proof (processDeposit_tx_cases d (mkTx (wallets s))
                (set_wallets (concurrent (env 0%nat)) (emit TxBegin s))) as C.
  destruct C as [Hn|r1 H1 Hu Hlt|r1 H1 Hu Hv|r1 r H1 Hu Hr Hv Hr'|r1 r H1 Hu Hr Hv Hr'];
    cbn [snapshot wallets set_wallets emit] in *.
  - simplify_eq.
  - discriminate Hu.
  - rewrite (F eq_refl). unfold bind, transaction_updateMany, throw. world_simpl.
    rewrite !attempts_app, !delays_app. cbn. rewrite !app_nil_r.
    repeat split; try reflexivity. lia.
  - simplify_eq. exfalso. apply (Hmiss r Hr). exact Hv.
  - simplify_eq. exfalso. apply (Hmiss r Hr). exact Hv.
Qed.

(** ** Re-delivery of a settlement job *)

(** C1, as amended: the settlement handlers never read the status of the
    ledger row. Whatever that status is (PENDING, COMPLETED or FAILED), a
    delivery whose first attempt is undisturbed applies the balance mutation:
    a deposit to an existing wallet adds the amount, a withdrawal covered by
    the stored balance subtracts it, a covered transfer between two distinct
    existing wallets does both. The new balance is the sum or difference as
    the column stores it, rounded to its 8 decimal places, which is exactly
    the sum or difference when the amount is a whole number of units; each
    mutated wallet's version goes up by 1. When a new balance is out of the
    column's range the store rejects the update (P2020) and no wallet is
    changed. So delivering the job of an already settled row mutates the
    balance again. *)
Theorem settlement_applies_on_every_delivery :
  (∀ d env s r,
     env 0%nat = quiet →
     wallets s !! SingleJob.walletId d = Some r →
     let balance := rounded (Decimal.of_units (WalletRow.balance r) + SingleJob.amount d) in
     if in_range balance
     then
       outcome (processDeposit d env s) = Resolved tt ∧
       wallets (final (processDeposit d env s)) =
         <[SingleJob.walletId d :=
             WalletRow.mk (WalletRow.userId r) balance
                          (WalletRow.isActive r) (WalletRow.version r + 1)]> (wallets s)
     else
       outcome (processDeposit d env s) = Rejected (PrismaError "P2020" []) ∧
       wallets (final (processDeposit d env s)) = wallets s) ∧
  (∀ d env s r,
     env 0%nat = quiet →
     wallets s !! SingleJob.walletId d = Some r →
     (SingleJob.amount d <= Decimal.of_units (WalletRow.balance r))%Q →
     let balance := rounded (Decimal.of_units (WalletRow.balance r) - SingleJob.amount d) in
     if in_range balance
     then
       outcome (processWithdrawal d env s) = Resolved tt ∧
       wallets (final (processWithdrawal d env s)) =
         <[SingleJob.walletId d :=
             WalletRow.mk (WalletRow.userId r) balance
                          (WalletRow.isActive r) (WalletRow.version r + 1)]> (wallets s)
     else
       outcome (processWithdrawal d env s) = Rejected (PrismaError "P2020" []) ∧
       wallets (final (processWithdrawal d env s)) = wallets s) ∧
  (∀ d env s rs rd,
     env 0%nat = quiet →
     TransferJob.sourceWalletId d ≠ TransferJob.destinationWalletId d →
     wallets s !! TransferJob.sourceWalletId d = Some rs →
     wallets s !! TransferJob.destinationWalletId d = Some rd →
     (TransferJob.amount d <= Decimal.of_units (WalletRow.balance rs))%Q →
     let debited := rounded (Decimal.of_units (WalletRow.balance rs) - TransferJob.amount d) in
     let credited := rounded (Decimal.of_units (WalletRow.balance rd) + TransferJob.amount d) in
     if in_range debited && in_range credited
     then
       outcome (processTransfer d env s) = Resolved tt ∧
       wallets (final (processTransfer d env s)) =
         <[TransferJob.destinationWalletId d :=
             WalletRow.mk (WalletRow.userId rd) credited
                          (WalletRow.isActive rd) (WalletRow.version rd + 1)]>
           (<[TransferJob.sourceWalletId d :=
                WalletRow.mk (WalletRow.userId rs) debited
                             (WalletRow.isActive rs) (WalletRow.version rs + 1)]> (wallets s))
     else
       outcome (processTransfer d env s) = Rejected (PrismaError "P2020" []) ∧
       wallets (final (processTransfer d env s)) = wallets s) ∧
  (∀ balance amount : Z,
     rounded (Decimal.of_units balance + Decimal.of_units amount) = balance + amount ∧
     rounded (Decimal.of_units balance - Decimal.of_units amount) = balance - amount).
Proof.
  split; [|split; [|split]].
  - intros d env s r Henv Hr.
    unfold processDeposit, try_catch.
    pose proof (executeTransaction_first_attempt (processDeposit_tx d) env s) as F.
    rewrite Henv in F. specialize (F eq_refl). rewrite set_wallets_same in F.
    pose proof (processDeposit_tx_cases d (mkTx (wallets s)) (emit TxBegin s)) as C.
    destruct C as [H0|r0 H0 Hu Hlt|r0 H0 Hu Hv|r0 r' H0 Hu Hr' Hv Hf|r0 r' H0 Hu Hr' Hv Hf];
      world_simpl; cbn [snapshot wallets emit] in *.
    + simplify_eq.
    + discriminate Hu.
    + exfalso. apply (Hv r); [exact Hr|simplify_eq; reflexivity].
    + rewrite (F eq_refl). simplify_eq. cbn [bump apply_update WalletRow.balance] in Hf.
      cbv zeta. rewrite Hf. split; reflexivity.
    + rewrite F. simplify_eq. cbn [bump apply_update WalletRow.balance] in Hf.
      cbv zeta. rewrite Hf. split; reflexivity.
  - intros d env s r Henv Hr Hle.
    apply lt_false in Hle. fold (short (WalletRow.balance r) (SingleJob.amount d)) in Hle.
    unfold processWithdrawal, try_catch.
    pose proof (executeTransaction_first_attempt (processWithdrawal_tx d) env s) as F.
    rewrite Henv in F. specialize (F eq_refl). rewrite set_wallets_same in F.
    pose proof (processWithdrawal_tx_cases d (mkTx (wallets s)) (emit TxBegin s)) as C.
    destruct C as [H0|r0 H0 Hu Hlt|r0 H0 Hu Hv|r0 r' H0 Hu Hr' Hv Hf|r0 r' H0 Hu Hr' Hv Hf];
      world_simpl; cbn [snapshot wallets emit] in *.
    + simplify_eq.
    + simplify_eq. congruence.
    + exfalso. apply (Hv r); [exact Hr|simplify_eq; reflexivity].
    + rewrite (F eq_refl). simplify_eq. cbn [bump apply_update WalletRow.balance] in Hf.
      cbv zeta. rewrite Hf. split; reflexivity.
    + rewrite F. simplify_eq. cbn [bump apply_update WalletRow.balance] in Hf.
      cbv zeta. rewrite Hf. split; reflexivity.
  - intros d env s rs rd Henv Hne Hrs Hrd Hle.
    apply lt_false in Hle. fold (short (WalletRow.balance rs) (TransferJob.amount d)) in Hle.
    unfold processTransfer, try_catch.
    pose proof (executeTransaction_first_attempt (processTransfer_tx d) env s) as F.
    rewrite Henv in F. specialize (F eq_refl). rewrite set_wallets_same in F.
    pose proof (processTransfer_tx_cases d (mkTx (wallets s)) (emit TxBegin s)) as C.
    destruct C as [H0|rs0 rd0 Hs0 Hd0 Hlt|rs0 rd0 Hs0 Hd0 Hle' Hv
                  |rs0 rd0 rs' Hs0 Hd0 Hle' Hrs' Hvs Hfs
                  |rs0 rd0 rs' Hs0 Hd0 Hle' Hrs' Hvs Hfs Hd
                  |rs0 rd0 rs' rd' Hs0 Hd0 Hle' Hne' Hrs' Hvs Hfs Hrd' Hvd Hfd
                  |rs0 rd0 rs' rd' Hs0 Hd0 Hle' Hne' Hrs' Hvs Hfs Hrd' Hvd Hfd];
      world_simpl; cbn [snapshot wallets emit] in *.
    + destruct H0; simplify_eq.
    + simplify_eq. congruence.
    + exfalso. apply (Hv rs); [exact Hrs|simplify_eq; reflexivity].
    + rewrite (F eq_refl). simplify_eq. cbn [bump apply_update WalletRow.balance] in Hfs.
      cbv zeta. rewrite Hfs. split; reflexivity.
    + exfalso. destruct Hd as [Hd|Hd]; [contradiction|].
      apply (Hd rd); [exact Hrd|simplify_eq; reflexivity].
    + rewrite (F eq_refl). simplify_eq. cbn [bump apply_update WalletRow.balance] in Hfs, Hfd.
      cbv zeta. rewrite Hfs, Hfd. split; reflexivity.
    + rewrite F. simplify_eq. cbn [bump apply_update WalletRow.balance] in Hfs, Hfd.
      cbv zeta. rewrite Hfs, Hfd. split; reflexivity.
  - intros balance amount. split; [apply rounded_add_units|apply rounded_sub_units].
Qed.

Lemma settlement_applies_on_every_delivery_witness :
  outcome (processDeposit job_deposit_a calm world_deposit_settled) = Resolved tt ∧
  wallets (final (processDeposit job_deposit_a calm world_deposit_settled)) =
    <["a" := WalletRow.mk "u1" 200 true 2]> (wallets world_deposit_settled).
Proof.
  destruct settlement_applies_on_every_delivery as (Hd & _ & _).
  apply (Hd job_deposit_a calm world_deposit_settled (WalletRow.mk "u1" 150 true 1)).
  - reflexivity.
  - vm_compute. reflexivity.
Defined.

(** A deposit of half a unit more than 2 units into a wallet holding 150 is
    stored as 153: the column cannot hold the half. *)
Example settlement_rounds_to_the_column :
  balance_of "a"
    (final (processDeposit (SingleJob.mk "a" (5 # 2) None "t1") calm world_deposit_settled)) =
    Some 153.
Proof. vm_compute. reflexivity. Qed.

(** A deposit that takes the balance out of the column's range is rejected by
    the store; the balance stays and the row is FAILED. *)
Example settlement_out_of_range_is_rejected :
  let job := SingleJob.mk "a" (inject_Z (10 ^ 20)) None "t1" in
  outcome (processDeposit job calm world_deposit_settled) =
    Rejected (PrismaError "P2020" []) ∧
  balance_of "a" (final (processDeposit job calm world_deposit_settled)) = Some 150 ∧
  status_of "t1" (final (processDeposit job calm world_deposit_settled)) = Some FAILED.
Proof. vm_compute. repeat split; reflexivity. Qed.

(** The deposit of 50 into "a" is settled, its row COMPLETED and the balance
    150; delivering the same job once more takes the balance to 200 and the
    version from 1 to 2. *)
Lemma settled_deposit_is_applied_again :
  status_of "t1" world_deposit_settled = Some COMPLETED ∧
  balance_of "a" world_deposit_settled = Some 150 ∧
  version_of "a" world_deposit_settled = Some 1 ∧
  outcome (handle (JobDeposit job_deposit_a) calm world_deposit_settled) = Resolved tt ∧
  balance_of "a" (final (handle (JobDeposit job_deposit_a) calm world_deposit_settled)) =
    Some 200 ∧
  version_of "a" (final (handle (JobDeposit job_deposit_a) calm world_deposit_settled)) =
    Some 2.
Proof. vm_compute. repeat split; reflexivity. Qed.

(** ** The order of the two updates of a transfer *)

(** A transfer that commits at its first, undisturbed attempt issues its
    statements in this order: one read of both rows, listing the ids sorted,
    then the update of the source, then the update of the destination. *)
Lemma transfer_statement_order d env s rs rd :
  env 0%nat = quiet →
  TransferJob.sourceWalletId d ≠ TransferJob.destinationWalletId d →
  wallets s !! TransferJob.sourceWalletId d = Some rs →
  wallets s !! TransferJob.destinationWalletId d = Some rd →
  short (WalletRow.balance rs) (TransferJob.amount d) = false →
  in_range (WalletRow.balance (bump (decrement (TransferJob.amount d)) rs)) = true →
  in_range (WalletRow.balance (bump (increment (TransferJob.amount d)) rd)) = true →
  trace (final (processTransfer d env s)) =
    trace s ++
      [TxBegin;
       WalletFindMany (Array_sort [TransferJob.sourceWalletId d;
                                   TransferJob.destinationWalletId d]);
       WalletUpdate (TransferJob.sourceWalletId d);
       WalletUpdate (TransferJob.destinationWalletId d)].
Proof.
  intros Henv Hne Hrs Hrd Hle Hfs Hfd.
  unfold processTransfer, try_catch.
  pose proof (executeTransaction_first_attempt (processTransfer_tx d) env s) as F.
  rewrite Henv in F. specialize (F eq_refl). rewrite set_wallets_same in F.
  pose proof (processTransfer_tx_cases d (mkTx (wallets s)) (emit TxBegin s)) as C.
  destruct C as [H0|rs0 rd0 Hs0 Hd0 Hlt|rs0 rd0 Hs0 Hd0 Hle' Hv
                |rs0 rd0 rs' Hs0 Hd0 Hle' Hrs' Hvs Hfs'
                |rs0 rd0 rs' Hs0 Hd0 Hle' Hrs' Hvs Hfs' Hd
                |rs0 rd0 rs' rd' Hs0 Hd0 Hle' Hne' Hrs' Hvs Hfs' Hrd' Hvd Hfd'
                |rs0 rd0 rs' rd' Hs0 Hd0 Hle' Hne' Hrs' Hvs Hfs' Hrd' Hvd Hfd'];
    world_simpl; cbn [snapshot wallets emit] in *.
  - destruct H0; simplify_eq.
  - simplify_eq. congruence.
  - exfalso. apply (Hv rs); [exact Hrs|simplify_eq; reflexivity].
  - simplify_eq. congruence.
  - exfalso. destruct Hd as [Hd|Hd]; [contradiction|].
    apply (Hd rd); [exact Hrd|simplify_eq; reflexivity].
  - simplify_eq. congruence.
  - rewrite F. unfold settled_transfer. world_simpl. rewrite <- app_assoc. reflexivity.
Qed.

(** C3: a transfer from "b" to "a". The ids sorted are "a", "b"; the handler
    lists them sorted in its one read, but it updates, and so locks, the
    source "b" first and the destination "a" second. *)
Theorem transfer_updates_source_before_destination :
  outcome (handle (JobTransfer job_transfer_b_a) calm world_funded) = Resolved tt ∧
  Array_sort ["b"; "a"] = ["a"; "b"] ∧
  trace (final (handle (JobTransfer job_transfer_b_a) calm world_funded)) =
    [TxBegin; WalletFindMany ["a"; "b"]; WalletUpdate "b"; WalletUpdate "a"] ∧
  updates (trace (final (handle (JobTransfer job_transfer_b_a) calm world_funded))) =
    ["b"; "a"].
Proof. vm_compute. repeat split; reflexivity. Qed.

(** ** Insufficient funds *)

(** The attempt at which the retry loop ends: the first one that is not
    retried. *)
Lemma executeTransaction_ends_at {T} (fn : TxClient → Promise T) (env : nat → Attempt)
    (s : World) (i : nat) :
  plain_callback fn →
  (i < 3)%nat →
  (∀ j, (j < i)%nat → retried (attempt_at fn env j s) = true) →
  retried (attempt_at fn env i s) = false →
  executeTransaction fn env defaultMaxRetries s = attempt_at fn env i s.
Proof.
  intros Hfn Hi Hbefore Hlast.
  destruct (loop_attempts fn env s Hfn 2 0%nat Undefined) as (k & Hk & Hj & _ & Hr).
  cbn [world_at] in Hr.
  assert (k = i) as ->.
  { destruct (lt_eq_lt_dec k i) as [[Hlt|Heq]|Hgt]; [|exact Heq|].
    - rewrite (Hbefore k Hlt) in Hr. lia.
    - rewrite Hj in Hlast by lia. discriminate. }
  rewrite Hlast in Hr. apply Hr.
Qed.

(** A rejected attempt leaves the wallets as the other workers' writes made
    them. *)
Lemma rejected_attempt_wallets {T} (fn : TxClient → Promise T) (a : Attempt) (s : World) e :
  outcome (interactive_transaction fn a s) = Rejected e →
  wallets (final (interactive_transaction fn a s)) = wallets s ∨
  wallets (final (interactive_transaction fn a s)) = concurrent a (wallets s).
Proof.
  unfold interactive_transaction.
  destruct (fault a) as [[[|] e0]|]; [left; reflexivity| |];
    destruct (fn _ _) as [[v|e'] s2]; cbn; intros H; try discriminate; right; reflexivity.
Qed.

Lemma world_at_wallets {T} (fn : TxClient → Promise T) (env : nat → Attempt) (s : World) (i : nat) :
  undisturbed env →
  (∀ j, (j < i)%nat → retried (attempt_at fn env j s) = true) →
  wallets (world_at fn env i s) = wallets s.
Proof.
  intros Hu. induction i as [|i IH]; intros Hbefore; [reflexivity|].
  cbn [world_at]. world_simpl.
  specialize (Hbefore i ltac:(lia)) as Hr. unfold retried in Hr.
  fold (attempt_at fn env i s).
  destruct (outcome (attempt_at fn env i s)) as [v|e] eqn:Ho; [discriminate|].
  destruct (rejected_attempt_wallets fn (env i) (world_at fn env i s) e Ho) as [E|E];
    unfold attempt_at; rewrite E, ?Hu; apply IH; intros j Hj; apply Hbefore; lia.
Qed.

(** C5, as amended: a withdrawal request with a transactionId the ledger does
    not hold yet, for more than the balance the read path reports, is
    rejected with 'Insufficient funds' before any ledger row is written:
    wallets, ledger and queue are as before, and no FAILED row is produced.
    When a withdrawal job is settled and an attempt that the store lets begin
    (the first one, or a later one reached because every attempt before it
    met a transient failure of the store) reads a stored balance less than
    the amount, the handler is rejected with the same error after that
    attempt, writes to no wallet row (the table is left as other workers'
    writes made it, and as it was when no other worker writes), and marks
    the job's ledger row FAILED. *)
Theorem insufficient_funds_leaves_wallet_untouched :
  (∀ uuidv4 enqueue dto s b,
     row_of (default uuidv4 (WithdrawFundsDto.transactionId dto)) s = None →
     seen_balance (WithdrawFundsDto.walletId dto) s = Some b →
     (b < WithdrawFundsDto.amount dto)%Q →
     outcome (withdrawFunds uuidv4 enqueue dto s) =
       Rejected (BadRequestException "Insufficient funds") ∧
     wallets (final (withdrawFunds uuidv4 enqueue dto s)) = wallets s ∧
     transactions (final (withdrawFunds uuidv4 enqueue dto s)) = transactions s ∧
     queue (final (withdrawFunds uuidv4 enqueue dto s)) = queue s) ∧
  (∀ d env s i r,
     (i < 3)%nat →
     (∀ j, (j < i)%nat → retried (attempt_at (processWithdrawal_tx d) env j s) = true) →
     (∀ e, fault (env i) ≠ Some (AtBegin, e)) →
     wallets (world_at (processWithdrawal_tx d) env i s) !! SingleJob.walletId d = Some r →
     (Decimal.of_units (WalletRow.balance r) < SingleJob.amount d)%Q →
     outcome (processWithdrawal d env s) = Rejected (BadRequestException "Insufficient funds") ∧
     wallets (final (processWithdrawal d env s)) =
       concurrent (env i) (wallets (world_at (processWithdrawal_tx d) env i s)) ∧
     (undisturbed env → wallets (final (processWithdrawal d env s)) = wallets s) ∧
     transactions (final (processWithdrawal d env s)) =
       List.map (fun row =>
                   if bool_decide (Transaction.transactionId row = SingleJob.transactionId d)
                   then Transaction.with_status FAILED row else row)
                (transactions s)).
Proof.
  split.
  - intros uuidv4 enqueue dto s b Hnone Hb Hlt.
    pose proof (getWalletBalance_frame (WithdrawFundsDto.walletId dto) s) as (Fw & Ft & Fq & _).
    pose proof (getWalletBalance_spec (WithdrawFundsDto.walletId dto) s) as EB.
    rewrite Hb in EB. apply lt_spec in Hlt.
    assert (E : withdrawFunds uuidv4 enqueue dto s =
                (Rejected (BadRequestException "Insufficient funds"),
                 final (getWalletBalance (WithdrawFundsDto.walletId dto) s))).
    { unfold withdrawFunds, bind, transaction_findUnique. unfold row_of in Hnone.
      rewrite Hnone, EB. cbn beta iota. rewrite Hlt. reflexivity. }
    rewrite E. cbn [final outcome fst snd] in *. repeat split; assumption.
  - intros d env s i r Hi Hbefore Hbegin Hr Hlt.
    apply lt_spec in Hlt. fold (short (WalletRow.balance r) (SingleJob.amount d)) in Hlt.
    set (w := world_at (processWithdrawal_tx d) env i s) in *.
    assert (A : attempt_at (processWithdrawal_tx d) env i s =
                (Rejected (BadRequestException "Insufficient funds"),
                 set_wallets (concurrent (env i))
                   (emit (WalletFindUnique (SingleJob.walletId d)) (emit TxBegin w)))).
    { unfold attempt_at, interactive_transaction. fold w.
      pose proof (processWithdrawal_tx_cases d (mkTx (wallets (emit TxBegin w)))
                    (set_wallets (concurrent (env i)) (emit TxBegin w))) as C.
      destruct C as [H0|r0 H0 Hu Hlt'|r0 H0 Hu Hv|r0 r' H0 Hu Hr' Hv Hf|r0 r' H0 Hu Hr' Hv Hf];
        cbn [snapshot wallets emit] in *;
        try (simplify_eq; specialize (Hu eq_refl); congruence).
      destruct (fault (env i)) as [[[|] e]|]; [exfalso; exact (Hbegin e eq_refl)| |];
        reflexivity. }
    assert (E : executeTransaction (processWithdrawal_tx d) env defaultMaxRetries s =
                attempt_at (processWithdrawal_tx d) env i s).
    { apply executeTransaction_ends_at; [apply (job_tx_plain (JobWithdrawal d))|exact Hi|
                                         exact Hbefore|rewrite A; reflexivity]. }
    pose proof (handle_ledger (JobWithdrawal d) env s) as [Hl _].
    cbn [handle job_key] in Hl.
    revert Hl. unfold processWithdrawal, try_catch. rewrite E, A.
    unfold bind, transaction_updateMany, throw. world_simpl. intros Hl.
    split; [reflexivity|]. split; [reflexivity|]. split; [|exact Hl].
    intros Hu. rewrite Hu. subst w. apply world_at_wallets; assumption.
Qed.

Lemma insufficient_funds_leaves_wallet_untouched_witness :
  outcome (withdrawFunds "g11" None (WithdrawFundsDto.mk "a" 1000 None (Some "t9"))
                         world_deposit_settled) =
    Rejected (BadRequestException "Insufficient funds") ∧
  outcome (processWithdrawal (SingleJob.mk "a" 1000 None "t2") env_hiccup
                             world_withdrawal_requested) =
    Rejected (BadRequestException "Insufficient funds") ∧
  wallets (final (processWithdrawal (SingleJob.mk "a" 1000 None "t2") env_hiccup
                                    world_withdrawal_requested)) =
    wallets world_withdrawal_requested.
Proof.
  destruct insufficient_funds_leaves_wallet_untouched as (Hreq & Hset).
  split.
  - apply (Hreq "g11" None (WithdrawFundsDto.mk "a" 1000 None (Some "t9"))
                world_deposit_settled 150%Q).
    + vm_compute. reflexivity.
    + vm_compute. reflexivity.
    + vm_compute. reflexivity.
  - destruct (Hset (SingleJob.mk "a" 1000 None "t2") env_hiccup world_withdrawal_requested
                   1%nat (WalletRow.mk "u1" 150 true 1)) as (H1 & _ & H2 & _).
    + lia.
    + intros j Hj. assert (j = 0%nat) as -> by lia. vm_compute. reflexivity.
    + intros e. vm_compute. discriminate.
    + vm_compute. reflexivity.
    + vm_compute. reflexivity.
    + split; [exact H1|]. apply H2. intros [|j] ws; reflexivity.
Defined.

(** A request to withdraw 1000 from "a", whose balance is 150: it is rejected
    and the ledger holds no row for it, FAILED or otherwise. *)
Lemma overdraft_request_creates_no_row :
  balance_of "a" world_deposit_settled = Some 150 ∧
  outcome (withdrawFunds "g11" None (WithdrawFundsDto.mk "a" 1000 None (Some "t9"))
                         world_deposit_settled) =
    Rejected (BadRequestException "Insufficient funds") ∧
  row_of "t9" (final (withdrawFunds "g11" None (WithdrawFundsDto.mk "a" 1000 None (Some "t9"))
                                    world_deposit_settled)) = None ∧
  ¬ Exists (fun row => Transaction.status row = FAILED)
      (transactions (final (withdrawFunds "g11" None
                                          (WithdrawFundsDto.mk "a" 1000 None (Some "t9"))
                                          world_deposit_settled))).
Proof.
  vm_compute. repeat split; try reflexivity.
  intros H. apply Exists_exists in H. destruct H as (row & Hin & Hst).
  apply list_elem_of_In in Hin. destruct Hin as [<-|[]]. discriminate Hst.
Qed.

(** ** Wallet invariants *)

Lemma transferFunds_wallets uuid_out uuid_in enqueue dto s :
  wallets (final (transferFunds uuid_out uuid_in enqueue dto s)) = wallets s.
Proof.
  unfold transferFunds, bind, transaction_findMany.
  destruct (0 <? length _)%nat; [reflexivity|].
  destruct (getWallet_cases (TransferFundsDto.sourceWalletId dto) s)
    as [(r1 & _ & _ & E1)|(_ & E1)]; rewrite E1; [|reflexivity].
  destruct (getWallet_cases (TransferFundsDto.destinationWalletId dto) s)
    as [(r2 & _ & _ & E2)|(_ & E2)]; rewrite E2; [|reflexivity].
  pose proof (getWalletBalance_frame (TransferFundsDto.sourceWalletId dto) s) as (Fw & _).
  destruct (getWalletBalance (TransferFundsDto.sourceWalletId dto) s) as [[b|e] s1];
    cbn [final snd] in Fw; [|exact Fw].
  destruct (Decimal.lt b (TransferFundsDto.amount dto)); [exact Fw|].
  match goal with |- context [batch_transaction [transaction_create ?a; transaction_create ?b] s1] =>
    destruct (transfer_batch_cases a b s1) as [Eb|(e & s2 & Eb & _ & Hw2 & _)]; rewrite Eb
  end.
  - unfold queue_add, modify, throw. destruct enqueue; exact Fw.
  - cbn [final snd]. congruence.
Qed.

(** The operations other than settlement change no balance and no version,
    and delete no row. *)
Lemma request_keeps_balances (op : Operation) (s : World) id r :
  wallets s !! id = Some r →
  match op with
  | OpHandle _ _ => True
  | _ =>
      ∃ r', wallets (step op s) !! id = Some r' ∧
            WalletRow.balance r' = WalletRow.balance r ∧
            WalletRow.version r' = WalletRow.version r ∧
            (WalletRow.isActive r = false → WalletRow.isActive r' = false)
  end.
Proof.
  intros Hr.
  destruct op as [cuid dto|w|w|u q dto|u q dto|u1 u2 q dto|w|job env]; cbn [step]; [..|exact I].
  - destruct (createWallet_cases cuid dto s) as [(e & E)|(Hfresh & _ & E)]; rewrite E;
      cbn [final snd wallets].
    + exists r. repeat split; auto.
    + exists r. rewrite lookup_insert_ne by congruence. repeat split; auto.
  - destruct (getWallet_cases w s) as [(r1 & _ & _ & E)|(_ & E)]; rewrite E;
      exists r; repeat split; auto.
  - destruct (getWalletBalance_frame w s) as (Fw & _). rewrite Fw.
    exists r; repeat split; auto.
  - destruct (depositFunds_cases u q dto s) as [(o & E)|(_ & E)]; rewrite E;
      [|destruct q]; exists r; repeat split; auto.
  - destruct (getWalletBalance_frame (WithdrawFundsDto.walletId dto) s) as (Fw & _).
    destruct (withdrawFunds_cases u q dto s) as [(o & E)|[(o & E & _)|(b & _ & _ & E)]];
      rewrite E; [| |destruct q]; cbn [final snd wallets]; rewrite ?Fw;
      exists r; repeat split; auto.
  - rewrite transferFunds_wallets. exists r; repeat split; auto.
  - pose proof (deactivateWallet_spec w s) as E.
    destruct (wallets s !! w) as [rw|] eqn:Hw;
      [|rewrite E; exists r; repeat split; auto].
    destruct (WalletRow.isActive rw); [|rewrite E; exists r; repeat split; auto].
    cbn zeta in E. destruct (Decimal.gt _ _); rewrite E; cbn [final snd wallets].
    + destruct (getWalletBalance_frame w s) as (Fw & _). rewrite Fw.
      exists r; repeat split; auto.
    + destruct (decide (w = id)) as [->|Hne].
      * rewrite lookup_insert_eq. assert (rw = r) by congruence. subst rw.
        exists (deactivated r). repeat split; auto.
      * rewrite lookup_insert_ne by exact Hne. exists r; repeat split; auto.
Qed.

Lemma committed_write_nonneg job f ws ws' :
  (0 <= job_amount job)%Q → disciplined f → nonneg ws →
  committed_write job ws (f ws) ws' → nonneg ws'.
Proof.
  intros Hamt Hf Hnn Hcw id r' Hr'.
  destruct (Hf ws) as [Hfn Hfrow]. specialize (Hfn Hnn).
  destruct (Hcw id) as [Hsame|(r0 & r & u & H0 & Hr & Hv & Hafter & _ & Hu)].
  - apply (Hfn id). congruence.
  - rewrite Hafter in Hr'. injection Hr' as <-.
    destruct (Hfrow id r0 H0) as (r'' & Hr'' & Hbal & _).
    assert (r'' = r) by congruence. subst r''.
    specialize (Hbal Hv). specialize (Hfn id r Hr).
    unfold bump. cbn [WalletRow.balance].
    apply apply_update_nonneg with (amount := job_amount job); [exact Hfn|exact Hamt|].
    rewrite Hbal. exact Hu.
Qed.

Lemma step_nonneg (op : Operation) (s : World) :
  admissible op → nonneg (wallets s) → nonneg (wallets (step op s)).
Proof.
  intros Hadm Hnn.
  destruct op as [cuid dto|w|w|u q dto|u q dto|u1 u2 q dto|w|job env].
  - cbn [step]. cbn [admissible] in Hadm.
    destruct (createWallet_cases cuid dto s) as [(e & E)|(Hfresh & _ & E)]; rewrite E;
      cbn [final snd wallets]; [exact Hnn|].
    intros id r. destruct (decide (cuid = id)) as [->|Hne].
    + rewrite lookup_insert_eq. intros [= <-]. cbn [WalletRow.balance].
      apply rounded_nonneg. exact Hadm.
    + rewrite lookup_insert_ne by exact Hne. apply Hnn.
  - cbn [step]. destruct (getWallet_cases w s) as [(r1 & _ & _ & E)|(_ & E)]; rewrite E; exact Hnn.
  - cbn [step]. destruct (getWalletBalance_frame w s) as (Fw & _). rewrite Fw. exact Hnn.
  - cbn [step]. destruct (depositFunds_cases u q dto s) as [(o & E)|(_ & E)]; rewrite E;
      [|destruct q]; exact Hnn.
  - cbn [step]. destruct (getWalletBalance_frame (WithdrawFundsDto.walletId dto) s) as (Fw & _).
    destruct (withdrawFunds_cases u q dto s) as [(o & E)|[(o & E & _)|(b & _ & _ & E)]];
      rewrite E; [| |destruct q]; cbn [final snd wallets]; rewrite ?Fw; exact Hnn.
  - cbn [step]. rewrite transferFunds_wallets. exact Hnn.
  - intros id r' Hr'.
    destruct (wallets s !! id) as [r|] eqn:Hr.
    + destruct (request_keeps_balances (OpDeactivateWallet w) s id r Hr) as (r'' & Hr'' & Hb & _).
      assert (r'' = r') by congruence. subst r''. rewrite Hb. apply (Hnn id r Hr).
    + exfalso. cbn [step] in Hr'.
      pose proof (deactivateWallet_spec w s) as E.
      destruct (wallets s !! w) as [rw|] eqn:Hw; [|rewrite E in Hr'; cbn in Hr'; congruence].
      destruct (WalletRow.isActive rw); [|rewrite E in Hr'; cbn in Hr'; congruence].
      cbn zeta in E. destruct (Decimal.gt _ _); rewrite E in Hr'; cbn [final snd wallets] in Hr'.
      * destruct (getWalletBalance_frame w s) as (Fw & _). rewrite Fw in Hr'. congruence.
      * destruct (decide (w = id)) as [->|Hne]; [congruence|].
        rewrite lookup_insert_ne in Hr' by exact Hne. congruence.
  - cbn [step]. destruct Hadm as [Hamt Hdisc].
    pose proof (handle_wallets_rule job env s nonneg nonneg Hnn) as R.
    assert (R1 : ∀ i ws, nonneg ws → nonneg (concurrent (env i) ws))
      by (intros i ws; apply (Hdisc i ws)).
    assert (R2 : ∀ i ws ws', nonneg ws →
                   committed_write job ws (concurrent (env i) ws) ws' → nonneg ws')
      by (intros i ws ws' H1 H2; eapply committed_write_nonneg; eauto).
    specialize (R R1 R2). destruct (outcome (handle job env s)); exact R.
Qed.

Lemma stays_inactive_refl ws : stays_inactive ws ws.
Proof. intros id r Hr Ha. eauto. Qed.

Lemma stays_inactive_trans ws1 ws2 ws3 :
  stays_inactive ws1 ws2 → stays_inactive ws2 ws3 → stays_inactive ws1 ws3.
Proof.
  intros H12 H23 id r Hr Ha.
  destruct (H12 id r Hr Ha) as (r2 & Hr2 & Ha2). eapply H23; eassumption.
Qed.

Lemma disciplined_stays_inactive f ws : disciplined f → stays_inactive ws (f ws).
Proof.
  intros Hf id r Hr Ha. destruct (Hf ws) as [_ Hrow].
  destruct (Hrow id r Hr) as (r' & Hr' & _ & Hi). eauto.
Qed.

Lemma committed_write_stays_inactive job seen before after :
  committed_write job seen before after → stays_inactive before after.
Proof.
  intros Hcw id r Hr Ha.
  destruct (Hcw id) as [Hsame|(r0 & r1 & u & _ & Hr1 & _ & Hafter & _)].
  - exists r. split; [congruence|exact Ha].
  - assert (r1 = r) by congruence. subst r1.
    exists (bump u r). split; [exact Hafter|exact Ha].
Qed.

Lemma step_stays_inactive (op : Operation) (s : World) :
  admissible op → stays_inactive (wallets s) (wallets (step op s)).
Proof.
  intros Hadm.
  destruct op as [cuid dto|w|w|u q dto|u q dto|u1 u2 q dto|w|job env];
    try (intros id r Hr Ha;
         match goal with |- context [step ?op s] =>
           destruct (request_keeps_balances op s id r Hr) as (r' & Hr' & _ & _ & Hi)
         end; eauto).
  destruct Hadm as [_ Hdisc]. cbn [step].
  pose proof (handle_wallets_rule job env s (stays_inactive (wallets s))
                (stays_inactive (wallets s)) (stays_inactive_refl _)) as R.
  assert (R1 : ∀ i ws, stays_inactive (wallets s) ws →
                 stays_inactive (wallets s) (concurrent (env i) ws)).
  { intros i ws H. eapply stays_inactive_trans; [exact H|].
    apply disciplined_stays_inactive, Hdisc. }
  assert (R2 : ∀ i ws ws', stays_inactive (wallets s) ws →
                 committed_write job ws (concurrent (env i) ws) ws' →
                 stays_inactive (wallets s) ws').
  { intros i ws ws' H Hcw. eapply stays_inactive_trans; [exact H|].
    eapply stays_inactive_trans; [apply disciplined_stays_inactive, Hdisc|].
    eapply committed_write_stays_inactive; exact Hcw. }
  specialize (R R1 R2). destruct (outcome (handle job env s)); exact R.
Qed.

(** With no other writer, one delivery of a job changes a wallet row by at
    most one committed write. *)
Lemma handle_single_write (job : Job) (env : nat → Attempt) (s : World) :
  undisturbed env →
  committed_write job (wallets s) (wallets s) (wallets (final (handle job env s))).
Proof.
  intros Hu.
  pose proof (handle_wallets_rule job env s (fun ws => ws = wallets s)
                (fun ws' => committed_write job (wallets s) (wallets s) ws') eq_refl) as R.
  assert (R1 : ∀ i ws, ws = wallets s → concurrent (env i) ws = wallets s)
    by (intros i ws ->; apply Hu).
  assert (R2 : ∀ i ws ws', ws = wallets s →
                 committed_write job ws (concurrent (env i) ws) ws' →
                 committed_write job (wallets s) (wallets s) ws')
    by (intros i ws ws' -> H; rewrite Hu in H; exact H).
  specialize (R R1 R2).
  destruct (outcome (handle job env s)); [exact R|].
  rewrite R. intros id. left. reflexivity.
Qed.

Lemma disciplined_quiet : disciplined (concurrent quiet).
Proof.
  intros ws. split; [intros H; exact H|].
  intros id r Hr. exists r. repeat split; auto.
Qed.

Lemma nonneg_checked (ws : gmap string WalletRow.t) :
  bool_decide (map_Forall (fun _ r => 0 ≤ WalletRow.balance r) ws) = true → nonneg ws.
Proof. intros H. apply bool_decide_eq_true in H. exact H. Qed.

(** C8, as amended. (1) Every operation keeps every balance non-negative,
    for non-negative amounts and concurrent writers that keep to the same
    discipline. (2) A balance changes only inside a committed settlement
    write, which adds or subtracts the job's amount, stores the result
    rounded to the column's 8 decimal places and within its range, and
    increases the version by exactly 1: with no other writer, one delivery of
    a job leaves a wallet row as it was or changes it by exactly one such
    write, and the other operations change no balance and no version. (3) On
    the request side a wallet with isActive = false is refused: depositFunds
    and transferFunds (past the replay check) and deactivateWallet are
    rejected as not found and change nothing. *)
Theorem wallet_invariants_of_operations :
  (∀ op s, admissible op → nonneg (wallets s) → nonneg (wallets (step op s))) ∧
  (∀ op s id r,
     wallets s !! id = Some r →
     match op with
     | OpHandle job env =>
         undisturbed env →
         wallets (step op s) !! id = Some r ∨
         ∃ balance,
           (balance = rounded (Decimal.of_units (WalletRow.balance r) + job_amount job) ∨
            balance = rounded (Decimal.of_units (WalletRow.balance r) - job_amount job)) ∧
           in_range balance = true ∧
           wallets (step op s) !! id =
             Some (WalletRow.mk (WalletRow.userId r) balance
                                (WalletRow.isActive r) (WalletRow.version r + 1))
     | _ =>
         ∃ r', wallets (step op s) !! id = Some r' ∧
               WalletRow.balance r' = WalletRow.balance r ∧
               WalletRow.version r' = WalletRow.version r
     end) ∧
  (∀ id s r,
     wallets s !! id = Some r → WalletRow.isActive r = false →
     (∀ uuidv4 enqueue dto,
        DepositFundsDto.walletId dto = id →
        row_of (default uuidv4 (DepositFundsDto.transactionId dto)) s = None →
        depositFunds uuidv4 enqueue dto s =
          (Rejected (NotFoundException "Wallet not found"), s)) ∧
     (∀ uuid_out uuid_in enqueue dto,
        TransferFundsDto.sourceWalletId dto = id ∨
        TransferFundsDto.destinationWalletId dto = id →
        rows_of_reference (TransferFundsDto.referenceId dto) s = [] →
        transferFunds uuid_out uuid_in enqueue dto s =
          (Rejected (NotFoundException "Wallet not found"), s)) ∧
     deactivateWallet id s = (Rejected (NotFoundException "Wallet not found"), s)).
Proof.
  split; [exact step_nonneg|]. split.
  - intros op s id r Hr.
    pose proof (request_keeps_balances op s id r Hr) as H.
    destruct op as [cuid dto|w|w|u q dto|u q dto|u1 u2 q dto|w|job env];
      try (destruct H as (r' & Hr' & Hb & Hv & _); exists r'; repeat split; assumption).
    clear H. intros Hu. cbn [step].
    destruct (handle_single_write job env s Hu id)
      as [Hsame|(r0 & r1 & u & _ & Hr1 & _ & Ha & Hf & Hk)].
    + left. congruence.
    + right. assert (r1 = r) by congruence. subst r1.
      exists (WalletRow.balance (bump u r)). split; [|split; [exact Hf|exact Ha]].
      destruct Hk as [->|[-> _]]; [left|right]; reflexivity.
  - intros id s r Hr Ha.
    assert (G : getWallet id s = (Rejected (NotFoundException "Wallet not found"), s))
      by (eapply getWallet_inactive; eassumption).
    split; [|split].
    + intros uuidv4 enqueue dto Hw Hnone.
      unfold depositFunds, bind, transaction_findUnique. unfold row_of in Hnone.
      rewrite Hnone, Hw, G. reflexivity.
    + intros uuid_out uuid_in enqueue dto Hside Hnone.
      unfold transferFunds, bind, transaction_findMany. unfold rows_of_reference in Hnone.
      rewrite Hnone. cbn [length Nat.ltb Nat.leb].
      destruct (decide (TransferFundsDto.sourceWalletId dto = id)) as [Hs|Hs].
      * rewrite Hs, G. reflexivity.
      * destruct Hside as [Hside|Hd]; [contradiction|]. rewrite Hd.
        destruct (getWallet_cases (TransferFundsDto.sourceWalletId dto) s)
          as [(r1 & _ & _ & E1)|(_ & E1)]; rewrite E1, ?G; reflexivity.
    + pose proof (deactivateWallet_spec id s) as E. rewrite Hr, Ha in E. exact E.
Qed.

Lemma wallet_invariants_of_operations_witness :
  nonneg (wallets (step (OpHandle (JobWithdrawal (SingleJob.mk "a" 30 None "t2")) calm)
                        world_withdrawal_requested)) ∧
  (wallets (step (OpHandle (JobWithdrawal (SingleJob.mk "a" 30 None "t2")) calm)
                 world_withdrawal_requested) !! "a" = Some (WalletRow.mk "u1" 150 true 1) ∨
   ∃ balance,
     (balance = rounded (Decimal.of_units 150 + 30) ∨
      balance = rounded (Decimal.of_units 150 - 30)) ∧
     in_range balance = true ∧
     wallets (step (OpHandle (JobWithdrawal (SingleJob.mk "a" 30 None "t2")) calm)
                   world_withdrawal_requested) !! "a" =
       Some (WalletRow.mk "u1" balance true (1 + 1))) ∧
  deactivateWallet "b" world_b_deactivated =
    (Rejected (NotFoundException "Wallet not found"), world_b_deactivated).
Proof.
  destruct wallet_invariants_of_operations as (H1 & H2 & H3).
  split; [|split].
  - apply H1.
    + split; [vm_compute; discriminate|]. intros i. apply disciplined_quiet.
    + apply nonneg_checked. vm_compute. reflexivity.
  - apply (H2 (OpHandle (JobWithdrawal (SingleJob.mk "a" 30 None "t2")) calm)
              world_withdrawal_requested "a" (WalletRow.mk "u1" 150 true 1)).
    + vm_compute. reflexivity.
    + intros i ws. reflexivity.
  - apply (H3 "b" world_b_deactivated (WalletRow.mk "u2" 0 false 0)).
    + vm_compute. reflexivity.
    + reflexivity.
Defined.

(** "b" is deactivated with a deposit still pending; when the job is
    delivered the handler credits the deactivated wallet. *)
Lemma deactivated_wallet_is_credited_by_settlement :
  active_of "b" world_b_deactivated_with_pending_deposit = Some false ∧
  balance_of "b" world_b_deactivated_with_pending_deposit = Some 0 ∧
  outcome (handle (JobDeposit job_deposit_b) calm world_b_deactivated_with_pending_deposit) =
    Resolved tt ∧
  active_of "b" (final (handle (JobDeposit job_deposit_b) calm
                               world_b_deactivated_with_pending_deposit)) = Some false ∧
  balance_of "b" (final (handle (JobDeposit job_deposit_b) calm
                                world_b_deactivated_with_pending_deposit)) = Some 50 ∧
  version_of "b" (final (handle (JobDeposit job_deposit_b) calm
                                world_b_deactivated_with_pending_deposit)) = Some 1.
Proof. vm_compute. repeat split; reflexivity. Qed.

(** ** Deactivation *)

(** X26: deactivateWallet decides on the balance the read path reports,
    which is the cached value when the cache holds one and the stored balance
    only otherwise. For an active wallet, when that balance is positive the
    call is rejected and the wallets table is unchanged (isActive stays
    true); when it is not positive the call resolves, sets isActive = false,
    changing neither balance nor version, and deletes the wallet's cache
    entry. No operation makes a deactivated wallet active again. *)
Theorem deactivation_guard_uses_read_path :
  (∀ id s r,
     wallets s !! id = Some r → WalletRow.isActive r = true →
     let seen := default (Decimal.of_units (WalletRow.balance r)) (redis s !! balance_key id) in
     ((0 < seen)%Q →
      outcome (deactivateWallet id s) =
        Rejected (BadRequestException "Cannot deactivate wallet with non-zero balance") ∧
      wallets (final (deactivateWallet id s)) = wallets s) ∧
     ((seen <= 0)%Q →
      outcome (deactivateWallet id s) =
        Resolved (Wallet.mk id (WalletRow.userId r) (WalletRow.balance r) false
                            (WalletRow.version r)) ∧
      wallets (final (deactivateWallet id s)) =
        <[id := WalletRow.mk (WalletRow.userId r) (WalletRow.balance r) false
                             (WalletRow.version r)]> (wallets s) ∧
      redis (final (deactivateWallet id s)) !! balance_key id = None)) ∧
  (∀ op s id r,
     admissible op →
     wallets s !! id = Some r → WalletRow.isActive r = false →
     ∃ r', wallets (step op s) !! id = Some r' ∧ WalletRow.isActive r' = false).
Proof.
  split.
  - intros id s r Hr Ha seen.
    pose proof (deactivateWallet_spec id s) as E. rewrite Hr, Ha in E. cbn zeta in E.
    fold seen in E. unfold Decimal.gt in E. split.
    + intros Hpos. apply lt_spec in Hpos. rewrite Hpos in E. rewrite E.
      cbn [final outcome fst snd]. split; [reflexivity|]. apply getWalletBalance_frame.
    + intros Hle. apply lt_false in Hle. rewrite Hle in E. rewrite E.
      cbn [final outcome fst snd wallets redis]. repeat split.
      apply lookup_delete_eq.
  - intros op s id r Hadm Hr Ha. exact (step_stays_inactive op s Hadm id r Hr Ha).
Qed.

Lemma deactivation_guard_uses_read_path_witness :
  (outcome (deactivateWallet "b" world_two_wallets) =
     Resolved (Wallet.mk "b" "u2" 0 false 0) ∧
   wallets (final (deactivateWallet "b" world_two_wallets)) =
     <["b" := WalletRow.mk "u2" 0 false 0]> (wallets world_two_wallets) ∧
   redis (final (deactivateWallet "b" world_two_wallets)) !! balance_key "b" = None) ∧
  (outcome (deactivateWallet "a" world_two_wallets) =
     Rejected (BadRequestException "Cannot deactivate wallet with non-zero balance") ∧
   wallets (final (deactivateWallet "a" world_two_wallets)) = wallets world_two_wallets) ∧
  ∃ r', wallets (step (OpHandle (JobDeposit job_deposit_b) calm)
                      world_b_deactivated_with_pending_deposit) !! "b" = Some r' ∧
        WalletRow.isActive r' = false.
Proof.
  destruct deactivation_guard_uses_read_path as (H1 & H2).
  split; [|split].
  - destruct (H1 "b" world_two_wallets (WalletRow.mk "u2" 0 true 0)) as (_ & Hzero).
    + vm_compute. reflexivity.
    + reflexivity.
    + apply Hzero. vm_compute. discriminate.
  - destruct (H1 "a" world_two_wallets (WalletRow.mk "u1" 100 true 0)) as (Hpos & _).
    + vm_compute. reflexivity.
    + reflexivity.
    + apply Hpos. vm_compute. reflexivity.
  - apply (H2 (OpHandle (JobDeposit job_deposit_b) calm)
              world_b_deactivated_with_pending_deposit "b" (WalletRow.mk "u2" 0 false 0)).
    + split; [vm_compute; discriminate|]. intros i. apply disciplined_quiet.
    + vm_compute. reflexivity.
    + reflexivity.
Defined.

(** C9: the guard of deactivateWallet, commented 'check if wallet has zero
    balance' and answering 'Cannot deactivate wallet with non-zero balance',
    does not check the wallet's balance but what the cache holds for it. The
    store holds 100 for "a" while the cache holds 0, written by the callback
    of a withdrawal whose commit was then lost: deactivateWallet resolves,
    and "a" is deactivated while holding 100. *)
Theorem funded_wallet_is_deactivated_on_stale_cache :
  balance_of "a" world_commit_lost = Some 100 ∧
  active_of "a" world_commit_lost = Some true ∧
  redis world_commit_lost !! balance_key "a" = Some 0%Q ∧
  outcome (deactivateWallet "a" world_commit_lost) =
    Resolved (Wallet.mk "a" "u1" 100 false 0) ∧
  active_of "a" (final (deactivateWallet "a" world_commit_lost)) = Some false ∧
  balance_of "a" (final (deactivateWallet "a" world_commit_lost)) = Some 100.
Proof. vm_compute. repeat split; reflexivity. Qed.

(** * Further properties *)

(** ** Creating a wallet *)

Lemma createWallet_spec cuid dto s :
  createWallet cuid dto s =
    let b := default 0%Q (CreateWalletDto.initialBalance dto) in
    if in_range (rounded b)
    then
      match wallets s !! cuid with
      | Some _ => (Rejected (PrismaError "P2002" ["id"]), s)
      | None =>
          if bool_decide (map_Exists (fun _ r => WalletRow.userId r = CreateWalletDto.userId dto)
                                     (wallets s))
          then (Rejected (PrismaError "P2002" ["user_id"]), s)
          else
            let r := WalletRow.mk (CreateWalletDto.userId dto) (rounded b) true 0 in
            (Resolved (WalletRow.entity cuid r),
             mkWorld (<[cuid := r]> (wallets s)) (transactions s)
                     (<[balance_key cuid := b]> (redis s)) (queue s) (trace s))
      end
    else (Rejected (PrismaError "P2020" []), s).
Proof.
  unfold createWallet, try_catch, bind, wallet_create. cbv zeta.
  destruct (in_range (rounded _)); cbn [negb]; [|reflexivity].
  destruct (wallets s !! cuid) eqn:Hc; [reflexivity|].
  destruct (bool_decide (map_Exists _ (wallets s))); reflexivity.
Qed.

(** X1: a user who already holds a wallet, active or deactivated, cannot get a
    second one: createWallet is rejected and changes nothing. The rejection
    is the store's own unique-constraint error, P2002 naming the column
    user_id, and not ConflictException('User already has a wallet'): the
    catch clause looks for the field name userId in the error's target, which
    the store never reports, so createWallet never throws the
    ConflictException at all. *)
Theorem createWallet_rejects_second_wallet (cuid : string) (dto : CreateWalletDto.t)
    (s : World) (id : string) (r : WalletRow.t) :
  wallets s !! id = Some r →
  WalletRow.userId r = CreateWalletDto.userId dto →
  (∃ e, createWallet cuid dto s = (Rejected e, s)) ∧
  (wallets s !! cuid = None →
   in_range (rounded (default 0%Q (CreateWalletDto.initialBalance dto))) = true →
   createWallet cuid dto s = (Rejected (PrismaError "P2002" ["user_id"]), s)) ∧
  (∀ cuid' dto' s' message,
     outcome (createWallet cuid' dto' s') ≠ Rejected (ConflictException message)).
Proof.
  intros Hr Hu.
  assert (Hex : bool_decide (map_Exists (fun _ r => WalletRow.userId r = CreateWalletDto.userId dto)
                                        (wallets s)) = true).
  { apply bool_decide_eq_true_2. exists id, r. split; assumption. }
  split; [|split].
  - rewrite createWallet_spec. cbv zeta. rewrite Hex.
    destruct (in_range _); [|eauto]. destruct (wallets s !! cuid); eauto.
  - intros Hfresh Hf. rewrite createWallet_spec. cbv zeta. rewrite Hf, Hfresh, Hex. reflexivity.
  - intros cuid' dto' s' message. rewrite createWallet_spec. cbv zeta.
    destruct (in_range _); [|cbn; discriminate].
    destruct (wallets s' !! cuid'); [cbn; discriminate|].
    destruct (bool_decide (map_Exists _ (wallets s'))); cbn; discriminate.
Qed.

Lemma createWallet_rejects_second_wallet_witness :
  createWallet "c" (CreateWalletDto.mk "u2" (Some 5%Q)) world_b_deactivated =
    (Rejected (PrismaError "P2002" ["user_id"]), world_b_deactivated).
Proof.
  destruct (createWallet_rejects_second_wallet "c" (CreateWalletDto.mk "u2" (Some 5%Q))
              world_b_deactivated "b" (WalletRow.mk "u2" 0 false 0)) as (_ & H & _).
  - vm_compute. reflexivity.
  - reflexivity.
  - apply H; vm_compute; reflexivity.
Defined.

(** X2: for a user without a wallet, a fresh id and an initial balance within
    the column's range, createWallet resolves to an active wallet with
    version 0 whose balance is the requested one as the column stores it,
    rounded to 8 decimal places (0 when none is given); getWallet then
    returns this wallet. getWalletBalance returns the requested balance as
    it was given, from the cache, which is the stored balance when the
    request is a whole number of units. The ledger, the queue and every
    other wallet are untouched. An initial balance out of the column's range
    is rejected by the store (P2020) and nothing changes. *)
Theorem created_wallet_is_readable (cuid : string) (dto : CreateWalletDto.t) (s : World) :
  wallets s !! cuid = None →
  (∀ id r, wallets s !! id = Some r → WalletRow.userId r ≠ CreateWalletDto.userId dto) →
  let b := default 0%Q (CreateWalletDto.initialBalance dto) in
  let w := Wallet.mk cuid (CreateWalletDto.userId dto) (rounded b) true 0 in
  let s' := final (createWallet cuid dto s) in
  (in_range (rounded b) = true →
   outcome (createWallet cuid dto s) = Resolved w ∧
   getWallet cuid s' = (Resolved w, s') ∧
   getWalletBalance cuid s' = (Resolved b, s') ∧
   (at_scale b → getWalletBalance cuid s' = (Resolved (Decimal.of_units (Wallet.balance w)), s')) ∧
   transactions s' = transactions s ∧
   queue s' = queue s ∧
   (∀ id, id ≠ cuid → wallets s' !! id = wallets s !! id)) ∧
  (in_range (rounded b) = false →
   createWallet cuid dto s = (Rejected (PrismaError "P2020" []), s)).
Proof.
  intros Hfresh Hnew b w s'. subst s'.
  rewrite createWallet_spec, Hfresh. cbv zeta. fold b.
  rewrite bool_decide_eq_false_2.
  2:{ intros (id & r & Hr & Hu). exact (Hnew id r Hr Hu). }
  split; intros Hf; rewrite Hf; [|reflexivity].
  cbn [final outcome fst snd transactions queue wallets].
  split; [reflexivity|]. split.
  { apply (getWallet_active cuid _ (WalletRow.mk (CreateWalletDto.userId dto) (rounded b) true 0)).
    - cbn [wallets]. apply lookup_insert_eq.
    - reflexivity. }
  assert (G : ∀ s0 (b0 : Decimal.t), redis s0 !! balance_key cuid = Some b0 →
                    getWalletBalance cuid s0 = (Resolved b0, s0)).
  { intros s0 b0 H0. unfold getWalletBalance, bind, redis_get. rewrite H0. reflexivity. }
  split; [apply G; cbn [redis]; apply lookup_insert_eq|].
  split.
  { intros Hb. subst w. cbn [Wallet.balance]. rewrite <- Hb.
    apply G. cbn [redis]. apply lookup_insert_eq. }
  split; [reflexivity|]. split; [reflexivity|].
  intros id Hne. apply lookup_insert_ne. congruence.
Qed.

Lemma created_wallet_is_readable_witness :
  outcome (createWallet "c" (CreateWalletDto.mk "u3" None) world_two_wallets) =
    Resolved (Wallet.mk "c" "u3" 0 true 0) ∧
  outcome (getWalletBalance "c"
             (final (createWallet "c" (CreateWalletDto.mk "u3" None) world_two_wallets))) =
    Resolved 0%Q.
Proof.
  destruct (created_wallet_is_readable "c" (CreateWalletDto.mk "u3" None) world_two_wallets)
    as ((H1 & _ & H3 & _) & _).
  - vm_compute. reflexivity.
  - change (map_Forall (fun _ r => WalletRow.userId r ≠ "u3") (wallets world_two_wallets)).
    refine (bool_decide_unpack _ _). vm_compute. exact I.
  - vm_compute. reflexivity.
  - split; [exact H1|]. cbv zeta in H3. rewrite H3. reflexivity.
Defined.

(** A wallet created with two and a half units holds 3, while the read path
    reports the two and a half the cache was given. *)
Example created_wallet_caches_the_request :
  let s' := final (createWallet "c" (CreateWalletDto.mk "u3" (Some (5 # 2))) world_two_wallets) in
  balance_of "c" s' = Some 3 ∧
  outcome (getWalletBalance "c" s') = Resolved (5 # 2).
Proof. vm_compute. split; reflexivity. Qed.

(** ** How operations change wallet rows *)

Lemma request_wallets (op : Operation) (s : World) :
  match op with
  | OpGetWallet _ | OpGetWalletBalance _ | OpDepositFunds _ _ _
  | OpWithdrawFunds _ _ _ | OpTransferFunds _ _ _ _ => wallets (step op s) = wallets s
  | _ => True
  end.
Proof.
  destruct op as [cuid dto|w|w|u q dto|u q dto|u1 u2 q dto|w|job env]; cbn [step]; try exact I.
  - destruct (getWallet_cases w s) as [(r1 & _ & _ & E)|(_ & E)]; rewrite E; reflexivity.
  - apply getWalletBalance_frame.
  - destruct (depositFunds_cases u q dto s) as [(o & E)|(_ & E)]; rewrite E;
      [|destruct q]; reflexivity.
  - destruct (getWalletBalance_frame (WithdrawFundsDto.walletId dto) s) as (Fw & _).
    destruct (withdrawFunds_cases u q dto s) as [(o & E)|[(o & E & _)|(b & _ & _ & E)]];
      rewrite E; [| |destruct q]; cbn [final snd wallets]; rewrite ?Fw; reflexivity.
  - apply transferFunds_wallets.
Qed.

Lemma step_row_change (op : Operation) (s : World) (id : string) :
  unaccompanied op →
  row_change op (wallets s) id (wallets (step op s) !! id).
Proof.
  intros Hu.
  destruct op as [cuid dto|w|w|u q dto|u q dto|u1 u2 q dto|w|job env];
    try (match goal with |- context [step ?op s] =>
           pose proof (request_wallets op s) as E; cbn beta iota in E
         end; rewrite E; apply row_same).
  - cbn [step]. rewrite createWallet_spec. cbv zeta.
    destruct (in_range _); [|apply row_same].
    destruct (wallets s !! cuid) eqn:Hc; [apply row_same|].
    destruct (bool_decide _) eqn:Hex; [apply row_same|].
    apply bool_decide_eq_false in Hex. cbn [final snd wallets].
    destruct (decide (cuid = id)) as [->|Hne].
    + rewrite lookup_insert_eq. apply row_created; [reflexivity|exact Hc|].
      intros id' r Hr Heq. apply Hex. exists id', r. split; assumption.
    + rewrite lookup_insert_ne by exact Hne. apply row_same.
  - cbn [step]. pose proof (deactivateWallet_spec w s) as E.
    destruct (wallets s !! w) as [rw|] eqn:Hw; [|rewrite E; apply row_same].
    destruct (WalletRow.isActive rw); [|rewrite E; apply row_same].
    cbn zeta in E. destruct (Decimal.gt _ _); rewrite E; cbn [final snd wallets].
    + destruct (getWalletBalance_frame w s) as (Fw & _). rewrite Fw. apply row_same.
    + destruct (decide (w = id)) as [->|Hne].
      * rewrite lookup_insert_eq. apply row_deactivated; [reflexivity|exact Hw].
      * rewrite lookup_insert_ne by exact Hne. apply row_same.
  - cbn [step]. cbn in Hu.
    destruct (handle_single_write job env s Hu id)
      as [Hsame|(r0 & r & u & H0 & Hr & Hv & Hafter & _ & Hupd)].
    + rewrite Hsame. apply row_same.
    + rewrite Hafter. eapply row_bumped; [reflexivity|exact Hr|].
      destruct Hupd as [->|[-> _]]; auto.
Qed.

(** The user of a row an operation leaves behind: the user the row had, or the
    user of the request that created it. *)
Lemma row_change_user op before id r' :
  row_change op before id (Some r') →
  (∃ r, before !! id = Some r ∧ WalletRow.userId r' = WalletRow.userId r) ∨
  (before !! id = None ∧
   ∀ id0 r0, before !! id0 = Some r0 → WalletRow.userId r0 ≠ WalletRow.userId r').
Proof.
  intros H. inversion H as [E|r Eop Hr E|job env r u Eop Hr Hupd E|dto Eop Hr Hfresh E].
  - left. exists r'. split; [exact E|reflexivity].
  - left. exists r. split; [exact Hr|reflexivity].
  - left. exists r. split; [exact Hr|reflexivity].
  - right. split; [exact Hr|]. exact Hfresh.
Qed.

Lemma row_change_kept op before id r :
  before !! id = Some r → ∀ o, row_change op before id o →
  ∃ r', o = Some r' ∧ WalletRow.userId r' = WalletRow.userId r.
Proof.
  intros Hr o H. destruct H as [|r1 Eop Hr1|job env r1 u Eop Hr1 Hupd|dto Eop Hr1 Hfresh].
  - exists r. split; [exact Hr|reflexivity].
  - assert (r1 = r) by congruence. subst. eexists. split; reflexivity.
  - assert (r1 = r) by congruence. subst. eexists. split; reflexivity.
  - congruence.
Qed.

(** X3: no operation gives a user a second wallet. If no two rows of the
    wallets table have the same [userId], this is still so after any operation
    of the service or the processor (with no other writer during a
    settlement). *)
Theorem one_wallet_per_user (op : Operation) (s : World) :
  unaccompanied op →
  unique_users (wallets s) →
  unique_users (wallets (step op s)).
Proof.
  intros Hu Huniq id1 r1 H1 id2 r2 H2 Heq.
  pose proof (step_row_change op s id1 Hu) as C1. rewrite H1 in C1.
  pose proof (step_row_change op s id2 Hu) as C2. rewrite H2 in C2.
  apply row_change_user in C1, C2.
  destruct C1 as [(q1 & Hq1 & E1)|(N1 & F1)], C2 as [(q2 & Hq2 & E2)|(N2 & F2)].
  - eapply Huniq; [exact Hq1|exact Hq2|congruence].
  - exfalso. eapply F2; [exact Hq1|congruence].
  - exfalso. eapply F1; [exact Hq2|congruence].
  - destruct (decide (id1 = id2)) as [|Hne]; [assumption|exfalso].
    (* two rows created by one operation: only createWallet creates, and one row *)
    pose proof (step_row_change op s id1 Hu) as C1. rewrite H1 in C1.
    pose proof (step_row_change op s id2 Hu) as C2. rewrite H2 in C2.
    inversion C1; try congruence. inversion C2; congruence.
Qed.

Lemma one_wallet_per_user_witness :
  unique_users (wallets (step (OpHandle (JobDeposit job_deposit_a) calm) world_deposit_requested)).
Proof.
  apply (one_wallet_per_user (OpHandle (JobDeposit job_deposit_a) calm) world_deposit_requested).
  - intros i ws. reflexivity.
  - change (map_Forall (fun id1 r1 =>
              map_Forall (fun id2 r2 =>
                WalletRow.userId r1 = WalletRow.userId r2 → id1 = id2)
                (wallets world_deposit_requested))
              (wallets world_deposit_requested)).
    refine (bool_decide_unpack _ _). vm_compute. exact I.
Defined.

(** ** Listing a user's wallets *)

#[local] Instance newer_first_trans createdAt : Transitive (newer_first createdAt).
Proof. intros a b c. unfold newer_first. lia. Qed.

#[local] Instance newer_first_total createdAt : Total (newer_first createdAt).
Proof. intros a b. unfold newer_first. lia. Qed.

(** X4: getWalletsByUserId returns exactly the active wallets of the user,
    each once, newest first, and changes nothing. *)
Theorem getWalletsByUserId_lists_active_wallets (createdAt : string → Z) (userId : string)
    (s : World) :
  ∃ l, getWalletsByUserId createdAt userId s = (Resolved l, s) ∧
       (∀ w, w ∈ l ↔
             ∃ r, wallets s !! Wallet.id w = Some r ∧ w = WalletRow.entity (Wallet.id w) r ∧
                  WalletRow.userId r = userId ∧ WalletRow.isActive r = true) ∧
       NoDup (Wallet.id <$> l) ∧
       StronglySorted (newer_first createdAt) l.
Proof.
  eexists. split; [reflexivity|]. split; [|split].
  - intros w. rewrite merge_sort_Permutation, list_elem_of_fmap. split.
    + intros ([id r] & -> & Hin). apply list_elem_of_filter in Hin as [[Hu Ha] Hin].
      apply elem_of_map_to_list in Hin. cbn in *. eauto.
    + intros (r & Hr & Hw & Hu & Ha). exists (Wallet.id w, r). split; [exact Hw|].
      apply list_elem_of_filter. split; [split; assumption|].
      apply elem_of_map_to_list. exact Hr.
  - rewrite merge_sort_Permutation, <- list_fmap_compose.
    eapply NoDup_fmap_2_strong.
    + intros [id1 r1] [id2 r2] H1 H2 E. cbn in E. subst id2.
      apply list_elem_of_filter in H1 as [_ H1], H2 as [_ H2].
      apply elem_of_map_to_list in H1, H2. congruence.
    + apply NoDup_filter, NoDup_map_to_list.
  - apply StronglySorted_merge_sort; apply _.
Qed.

Lemma filter_at_most_one {A} (P : A → Prop) `{∀ x, Decision (P x)} (l : list A) (x : A) :
  NoDup l → (∀ y, y ∈ l → P y → y = x) → x ∈ l →
  filter P l = if decide (P x) then [x] else [].
Proof.
  intros Hnd Hall Hx.
  assert (Hsub : ∀ y, y ∈ filter P l → y = x).
  { intros y Hy. apply list_elem_of_filter in Hy as [Hp Hy]. auto. }
  pose proof (NoDup_filter P l Hnd) as Hnd'.
  assert (Hin : x ∈ filter P l ↔ P x).
  { rewrite list_elem_of_filter. tauto. }
  destruct (filter P l) as [|a [|b t]].
  - rewrite decide_False; [reflexivity|].
    rewrite <- Hin. apply not_elem_of_nil.
  - assert (a = x) by (apply Hsub; left). subst a.
    rewrite decide_True; [reflexivity|]. apply Hin. left.
  - exfalso. assert (a = x) by (apply Hsub; left).
    assert (b = x) by (apply Hsub; right; left). subst.
    apply NoDup_cons in Hnd' as [Hni _]. apply Hni. left.
Qed.

(** X5: with one wallet per user, the list has at most one entry: the user's
    wallet if it is active, and nothing once it is deactivated. *)
Theorem getWalletsByUserId_of_owner (createdAt : string → Z) (s : World)
    (id : string) (r : WalletRow.t) :
  unique_users (wallets s) →
  wallets s !! id = Some r →
  getWalletsByUserId createdAt (WalletRow.userId r) s =
    (Resolved (if WalletRow.isActive r then [WalletRow.entity id r] else []), s).
Proof.
  intros Huniq Hr. unfold getWalletsByUserId, wallet_findMany_by_user.
  rewrite (filter_at_most_one _ _ (id, r)).
  - cbn [fst snd]. destruct (WalletRow.isActive r).
    + rewrite decide_True by (split; reflexivity). reflexivity.
    + rewrite decide_False by (intros [_ ?]; discriminate). reflexivity.
  - apply NoDup_map_to_list.
  - intros [id' r'] Hin [Hu _]. apply elem_of_map_to_list in Hin. cbn in Hu.
    assert (id' = id) by (eapply Huniq; eassumption). subst id'.
    congruence.
  - apply elem_of_map_to_list. exact Hr.
Qed.

Lemma getWalletsByUserId_of_owner_witness :
  getWalletsByUserId (fun _ => 0) "u2" world_b_deactivated = (Resolved [], world_b_deactivated).
Proof.
  apply (getWalletsByUserId_of_owner (fun _ => 0) world_b_deactivated "b"
           (WalletRow.mk "u2" 0 false 0)).
  - change (map_Forall (fun id1 r1 =>
              map_Forall (fun id2 r2 =>
                WalletRow.userId r1 = WalletRow.userId r2 → id1 = id2)
                (wallets world_b_deactivated))
              (wallets world_b_deactivated)).
    refine (bool_decide_unpack _ _). vm_compute. exact I.
  - vm_compute. reflexivity.
Defined.

(** ** The retry loop for any callback and any number of attempts *)




(** X7: executeTransaction is all-or-nothing on the tables, whatever the
    callback does and whatever failures the store reports, when no other
    worker writes in between: if it is rejected, the wallets and the ledger
    are as before the call, however many attempts were made; if it resolves,
    the result and the world are those of one run of the callback on the
    tables as they were before the call. *)
Theorem executeTransaction_is_atomic {T} (fn : TxClient → Promise T) (env : nat → Attempt)
    (maxRetries : nat) (s : World) :
  undisturbed env →
  match executeTransaction fn env maxRetries s with
  | (Resolved v, s') =>
      ∃ s0, wallets s0 = wallets s ∧ transactions s0 = transactions s ∧
            fn (mkTx (wallets s)) s0 = (Resolved v, s')
  | (Rejected _, s') => wallets s' = wallets s ∧ transactions s' = transactions s
  end.
Proof.
  intros Hu. unfold executeTransaction.
  apply (loop_rule fn
           (fun s' => wallets s' = wallets s ∧ transactions s' = transactions s)
           (fun v s' => ∃ s0, wallets s0 = wallets s ∧ transactions s0 = transactions s ∧
                              fn (mkTx (wallets s)) s0 = (Resolved v, s'))).
  - intros ms s0 H. exact H.
  - intros i s0 [Hw Ht]. apply attempt_rule.
    + split; assumption.
    + intros o s2 E. world_simpl. rewrite Hu. split; [split; assumption|].
      intros v ->. eexists. rewrite Hw in E. split; [|split; [|exact E]].
      * world_simpl. rewrite Hu. exact Hw.
      * exact Ht.
  - split; reflexivity.
Qed.

Lemma executeTransaction_is_atomic_witness :
  match executeTransaction (job_tx (JobWithdrawal job_withdraw_all)) env_timeout 3
          world_two_wallets with
  | (Resolved v, s') =>
      ∃ s0, wallets s0 = wallets world_two_wallets ∧
            transactions s0 = transactions world_two_wallets ∧
            job_tx (JobWithdrawal job_withdraw_all) (mkTx (wallets world_two_wallets)) s0 =
              (Resolved v, s')
  | (Rejected _, s') =>
      wallets s' = wallets world_two_wallets ∧
      transactions s' = transactions world_two_wallets
  end.
Proof.
  apply (executeTransaction_is_atomic (job_tx (JobWithdrawal job_withdraw_all)) env_timeout 3
           world_two_wallets).
  intros i ws. reflexivity.
Defined.

(** ** Settlement, exactly *)

Lemma balance_key_inj a b : balance_key a = balance_key b → a = b.
Proof. unfold balance_key. cbn. intros H. simplify_eq. reflexivity. Qed.

Lemma insert_as_alter (f : WalletRow.t → WalletRow.t) (ws : gmap string WalletRow.t) i r :
  ws !! i = Some r → <[i := f r]> ws = alter f i ws.
Proof.
  intros H. apply map_eq. intros j. destruct (decide (i = j)) as [->|Hne].
  - rewrite lookup_insert_eq, lookup_alter_eq, H. reflexivity.
  - rewrite lookup_insert_ne, lookup_alter_ne by exact Hne. reflexivity.
Qed.

(** The callback of a job on the table it has read: it resolves exactly when
    the job is covered, and then has applied the job's updates and refreshed
    the cache of its wallets. *)
Lemma job_tx_exact (job : Job) (tx : TxClient) (s1 : World) :
  wallets s1 = snapshot tx →
  match job_tx job tx s1 with
  | (Resolved _, s2) =>
      covered job (snapshot tx) ∧ wallets s2 = settle job (snapshot tx) ∧ cache_fresh job s2
  | (Rejected _, _) => ¬ covered job (snapshot tx)
  end.
Proof.
  intros Hw. destruct job as [d|d|d]; cbn [job_tx covered settle].
  - pose proof (processDeposit_tx_cases d tx s1) as H.
    destruct H as [H0|r0 H0 Hu Hlt|r0 H0 Hu Hv|r0 r H0 Hu Hr Hv Hf|r0 r H0 Hu Hr Hv Hf].
    + rewrite H0. tauto.
    + discriminate.
    + exfalso. apply (Hv r0); [congruence|reflexivity].
    + assert (r = r0) by congruence. subst r. rewrite H0. congruence.
    + assert (r = r0) by congruence. subst r. rewrite H0. split; [exact Hf|].
      unfold settled_single.
      split.
      * world_simpl. rewrite Hw. apply insert_as_alter. exact H0.
      * intros id Hid. apply list_elem_of_singleton in Hid. subst id. world_simpl.
        rewrite !lookup_insert_eq. reflexivity.
  - pose proof (processWithdrawal_tx_cases d tx s1) as H.
    destruct H as [H0|r0 H0 Hu Hlt|r0 H0 Hu Hv|r0 r H0 Hu Hr Hv Hf|r0 r H0 Hu Hr Hv Hf].
    + rewrite H0. tauto.
    + rewrite H0. intros [Hs _]. congruence.
    + exfalso. apply (Hv r0); [congruence|reflexivity].
    + assert (r = r0) by congruence. subst r. rewrite H0. intros [_ Hf']. congruence.
    + assert (r = r0) by congruence. subst r. rewrite H0.
      split; [split; [apply Hu; reflexivity|exact Hf]|]. unfold settled_single.
      split.
      * world_simpl. rewrite Hw. apply insert_as_alter. exact H0.
      * intros id Hid. apply list_elem_of_singleton in Hid. subst id. world_simpl.
        rewrite !lookup_insert_eq. reflexivity.
  - pose proof (processTransfer_tx_cases d tx s1) as H.
    destruct H as [[H0|H0]|rs0 rd0 Hs0 Hd0 Hlt|rs0 rd0 Hs0 Hd0 Hle Hv
                  |rs0 rd0 rs Hs0 Hd0 Hle Hrs Hvs Hfs
                  |rs0 rd0 rs Hs0 Hd0 Hle Hrs Hvs Hfs Hv
                  |rs0 rd0 rs rd Hs0 Hd0 Hle Hne Hrs Hvs Hfs Hrd Hvd Hfd
                  |rs0 rd0 rs rd Hs0 Hd0 Hle Hne Hrs Hvs Hfs Hrd Hvd Hfd].
    + rewrite H0. tauto.
    + rewrite H0. intros [_ H]. destruct (snapshot tx !! TransferJob.sourceWalletId d); exact H.
    + rewrite Hs0, Hd0. intros [_ [Hs _]]. congruence.
    + exfalso. apply (Hv rs0); [congruence|reflexivity].
    + assert (rs = rs0) by congruence. subst rs.
      rewrite Hs0, Hd0. intros [_ (_ & Hf' & _)]. congruence.
    + destruct Hv as [Heq|Hv]; [tauto|].
      exfalso. apply (Hv rd0); [congruence|reflexivity].
    + assert (rs = rs0) by congruence. assert (rd = rd0) by congruence. subst rs rd.
      rewrite Hs0, Hd0. intros [_ (_ & _ & Hf')]. congruence.
    + assert (rs = rs0) by congruence. assert (rd = rd0) by congruence. subst rs rd.
      rewrite Hs0, Hd0. split; [repeat split; assumption|]. unfold settled_transfer.
      split.
      * world_simpl. rewrite Hw.
        rewrite (insert_as_alter _ _ _ _ Hs0).
        apply insert_as_alter. rewrite lookup_alter_ne by exact Hne. exact Hd0.
      * intros id Hid. world_simpl.
        apply elem_of_cons in Hid as [->|Hid].
        -- rewrite lookup_insert_ne by (intros E; apply balance_key_inj in E; congruence).
           rewrite lookup_insert_eq.
           rewrite lookup_insert_ne by congruence. rewrite lookup_insert_eq. reflexivity.
        -- apply list_elem_of_singleton in Hid. subst id.
           rewrite !lookup_insert_eq. reflexivity.
Qed.

(** One delivery of a job with no other writer, whatever failures the store
    reports: the wallets are as before, or exactly the job's updates. *)
Lemma handle_exact (job : Job) (env : nat → Attempt) (s : World) :
  undisturbed env →
  match outcome (handle job env s) with
  | Resolved _ =>
      covered job (wallets s) ∧
      wallets (final (handle job env s)) = settle job (wallets s) ∧
      cache_fresh job (final (handle job env s))
  | Rejected _ => wallets (final (handle job env s)) = wallets s
  end.
Proof.
  intros Hu. rewrite handle_unfold. unfold try_catch, executeTransaction.
  pose proof (loop_rule (job_tx job)
                (fun s' => wallets s' = wallets s)
                (fun _ s' => covered job (wallets s) ∧ wallets s' = settle job (wallets s) ∧
                             cache_fresh job s') env) as L.
  specialize (L ltac:(intros ms s0 H; exact H)).
  assert (A : ∀ i s0, wallets s0 = wallets s →
             match interactive_transaction (job_tx job) (env i) s0 with
             | (Resolved _, s') =>
                 covered job (wallets s) ∧ wallets s' = settle job (wallets s) ∧
                 cache_fresh job s'
             | (Rejected _, s') => wallets s' = wallets s
             end).
  { intros i s0 Hw. apply attempt_rule; [exact Hw|].
    intros o s2 E.
    pose proof (job_tx_exact job (mkTx (wallets s0))
                  (set_wallets (concurrent (env i)) (emit TxBegin s0))) as X.
    rewrite E in X. world_simpl. cbn [snapshot wallets emit set_wallets] in X. rewrite Hu in *.
    split; [exact Hw|]. intros v ->. rewrite Hw in X. apply X. reflexivity. }
  specialize (L A defaultMaxRetries 0%nat Undefined s eq_refl).
  destruct (executeTransaction_loop (job_tx job) env defaultMaxRetries 0 Undefined s)
    as [[v|e] s'].
  - exact L.
  - unfold bind, transaction_updateMany, throw. world_simpl. exact L.
Qed.

(** X8: a settlement is all-or-nothing and applied at most once per delivery,
    whatever failures the store reports and however many attempts are made,
    when no other worker writes in between. If the handler resolves, the job
    was covered by the wallets as they were (the wallets exist, the debited
    one holds the amount, every new balance is within the column's range),
    the table is the old one with the job's updates applied once (each new
    balance the sum or difference rounded to the column's 8 decimal places,
    versions up by 1), the cache holds the new balances as stored and the
    job's rows are COMPLETED. If it is rejected, no wallet row has changed
    and the job's rows are FAILED. The queue is untouched. *)
Theorem settlement_is_all_or_nothing (job : Job) (env : nat → Attempt) (s : World) :
  undisturbed env →
  match outcome (handle job env s) with
  | Resolved _ =>
      covered job (wallets s) ∧
      wallets (final (handle job env s)) = settle job (wallets s) ∧
      cache_fresh job (final (handle job env s)) ∧
      transactions (final (handle job env s)) = mark (job_key job) COMPLETED (transactions s)
  | Rejected _ =>
      wallets (final (handle job env s)) = wallets s ∧
      transactions (final (handle job env s)) = mark (job_key job) FAILED (transactions s)
  end ∧
  queue (final (handle job env s)) = queue s.
Proof.
  intros Hu. pose proof (handle_exact job env s Hu) as H.
  pose proof (handle_ledger job env s) as [Hl Hq].
  split; [|exact Hq].
  destruct (outcome (handle job env s)).
  - destruct H as (Hc & Hw & Hf). repeat split; assumption.
  - split; assumption.
Qed.

Lemma settlement_is_all_or_nothing_witness :
  match outcome (handle (JobTransfer job_transfer_b_a) env_hiccup world_funded) with
  | Resolved _ =>
      covered (JobTransfer job_transfer_b_a) (wallets world_funded) ∧
      wallets (final (handle (JobTransfer job_transfer_b_a) env_hiccup world_funded)) =
        settle (JobTransfer job_transfer_b_a) (wallets world_funded) ∧
      cache_fresh (JobTransfer job_transfer_b_a)
        (final (handle (JobTransfer job_transfer_b_a) env_hiccup world_funded)) ∧
      transactions (final (handle (JobTransfer job_transfer_b_a) env_hiccup world_funded)) =
        mark (job_key (JobTransfer job_transfer_b_a)) COMPLETED (transactions world_funded)
  | Rejected _ =>
      wallets (final (handle (JobTransfer job_transfer_b_a) env_hiccup world_funded)) =
        wallets world_funded ∧
      transactions (final (handle (JobTransfer job_transfer_b_a) env_hiccup world_funded)) =
        mark (job_key (JobTransfer job_transfer_b_a)) FAILED (transactions world_funded)
  end ∧
  queue (final (handle (JobTransfer job_transfer_b_a) env_hiccup world_funded)) =
    queue world_funded.
Proof.
  apply (settlement_is_all_or_nothing (JobTransfer job_transfer_b_a) env_hiccup world_funded).
  intros [|i] ws; reflexivity.
Defined.

(** ** When a settlement goes through *)

Lemma loop_settles (job : Job) (env : nat → Attempt) (s : World) :
  undisturbed env →
  ∀ n i lastError s0, wallets s0 = wallets s →
    outcome (executeTransaction_loop (job_tx job) env n i lastError s0) = Resolved tt ↔
    covered job (wallets s) ∧ is_Some (commit_attempt env n i).
Proof.
  intros Hu. induction n as [|n IH]; intros i lastError s0 Hw.
  - cbn. split; [discriminate|]. intros [_ [k [=]]].
  - cbn [executeTransaction_loop commit_attempt]. unfold try_catch, interactive_transaction.
    cbn zeta.
    set (tx := mkTx (wallets (emit TxBegin s0))).
    set (s1 := set_wallets (concurrent (env i)) (emit TxBegin s0)).
    assert (Hs1 : wallets s1 = wallets s) by (subst s1; world_simpl; rewrite Hu; exact Hw).
    assert (Hsnap : snapshot tx = wallets s) by exact Hw.
    pose proof (job_tx_exact job tx s1) as X. rewrite Hsnap in X. specialize (X Hs1).
    pose proof (job_tx_plain job tx s1) as (_ & _ & Hnr).
    destruct (fault (env i)) as [[[|] e]|].
    + destruct (retryable e).
      * unfold bind, modify. apply IH. exact Hw.
      * cbn. split; [discriminate|]. intros [_ [k [=]]].
    + destruct (job_tx job tx s1) as [[[]|e'] s2]; cbn [outcome fst] in Hnr.
      * destruct (retryable e).
        -- unfold bind, modify. apply IH. exact Hs1.
        -- cbn. split; [discriminate|]. intros [_ [k [=]]].
      * rewrite (Hnr e' eq_refl). cbn. split; [discriminate|]. intros [Hc _]. tauto.
    + destruct (job_tx job tx s1) as [[[]|e'] s2]; cbn [outcome fst] in Hnr.
      * cbn. split; [|reflexivity]. intros _. split; [apply X|eauto].
      * rewrite (Hnr e' eq_refl). cbn. split; [discriminate|]. intros [Hc _]. tauto.
Qed.

(** X9: with no other writer, a settlement handler resolves exactly when the
    job is covered by the wallets as they are (the wallets exist, the debited
    one holds the amount, every new balance, rounded to the column's scale,
    is within the column's range, a transfer has two different wallets) and
    one of the three attempts meets no failure of the store, every attempt
    before it having failed with a retryable error. *)
Theorem settlement_succeeds_iff (job : Job) (env : nat → Attempt) (s : World) :
  undisturbed env →
  outcome (handle job env s) = Resolved tt ↔
  covered job (wallets s) ∧ is_Some (commit_attempt env defaultMaxRetries 0).
Proof.
  intros Hu.
  rewrite <- (loop_settles job env s Hu defaultMaxRetries 0%nat Undefined s eq_refl).
  rewrite handle_unfold. unfold try_catch, executeTransaction.
  destruct (executeTransaction_loop (job_tx job) env defaultMaxRetries 0 Undefined s)
    as [[[]|e] s']; cbn; [tauto|].
  split; discriminate.
Qed.

Lemma settlement_succeeds_iff_witness :
  outcome (handle (JobTransfer job_transfer_b_a) env_hiccup world_funded) = Resolved tt ↔
  covered (JobTransfer job_transfer_b_a) (wallets world_funded) ∧
  is_Some (commit_attempt env_hiccup defaultMaxRetries 0).
Proof.
  apply (settlement_succeeds_iff (JobTransfer job_transfer_b_a) env_hiccup world_funded).
  intros [|i] ws; reflexivity.
Defined.

(** ** Funds are accounted for *)

Lemma total_balance_insert (ws : gmap string WalletRow.t) i r :
  ws !! i = None → total_balance (<[i := r]> ws) = WalletRow.balance r + total_balance ws.
Proof.
  intros H. unfold total_balance. rewrite map_fold_insert_L; [reflexivity| |exact H].
  intros. cbn beta. lia.
Qed.

Lemma total_balance_alter (f : WalletRow.t → WalletRow.t) (ws : gmap string WalletRow.t) i r :
  ws !! i = Some r →
  total_balance (alter f i ws) = total_balance ws + (WalletRow.balance (f r) - WalletRow.balance r).
Proof.
  intros H. rewrite <- (insert_as_alter f ws i r H), <- insert_delete_eq.
  rewrite total_balance_insert by apply lookup_delete_eq.
  unfold total_balance. rewrite (map_fold_delete_L _ _ i r ws); [lia| |exact H].
  intros. lia.
Qed.

Lemma rounded_add_whole (b : Z) (a : Decimal.t) :
  at_scale a → rounded (Decimal.of_units b + a) = b + rounded a.
Proof.
  intros H. unfold at_scale in H. rewrite H, rounded_add_units, rounded_units. reflexivity.
Qed.

Lemma rounded_sub_whole (b : Z) (a : Decimal.t) :
  at_scale a → rounded (Decimal.of_units b - a) = b - rounded a.
Proof.
  intros H. unfold at_scale in H. rewrite H, rounded_sub_units, rounded_units. reflexivity.
Qed.

Lemma total_balance_settle (job : Job) (ws : gmap string WalletRow.t) :
  at_scale (job_amount job) →
  covered job ws → total_balance (settle job ws) = total_balance ws + job_net job.
Proof.
  destruct job as [d|d|d]; cbn [covered settle job_net job_amount]; intros Hs.
  - destruct (ws !! SingleJob.walletId d) as [r|] eqn:Hr; [|tauto]. intros _.
    rewrite (total_balance_alter _ _ _ r Hr). cbn [bump apply_update WalletRow.balance].
    rewrite rounded_add_whole by exact Hs. lia.
  - destruct (ws !! SingleJob.walletId d) as [r|] eqn:Hr; [|tauto]. intros _.
    rewrite (total_balance_alter _ _ _ r Hr). cbn [bump apply_update WalletRow.balance].
    rewrite rounded_sub_whole by exact Hs. lia.
  - intros [Hne H].
    destruct (ws !! TransferJob.sourceWalletId d) as [rs|] eqn:Hsrc; [|tauto].
    destruct (ws !! TransferJob.destinationWalletId d) as [rd|] eqn:Hd; [|tauto].
    rewrite (total_balance_alter _ _ _ rd)
      by (rewrite lookup_alter_ne by exact Hne; exact Hd).
    rewrite (total_balance_alter _ _ _ rs Hsrc). cbn [bump apply_update WalletRow.balance].
    rewrite rounded_add_whole, rounded_sub_whole by exact Hs. lia.
Qed.

(** X10: the sum of all balances changes only by what enters and leaves the
    system: a created wallet adds its initial balance as stored, a settled
    deposit its amount, a settled withdrawal takes its amount away. A
    transfer, settled or failed, and every other operation leave the sum as
    it was. This holds with no other writer during a settlement and for
    settlement amounts that are whole numbers of units (at most 8 decimal
    places); for finer amounts the two updates of a transfer round
    separately and the sum can change. *)
Theorem funds_are_accounted_for (op : Operation) (s : World) :
  unaccompanied op →
  in_units op →
  total_balance (wallets (step op s)) = total_balance (wallets s) + inflow op s.
Proof.
  intros Hu Hs.
  destruct op as [cuid dto|w|w|u q dto|u q dto|u1 u2 q dto|w|job env];
    try (match goal with |- context [step ?op s] =>
           pose proof (request_wallets op s) as E; cbn beta iota in E
         end; rewrite E; cbn [inflow]; lia).
  - cbn [step inflow]. rewrite createWallet_spec. cbv zeta.
    destruct (in_range _); [|cbn; lia].
    destruct (wallets s !! cuid) eqn:Hc; [cbn; lia|].
    destruct (bool_decide _); [cbn; lia|].
    cbn [final outcome fst snd wallets]. rewrite total_balance_insert by exact Hc. cbn. lia.
  - cbn [step inflow]. pose proof (deactivateWallet_spec w s) as E.
    destruct (wallets s !! w) as [rw|] eqn:Hw; [|rewrite E; cbn; lia].
    destruct (WalletRow.isActive rw); [|rewrite E; cbn; lia].
    cbn zeta in E. destruct (Decimal.gt _ _); rewrite E; cbn [final snd wallets].
    + destruct (getWalletBalance_frame w s) as (Fw & _). rewrite Fw. lia.
    + rewrite (insert_as_alter deactivated _ _ _ Hw), (total_balance_alter _ _ _ rw Hw).
      cbn. lia.
  - cbn [step inflow]. cbn in Hu, Hs. pose proof (handle_exact job env s Hu) as H.
    destruct (outcome (handle job env s)).
    + destruct H as (Hc & -> & _). apply total_balance_settle; assumption.
    + rewrite H. lia.
Qed.

Lemma funds_are_accounted_for_witness :
  total_balance (wallets (step (OpHandle (JobTransfer job_transfer_b_a) env_hiccup) world_funded)) =
    total_balance (wallets world_funded) +
    inflow (OpHandle (JobTransfer job_transfer_b_a) env_hiccup) world_funded.
Proof.
  apply (funds_are_accounted_for (OpHandle (JobTransfer job_transfer_b_a) env_hiccup) world_funded).
  - intros [|i] ws; reflexivity.
  - vm_compute. reflexivity.
Defined.

(** A transfer of two and a half units from "b" (80) to "a" (100): the
    source is stored as 78 (77.5 rounded), the destination as 103 (102.5
    rounded), and the sum of the balances has grown by one unit. *)
Example half_unit_transfer_changes_the_sum :
  let job := JobTransfer (TransferJob.mk "b" "a" (5 # 2) None "r2") in
  outcome (handle job calm world_funded) = Resolved tt ∧
  total_balance (wallets world_funded) = 180 ∧
  total_balance (wallets (final (handle job calm world_funded))) = 181.
Proof. vm_compute. repeat split; reflexivity. Qed.

(** ** A transfer from a wallet to itself *)

(** X11: a transfer job whose source and destination are the same wallet is
    never settled, when no other worker writes in between: the handler is
    rejected, no balance changes and the job's rows are FAILED. When the
    wallet exists and holds the amount and the store reports no failure, the
    rejection is the P2025 of the second update, which looks for the version
    read before the first update raised it; unless the first update is
    itself rejected because the debited balance is out of the column's
    range (P2020). *)
Theorem self_transfer_is_never_settled (data : TransferJob.t) (env : nat → Attempt) (s : World) :
  TransferJob.sourceWalletId data = TransferJob.destinationWalletId data →
  undisturbed env →
  (∃ e, outcome (processTransfer data env s) = Rejected e) ∧
  wallets (final (processTransfer data env s)) = wallets s ∧
  transactions (final (processTransfer data env s)) =
    mark (ByReferenceId (TransferJob.referenceId data)) FAILED (transactions s) ∧
  (∀ r, fault (env 0%nat) = None →
        wallets s !! TransferJob.sourceWalletId data = Some r →
        (TransferJob.amount data <= Decimal.of_units (WalletRow.balance r))%Q →
        outcome (processTransfer data env s) =
          Rejected (PrismaError
                      (if in_range (rounded (Decimal.of_units (WalletRow.balance r) -
                                             TransferJob.amount data))
                       then "P2025" else "P2020") [])).
Proof.
  intros Heq Hu.
  pose proof (handle_exact (JobTransfer data) env s Hu) as H.
  pose proof (handle_ledger (JobTransfer data) env s) as [Hl _].
  change (handle (JobTransfer data) env) with (processTransfer data env) in H, Hl.
  destruct (outcome (processTransfer data env s)) as [v|e] eqn:Ho.
  { destruct H as ((Hne & _) & _). contradiction. }
  split; [eauto|]. split; [exact H|]. split; [exact Hl|].
  intros r Hf Hr Hle.
  apply lt_false in Hle. fold (short (WalletRow.balance r) (TransferJob.amount data)) in Hle.
  pose proof (executeTransaction_first_attempt (processTransfer_tx data) env s Hf) as F.
  pose proof (processTransfer_tx_cases data (mkTx (wallets s))
                (set_wallets (concurrent (env 0%nat)) (emit TxBegin s))) as C.
  revert F Ho. unfold processTransfer, try_catch.
  destruct C as [[H0|H0]|rs0 rd0 Hs0 Hd0 Hlt|rs0 rd0 Hs0 Hd0 Hle' Hv
                |rs0 rd0 rs Hs0 Hd0 Hle' Hrs Hvs Hfs
                |rs0 rd0 rs Hs0 Hd0 Hle' Hrs Hvs Hfs Hv
                |rs0 rd0 rs rd Hs0 Hd0 Hle' Hne Hrs Hvs Hfs Hrd Hvd Hfd
                |rs0 rd0 rs rd Hs0 Hd0 Hle' Hne Hrs Hvs Hfs Hrd Hvd Hfd];
    cbn [snapshot wallets emit set_wallets] in *; rewrite ?Hu in *.
  - congruence.
  - congruence.
  - assert (rs0 = r) by congruence. subst. congruence.
  - exfalso. apply (Hv rs0); [assumption|reflexivity].
  - assert (rs = r) by congruence. subst rs.
    cbn [bump apply_update WalletRow.balance] in Hfs. rewrite Hfs.
    intros F. rewrite (F eq_refl). cbn. congruence.
  - assert (rs = r) by congruence. subst rs.
    cbn [bump apply_update WalletRow.balance] in Hfs. rewrite Hfs.
    intros F. rewrite (F eq_refl). cbn. congruence.
  - contradiction.
  - contradiction.
Qed.

Lemma self_transfer_is_never_settled_witness :
  outcome (processTransfer (TransferJob.mk "a" "a" 10 None "r9") calm world_funded) =
    Rejected (PrismaError "P2025" []).
Proof.
  destruct (self_transfer_is_never_settled (TransferJob.mk "a" "a" 10 None "r9") calm world_funded)
    as (_ & _ & _ & H).
  - reflexivity.
  - intros i ws. reflexivity.
  - apply (H (WalletRow.mk "u1" 100 true 0)).
    + reflexivity.
    + vm_compute. reflexivity.
    + vm_compute. discriminate.
Defined.

(** ** From the request to the settled balance *)

Lemma handle_resolves (job : Job) (env : nat → Attempt) (s : World) :
  undisturbed env →
  covered job (wallets s) →
  is_Some (commit_attempt env defaultMaxRetries 0) →
  outcome (handle job env s) = Resolved tt.
Proof.
  intros Hu Hc Hk.
  pose proof (loop_settles job env s Hu defaultMaxRetries 0%nat Undefined s eq_refl) as [_ L].
  specialize (L (conj Hc Hk)). revert L.
  rewrite handle_unfold. unfold try_catch, executeTransaction.
  destruct (executeTransaction_loop (job_tx job) env defaultMaxRetries 0 Undefined s)
    as [[[]|e] s']; cbn; [reflexivity|discriminate].
Qed.

Lemma row_of_mark (tid : string) (st : TransactionStatus) (l : list Transaction.t) :
  List.find (fun r => bool_decide (Transaction.transactionId r = tid))
            (mark (ByTransactionId tid) st l) =
    Transaction.with_status st <$>
      List.find (fun r => bool_decide (Transaction.transactionId r = tid)) l.
Proof.
  induction l as [|x l IH]; [reflexivity|].
  cbn [mark List.map List.find matches]. fold (mark (ByTransactionId tid) st l).
  destruct (bool_decide (Transaction.transactionId x = tid)) eqn:E.
  - cbn. rewrite E. reflexivity.
  - rewrite E. exact IH.
Qed.

(** X12: a deposit from request to balance. A deposit request with a fresh
    transactionId for an active wallet and an amount within the column's
    range is accepted when the queue takes the job: it resolves to the
    PENDING row, which holds the amount rounded to the column's 8 decimal
    places, and enqueues the job, which carries the amount as given. When
    that job is then delivered, with no other writer and an attempt that
    meets no store failure, and the new balance is within the column's
    range, the handler resolves, the wallet holds the old balance plus the
    amount, rounded to the column's scale, at the next version, the row is
    COMPLETED, and the read path returns the new balance. *)
Theorem deposit_round_trip (uuidv4 : string) (dto : DepositFundsDto.t) (env : nat → Attempt)
    (s : World) (r : WalletRow.t) :
  let walletId := DepositFundsDto.walletId dto in
  let amount := DepositFundsDto.amount dto in
  let id := default uuidv4 (DepositFundsDto.transactionId dto) in
  let row := Transaction.mk id None walletId None (rounded amount) DEPOSIT PENDING
                            (DepositFundsDto.description dto) in
  let job := JobDeposit (SingleJob.mk walletId amount (DepositFundsDto.description dto) id) in
  let balance := rounded (Decimal.of_units (WalletRow.balance r) + amount) in
  let s1 := final (depositFunds uuidv4 None dto s) in
  let s2 := final (handle job env s1) in
  row_of id s = None →
  wallets s !! walletId = Some r →
  WalletRow.isActive r = true →
  in_range (rounded amount) = true →
  in_range balance = true →
  undisturbed env →
  is_Some (commit_attempt env defaultMaxRetries 0) →
  outcome (depositFunds uuidv4 None dto s) = Resolved row ∧
  queue s1 = queue s ++ [job] ∧
  outcome (handle job env s1) = Resolved tt ∧
  wallets s2 !! walletId =
    Some (WalletRow.mk (WalletRow.userId r) balance true (WalletRow.version r + 1)) ∧
  row_of id s2 = Some (Transaction.with_status COMPLETED row) ∧
  getWalletBalance walletId s2 = (Resolved (Decimal.of_units balance), s2).
Proof.
  intros walletId amount id row job balance s1 s2 Hfresh Hr Ha Hfa Hfb Hu Hk.
  assert (E1 : depositFunds uuidv4 None dto s =
               (Resolved row,
                mkWorld (wallets s) (transactions s ++ [row]) (redis s) (queue s ++ [job])
                        (trace s))).
  { unfold depositFunds, bind, transaction_findUnique. fold walletId amount id.
    unfold row_of in Hfresh. rewrite Hfresh.
    rewrite (getWallet_active _ _ _ Hr Ha).
    rewrite transaction_create_fresh; [reflexivity|exact Hfa|exact Hfresh|cbn; eauto|discriminate]. }
  assert (Hw1 : wallets s1 = wallets s) by (subst s1; rewrite E1; reflexivity).
  assert (Hc : covered job (wallets s1)).
  { cbn [covered job SingleJob.walletId SingleJob.amount]. rewrite Hw1. fold walletId.
    rewrite Hr. exact Hfb. }
  pose proof (handle_resolves job env s1 Hu Hc Hk) as Ho.
  pose proof (handle_exact job env s1 Hu) as X. rewrite Ho in X.
  destruct X as (_ & Hw2 & Hcache).
  pose proof (handle_ledger job env s1) as [Hl _]. rewrite Ho in Hl.
  fold s2 in Hw2, Hcache, Hl.
  assert (Hrow : wallets s2 !! walletId = Some (bump (increment amount) r)).
  { rewrite Hw2. unfold job. cbn [settle SingleJob.walletId SingleJob.amount].
    rewrite lookup_alter_eq, Hw1, Hr. reflexivity. }
  split; [rewrite E1; reflexivity|]. split; [subst s1; rewrite E1; reflexivity|].
  split; [exact Ho|]. split; [rewrite Hrow, <- Ha; reflexivity|]. split.
  - unfold row_of. rewrite Hl. cbn [job_key SingleJob.transactionId].
    rewrite row_of_mark. subst s1. rewrite E1. cbn [final snd transactions].
    rewrite find_append. unfold row_of in Hfresh. rewrite Hfresh. cbn.
    rewrite bool_decide_eq_true_2 by reflexivity. reflexivity.
  - specialize (Hcache walletId ltac:(cbn; left)). rewrite Hrow in Hcache. cbn in Hcache.
    pose proof (getWalletBalance_spec walletId s2) as EB. unfold seen_balance in EB.
    rewrite Hcache in EB. exact EB.
Qed.

Lemma deposit_round_trip_witness :
  getWalletBalance "a"
    (final (handle (JobDeposit job_deposit_a) env_hiccup
              (final (depositFunds "g1" None deposit_a world_two_wallets)))) =
    (Resolved 150%Q,
     final (handle (JobDeposit job_deposit_a) env_hiccup
              (final (depositFunds "g1" None deposit_a world_two_wallets)))).
Proof.
  destruct (deposit_round_trip "g1" deposit_a env_hiccup world_two_wallets
              (WalletRow.mk "u1" 100 true 0)) as (_ & _ & _ & _ & _ & H).
  - vm_compute. reflexivity.
  - vm_compute. reflexivity.
  - reflexivity.
  - vm_compute. reflexivity.
  - vm_compute. reflexivity.
  - intros [|i] ws; reflexivity.
  - vm_compute. eauto.
  - exact H.
Defined.

(** ** A commit that fails after the callback has run *)

(** X13: the settlement callbacks write the cache inside the store
    transaction, and a rollback does not undo that write. When the callback of
    a covered job has run and the commit then fails with an error that is not
    retried, the handler is rejected with that error and the wallets are as
    before, but the cache entry of each wallet of the job holds the balance of
    the update that was rolled back. *)
Theorem failed_commit_leaves_cache_ahead (job : Job) (env : nat → Attempt) (s : World)
    (e : Exception) :
  covered job (wallets s) →
  (∀ ws, concurrent (env 0%nat) ws = ws) →
  fault (env 0%nat) = Some (AtCommit, e) →
  retryable e = false →
  outcome (handle job env s) = Rejected e ∧
  wallets (final (handle job env s)) = wallets s ∧
  ∀ id, id ∈ job_wallets job →
    redis (final (handle job env s)) !! balance_key id =
      (fun r => Decimal.of_units (WalletRow.balance r)) <$> settle job (wallets s) !! id.
Proof.
  intros Hc Hu Hf Hr.
  rewrite handle_unfold. unfold try_catch, executeTransaction, defaultMaxRetries.
  cbn [executeTransaction_loop]. unfold try_catch, interactive_transaction. rewrite Hf.
  cbn zeta.
  set (tx := mkTx (wallets (emit TxBegin s))).
  set (s1 := set_wallets (concurrent (env 0%nat)) (emit TxBegin s)).
  assert (Hs1 : wallets s1 = wallets s) by (subst s1; world_simpl; apply Hu).
  pose proof (job_tx_exact job tx s1 Hs1) as X.
  change (snapshot tx) with (wallets s) in X.
  destruct (job_tx job tx s1) as [[[]|e'] s2]; [|contradiction].
  destruct X as (_ & Hw2 & Hcache).
  rewrite Hr. unfold bind, transaction_updateMany, throw. world_simpl.
  split; [reflexivity|]. split; [exact Hs1|].
  intros id Hid. rewrite (Hcache id Hid), Hw2. reflexivity.
Qed.

Lemma failed_commit_leaves_cache_ahead_witness :
  outcome (handle (JobDeposit job_deposit_a) env_disconnect world_deposit_requested) =
    Rejected (PrismaError "P1017" []) ∧
  wallets (final (handle (JobDeposit job_deposit_a) env_disconnect world_deposit_requested)) =
    wallets world_deposit_requested ∧
  ∀ id, id ∈ job_wallets (JobDeposit job_deposit_a) →
    redis (final (handle (JobDeposit job_deposit_a) env_disconnect world_deposit_requested))
      !! balance_key id =
      (fun r => Decimal.of_units (WalletRow.balance r)) <$>
        settle (JobDeposit job_deposit_a) (wallets world_deposit_requested) !! id.
Proof.
  apply (failed_commit_leaves_cache_ahead (JobDeposit job_deposit_a) env_disconnect
           world_deposit_requested (PrismaError "P1017" [])).
  - vm_compute. reflexivity.
  - intros ws. reflexivity.
  - reflexivity.
  - reflexivity.
Defined.

(** ** Optimistic locking by version *)

(** X14: updateWithOptimisticLock on a wallet. When the row exists and has the
    version the caller read, the columns of [data] are set, the version
    becomes that version + 1 (whatever [data] says about it) and the updated
    wallet is returned; a second writer that read the same version then fails
    with 'Optimistic lock failed ...' and leaves the first writer's row in
    place. When the row is missing or has another version, the call fails with
    that error and changes nothing. *)
Theorem optimistic_lock_admits_one_writer (id : string) (data other : WalletData.t) (v : Z)
    (s : World) :
  let failed := PlainError "Optimistic lock failed - record was modified by another transaction" in
  match wallets s !! id with
  | Some r =>
      if bool_decide (WalletRow.version r = v)
      then
        let r1 := WalletRow.mk (WalletRow.userId r)
                               (default (WalletRow.balance r) (WalletData.balance data))
                               (default (WalletRow.isActive r) (WalletData.isActive data))
                               (v + 1) in
        let s1 := set_wallets (insert id r1) s in
        updateWithOptimisticLock id data v s = (Resolved (Some (WalletRow.entity id r1)), s1) ∧
        updateWithOptimisticLock id other v s1 = (Rejected failed, s1)
      else updateWithOptimisticLock id data v s = (Rejected failed, s)
  | None => updateWithOptimisticLock id data v s = (Rejected failed, s)
  end.
Proof.
  intros failed. unfold updateWithOptimisticLock, bind, wallet_updateMany.
  destruct (wallets s !! id) as [r|] eqn:Hr; [|reflexivity].
  destruct (bool_decide (WalletRow.version r = v)) eqn:Hv; [|reflexivity].
  cbn zeta. split.
  - cbn. unfold wallet_findUnique. world_simpl. rewrite lookup_insert_eq. reflexivity.
  - world_simpl. rewrite lookup_insert_eq. cbn [WalletRow.version set_columns WalletData.version default from_option].
    rewrite bool_decide_eq_false_2 by lia. reflexivity.
Qed.

(** ** What a request adds to the ledger and the queue *)

Lemma existsb_false_find {A} (f : A → bool) (l : list A) :
  existsb f l = false → List.find f l = None.
Proof.
  induction l as [|x l IH]; simpl; [reflexivity|].
  destruct (f x); [discriminate|]. exact IH.
Qed.

Lemma transaction_create_checked data s :
  let row := TransactionData.row data in
  (transaction_create data s = (Resolved row, set_transactions (fun l => l ++ [row]) s) ∧
   row_of (Transaction.transactionId row) s = None ∧
   is_Some (wallets s !! Transaction.walletId row) ∧
   from_option (fun d => is_Some (wallets s !! d)) True (Transaction.destinationWalletId row)) ∨
  ∃ e, transaction_create data s = (Rejected e, s).
Proof.
  intros row. unfold transaction_create, row_of. fold row.
  destruct (negb _); [right; eauto|].
  destruct (existsb _ _) eqn:Hex; [right; eauto|]. apply existsb_false_find in Hex.
  destruct (wallets s !! Transaction.walletId row) eqn:Hw; [|right; eauto].
  destruct (Transaction.destinationWalletId row) as [d|]; cbn.
  - destruct (wallets s !! d) eqn:Hd; [left; eauto|right; eauto].
  - left. eauto.
Qed.

(** What a request does to the ledger and the queue: nothing, or it appends
    its rows; the job is enqueued after them, when the queue takes it. *)
Lemma request_effects (op : Operation) (s : World) :
  match op with
  | OpHandle _ _ => True
  | _ =>
      (transactions (step op s) = transactions s ∧ queue (step op s) = queue s) ∨
      ∃ rows job,
        transactions (step op s) = transactions s ++ rows ∧
        (queue (step op s) = queue s ++ [job] ∨ queue (step op s) = queue s) ∧
        rows ≠ [] ∧
        NoDup (Transaction.transactionId <$> rows) ∧
        Forall (written_for s job) rows
  end.
Proof.
  destruct op as [cuid dto|w|w|u q dto|u q dto|u1 u2 q dto|w|job env]; cbn [step]; [..|exact I].
  - left. rewrite createWallet_spec. cbv zeta. destruct (in_range _); [|split; reflexivity].
    destruct (wallets s !! cuid); [split; reflexivity|].
    destruct (bool_decide _); split; reflexivity.
  - left. destruct (getWallet_cases w s) as [(r & _ & _ & E)|(_ & E)]; rewrite E;
      split; reflexivity.
  - left. destruct (getWalletBalance_frame w s) as (_ & Ft & Fq & _). split; assumption.
  - unfold depositFunds, bind, transaction_findUnique.
    destruct (List.find _ (transactions s)); [left; split; reflexivity|].
    destruct (getWallet_cases (DepositFundsDto.walletId dto) s) as [(r & _ & _ & E)|(_ & E)];
      rewrite E; [|left; split; reflexivity].
    match goal with |- context [transaction_create ?row s] =>
      destruct (transaction_create_checked row s) as [(Ec & Hf & Hw & Hd)|(e & Ec)]; rewrite Ec
    end; [|left; split; reflexivity].
    right. eexists [_], _. unfold queue_add, modify, throw, resolve.
    split; [destruct q; reflexivity|].
    split; [destruct q; [right|left]; reflexivity|]. split; [discriminate|].
    split; [apply NoDup_singleton|].
    constructor; [|constructor]. repeat split; try assumption.
    cbn. apply bool_decide_eq_true_2. reflexivity.
  - unfold withdrawFunds, bind, transaction_findUnique.
    destruct (List.find _ (transactions s)); [left; split; reflexivity|].
    pose proof (getWalletBalance_frame (WithdrawFundsDto.walletId dto) s) as (Fw & Ft & Fq & _).
    destruct (getWalletBalance (WithdrawFundsDto.walletId dto) s) as [[b|e] s1];
      cbn [final snd] in Fw, Ft, Fq; [|left; split; assumption].
    destruct (Decimal.lt b (WithdrawFundsDto.amount dto)); [left; split; assumption|].
    match goal with |- context [transaction_create ?row s1] =>
      destruct (transaction_create_checked row s1) as [(Ec & Hf & Hw & Hd)|(e & Ec)]; rewrite Ec
    end; [|left; split; assumption].
    right. eexists [_], _. unfold queue_add, modify, throw, resolve.
    split; [destruct q; cbn [final snd transactions set_transactions set_queue]; rewrite Ft;
            reflexivity|].
    split; [destruct q; [right|left]; cbn [final snd queue set_queue set_transactions];
            rewrite Fq; reflexivity|].
    split; [discriminate|].
    split; [apply NoDup_singleton|].
    constructor; [|constructor]. unfold written_for, row_of in *. rewrite <- Ft, <- Fw.
    repeat split; try assumption.
    cbn. apply bool_decide_eq_true_2. reflexivity.
  - unfold transferFunds, bind, transaction_findMany.
    destruct (0 <? length _)%nat; [left; split; reflexivity|].
    destruct (getWallet_cases (TransferFundsDto.sourceWalletId dto) s)
      as [(r1 & _ & _ & E1)|(_ & E1)]; rewrite E1; [|left; split; reflexivity].
    destruct (getWallet_cases (TransferFundsDto.destinationWalletId dto) s)
      as [(r2 & _ & _ & E2)|(_ & E2)]; rewrite E2; [|left; split; reflexivity].
    pose proof (getWalletBalance_frame (TransferFundsDto.sourceWalletId dto) s)
      as (Fw & Ft & Fq & _).
    destruct (getWalletBalance (TransferFundsDto.sourceWalletId dto) s) as [[b|e] s1];
      cbn [final snd] in Fw, Ft, Fq; [|left; split; assumption].
    destruct (Decimal.lt b (TransferFundsDto.amount dto)); [left; split; assumption|].
    unfold batch_transaction, run_batch, bind, resolve.
    match goal with |- context [transaction_create ?row s1] =>
      destruct (transaction_create_checked row s1) as [(Ea & Hfa & Hwa & Hda)|(e & Ea)];
        rewrite Ea
    end; [|left; split; assumption].
    match goal with |- context [transaction_create ?row (set_transactions ?f s1)] =>
      destruct (transaction_create_checked row (set_transactions f s1))
        as [(Eb & Hfb & Hwb & Hdb)|(e & Eb)]; rewrite Eb
    end; [|left; split; assumption].
    right. eexists [_; _], _.
    unfold queue_add, modify, throw, resolve.
    split; [destruct q; cbn [final snd transactions set_transactions set_queue];
            rewrite Ft, <- app_assoc; reflexivity|].
    split; [destruct q; [right|left]; cbn [final snd queue set_queue set_transactions];
            rewrite Fq; reflexivity|].
    split; [discriminate|].
    unfold row_of in Hfa, Hfb. cbn [transactions set_transactions wallets] in Hfb, Hwb, Hdb.
    rewrite find_append in Hfb.
    destruct (List.find _ (transactions s1)) eqn:Hfb1 in Hfb; [discriminate|].
    cbn [List.find Transaction.transactionId TransactionData.row TransactionData.transactionId]
      in Hfb, Hfb1, Hfa.
    destruct (bool_decide (u1 = u2)) eqn:Hne in Hfb; [discriminate|].
    apply bool_decide_eq_false in Hne.
    split.
    { cbn. apply NoDup_cons. split; [|apply NoDup_singleton].
      intros Hin. apply list_elem_of_singleton in Hin. congruence. }
    constructor; [|constructor; [|constructor]];
      unfold written_for, row_of; rewrite <- Ft, <- Fw;
      repeat split; try assumption; cbn; apply bool_decide_eq_true_2; reflexivity.
  - left. pose proof (deactivateWallet_spec w s) as E.
    destruct (wallets s !! w) as [rw|]; [|rewrite E; split; reflexivity].
    destruct (WalletRow.isActive rw); [|rewrite E; split; reflexivity].
    cbn zeta in E. destruct (Decimal.gt _ _); rewrite E; [|split; reflexivity].
    destruct (getWalletBalance_frame w s) as (_ & Ft & Fq & _). split; assumption.
Qed.

(** ** Invariants of the ledger and the queue *)

Lemma run_invariant (P : World → Prop) (Q : Operation → Prop) :
  (∀ op s, Q op → P s → P (step op s)) →
  ∀ ops s, Forall Q ops → P s → P (run ops s).
Proof.
  intros Hstep ops. unfold run.
  induction ops as [|op ops IH]; intros s HQ HP; [exact HP|].
  apply Forall_cons in HQ as [Hop HQ]. cbn [foldl]. apply IH; [exact HQ|].
  apply Hstep; assumption.
Qed.

Lemma mark_ids w st l :
  Transaction.transactionId <$> mark w st l = Transaction.transactionId <$> l.
Proof.
  unfold mark. induction l as [|x l IH]; [reflexivity|].
  cbn [List.map fmap list_fmap]. f_equal; [|exact IH].
  destruct (matches w x); reflexivity.
Qed.

Lemma row_of_None_not_elem tid s :
  row_of tid s = None → tid ∉ Transaction.transactionId <$> transactions s.
Proof.
  unfold row_of. induction (transactions s) as [|x l IH]; cbn [List.find fmap list_fmap].
  - intros _. apply not_elem_of_nil.
  - destruct (bool_decide (Transaction.transactionId x = tid)) eqn:E; [discriminate|].
    apply bool_decide_eq_false in E. intros H. apply not_elem_of_cons. split; [congruence|].
    apply IH. exact H.
Qed.

Lemma step_ledger_ids_unique (op : Operation) (s : World) :
  ledger_ids_unique s → ledger_ids_unique (step op s).
Proof.
  unfold ledger_ids_unique. intros H.
  pose proof (request_effects op s) as R.
  destruct op as [cuid dto|w|w|u q dto|u q dto|u1 u2 q dto|w|job env];
    try (destruct R as [[-> _]|(rows & job & -> & _ & _ & Hnd & Hrows)];
         [exact H|];
         rewrite fmap_app; apply NoDup_app; split; [exact H|]; split; [|exact Hnd];
         intros tid Hin Hin'; apply list_elem_of_fmap in Hin' as (row & -> & Hrow);
         rewrite Forall_forall in Hrows; destruct (Hrows row Hrow) as (Hfresh & _);
         exact (row_of_None_not_elem _ _ Hfresh Hin)).
  cbn [step]. destruct (handle_ledger job env s) as [-> _]. rewrite mark_ids. exact H.
Qed.

(** X15: transactionIds stay unique. If no two ledger rows have the same
    transactionId, this is still so after any sequence of operations of the
    service and the processor, whatever the environment does: a request only
    appends rows whose ids are new, and a settlement rewrites statuses only. *)
Theorem ledger_ids_stay_unique (ops : list Operation) (s : World) :
  ledger_ids_unique s → ledger_ids_unique (run ops s).
Proof.
  intros H. apply (run_invariant ledger_ids_unique (fun _ => True)).
  - intros op s0 _. apply step_ledger_ids_unique.
  - apply Forall_forall. intros; exact I.
  - exact H.
Qed.

Lemma ledger_ids_stay_unique_witness :
  ledger_ids_unique
    (run [OpDepositFunds "g11" None (DepositFundsDto.mk "b" 5 None None);
          OpTransferFunds "g12" "g11" (Some (PlainError "Queue is down")) transfer_a_b;
          OpHandle (JobDeposit job_deposit_a) env_conflict]
         world_withdrawal_requested).
Proof.
  apply (ledger_ids_stay_unique _ world_withdrawal_requested).
  unfold ledger_ids_unique. refine (bool_decide_unpack _ _). vm_compute. exact I.
Defined.

Lemma step_queue_backed (op : Operation) (s : World) :
  queue_backed s → queue_backed (step op s).
Proof.
  unfold queue_backed. intros H.
  pose proof (request_effects op s) as R.
  destruct op as [cuid dto|w|w|u q dto|u q dto|u1 u2 q dto|w|job env];
    try (destruct R as [[-> ->]|(rows & job & -> & [-> | ->] & Hne & _ & Hrows)];
         [exact H
         |apply Forall_app; split;
          [eapply Forall_impl; [exact H|]; intros j Hj; apply Exists_app; left; exact Hj
          |constructor; [|constructor]; apply Exists_app; right;
           destruct rows as [|row rows]; [congruence|];
           apply Forall_cons in Hrows as [(_ & _ & _ & Hm & Ha) _];
           apply Exists_cons_hd; split; assumption]
         |eapply Forall_impl; [exact H|]; intros j Hj; apply Exists_app; left; exact Hj]).
  cbn [step]. destruct (handle_ledger job env s) as [-> ->].
  eapply Forall_impl; [exact H|]. intros j Hj. unfold mark.
  apply Exists_exists in Hj as (row & Hin & Hm & Ha). apply Exists_exists.
  exists (if matches (job_key job) row
          then Transaction.with_status
                 (match outcome (handle job env s) with
                  | Resolved _ => COMPLETED
                  | Rejected _ => FAILED
                  end) row
          else row).
  split.
  - apply list_elem_of_In. apply in_map_iff. exists row. split; [reflexivity|].
    apply list_elem_of_In. exact Hin.
  - destruct (matches (job_key job) row); [|split; assumption].
    rewrite matches_with_status. split; [exact Hm|exact Ha].
Qed.

(** X16: the queue is backed by the ledger. If every queued job has a ledger
    row under its key (transactionId, or referenceId for a transfer) whose
    amount is the job's amount as the column stores it (the job carries the
    amount as requested, the row holds it rounded to 8 decimal places), this
    is still so after any sequence of operations, whether or not the queue
    takes the jobs: a request enqueues its job only after writing the
    row(s), and nothing removes a row or changes its key or amount. *)
Theorem queue_stays_backed (ops : list Operation) (s : World) :
  queue_backed s → queue_backed (run ops s).
Proof.
  intros H. apply (run_invariant queue_backed (fun _ => True)).
  - intros op s0 _. apply step_queue_backed.
  - apply Forall_forall. intros; exact I.
  - exact H.
Qed.

Lemma queue_stays_backed_witness :
  queue_backed
    (run [OpTransferFunds "g3" "g4" None transfer_a_b;
          OpHandle (JobDeposit job_deposit_a) env_conflict]
         world_withdrawal_requested).
Proof.
  apply (queue_stays_backed _ world_withdrawal_requested).
  unfold queue_backed. refine (bool_decide_unpack _ _). vm_compute. exact I.
Defined.

Lemma step_keeps_rows (op : Operation) (s : World) (id : string) :
  unaccompanied op →
  is_Some (wallets s !! id) → is_Some (wallets (step op s) !! id).
Proof.
  intros Hu [r Hr].
  destruct (row_change_kept op (wallets s) id r Hr _ (step_row_change op s id Hu))
    as (r' & -> & _).
  eauto.
Qed.

Lemma step_ledger_refers_to_wallets (op : Operation) (s : World) :
  unaccompanied op →
  ledger_refers_to_wallets s → ledger_refers_to_wallets (step op s).
Proof.
  unfold ledger_refers_to_wallets. intros Hu H.
  assert (K : ∀ row : Transaction.t,
            is_Some (wallets s !! Transaction.walletId row) ∧
            from_option (fun d => is_Some (wallets s !! d)) True
                        (Transaction.destinationWalletId row) →
            is_Some (wallets (step op s) !! Transaction.walletId row) ∧
            from_option (fun d => is_Some (wallets (step op s) !! d)) True
                        (Transaction.destinationWalletId row)).
  { intros row [H1 H2]. split; [apply step_keeps_rows; assumption|].
    destruct (Transaction.destinationWalletId row); [|exact I].
    cbn in *. apply step_keeps_rows; assumption. }
  pose proof (request_effects op s) as R.
  destruct op as [cuid dto|w|w|u q dto|u q dto|u1 u2 q dto|w|job env];
    try (destruct R as [[-> _]|(rows & job & -> & _ & _ & _ & Hrows)];
         [eapply Forall_impl; [exact H|exact K]|];
         apply Forall_app; split; [eapply Forall_impl; [exact H|exact K]|];
         eapply Forall_impl; [exact Hrows|];
         intros row (_ & H1 & H2 & _); apply K; split; assumption).
  destruct (handle_ledger job env s) as [Hl _].
  change (transactions (step (OpHandle job env) s)) with (transactions (final (handle job env s))).
  rewrite Hl. unfold mark. apply Forall_forall. intros row' Hin.
  apply list_elem_of_In, in_map_iff in Hin as (row & <- & Hin).
  apply list_elem_of_In in Hin. rewrite Forall_forall in H. specialize (H row Hin).
  destruct (matches (job_key job) row); apply (K row) in H; exact H.
Qed.

(** X17: ledger rows keep referring to wallets. If the wallet of every ledger
    row (and the counterpart wallet of a transfer row) exists, this is still
    so after any sequence of operations during whose settlements no other
    worker writes: rows are written for existing wallets only, and no
    operation deletes a wallet row (deactivation keeps it). *)
Theorem ledger_keeps_referring_to_wallets (ops : list Operation) (s : World) :
  Forall unaccompanied ops →
  ledger_refers_to_wallets s → ledger_refers_to_wallets (run ops s).
Proof.
  intros Hops H. apply (run_invariant ledger_refers_to_wallets unaccompanied).
  - intros op s0. apply step_ledger_refers_to_wallets.
  - exact Hops.
  - exact H.
Qed.

Lemma ledger_keeps_referring_to_wallets_witness :
  ledger_refers_to_wallets
    (run [OpTransferFunds "g3" "g4" None transfer_a_b; OpDeactivateWallet "b";
          OpHandle (JobDeposit job_deposit_a) calm]
         world_withdrawal_requested).
Proof.
  apply (ledger_keeps_referring_to_wallets _ world_withdrawal_requested).
  - repeat constructor.
  - unfold ledger_refers_to_wallets. refine (bool_decide_unpack _ _). vm_compute. exact I.
Defined.

(** ** When the cache agrees with the store *)

Lemma cache_coherent_ext (s s' : World) :
  wallets s' = wallets s → redis s' = redis s → cache_coherent s → cache_coherent s'.
Proof. unfold cache_coherent. intros -> ->. auto. Qed.

Lemma cache_coherent_refresh (s s' : World) id r :
  wallets s' = <[id := r]> (wallets s) →
  redis s' = <[balance_key id := Decimal.of_units (WalletRow.balance r)]> (redis s) →
  cache_coherent s → cache_coherent s'.
Proof.
  unfold cache_coherent. intros -> -> H id' b Hb.
  destruct (decide (id = id')) as [->|Hne].
  - rewrite lookup_insert_eq in Hb. rewrite lookup_insert_eq. exists r. split; congruence.
  - rewrite lookup_insert_ne in Hb by (intros E; apply balance_key_inj in E; congruence).
    rewrite lookup_insert_ne by exact Hne. auto.
Qed.

Lemma cache_coherent_drop (s s' : World) id r r' :
  wallets s !! id = Some r → WalletRow.balance r' = WalletRow.balance r →
  wallets s' = <[id := r']> (wallets s) →
  redis s' = delete (balance_key id) (redis s) →
  cache_coherent s → cache_coherent s'.
Proof.
  unfold cache_coherent. intros Hr Hb -> -> H id' b Hc.
  destruct (decide (id = id')) as [->|Hne].
  - rewrite lookup_delete_eq in Hc. discriminate.
  - rewrite lookup_delete_ne in Hc by (intros E; apply balance_key_inj in E; congruence).
    rewrite lookup_insert_ne by exact Hne. auto.
Qed.

Lemma getWalletBalance_coherent walletId s :
  cache_coherent s → cache_coherent (final (getWalletBalance walletId s)).
Proof.
  intros H. pose proof (getWalletBalance_spec walletId s) as E. unfold seen_balance in E.
  destruct (redis s !! balance_key walletId) as [c|] eqn:Hc; [rewrite E; exact H|].
  destruct (wallets s !! walletId) as [r|] eqn:Hr; [|rewrite E; exact H].
  destruct (WalletRow.isActive r); rewrite E; [|exact H].
  cbn [final snd]. apply (cache_coherent_refresh s _ walletId r); [|reflexivity|exact H].
  cbn. rewrite insert_id by exact Hr. reflexivity.
Qed.

Lemma transferFunds_redis uuid_out uuid_in enqueue dto s :
  redis (final (transferFunds uuid_out uuid_in enqueue dto s)) = redis s ∨
  redis (final (transferFunds uuid_out uuid_in enqueue dto s)) =
    redis (final (getWalletBalance (TransferFundsDto.sourceWalletId dto) s)).
Proof.
  unfold transferFunds, bind, transaction_findMany.
  destruct (0 <? length _)%nat; [left; reflexivity|].
  destruct (getWallet_cases (TransferFundsDto.sourceWalletId dto) s)
    as [(r1 & _ & _ & E1)|(_ & E1)]; rewrite E1; [|left; reflexivity].
  destruct (getWallet_cases (TransferFundsDto.destinationWalletId dto) s)
    as [(r2 & _ & _ & E2)|(_ & E2)]; rewrite E2; [|left; reflexivity].
  right.
  destruct (getWalletBalance (TransferFundsDto.sourceWalletId dto) s) as [[b|e] s1];
    [|reflexivity].
  destruct (Decimal.lt b (TransferFundsDto.amount dto)); [reflexivity|].
  unfold batch_transaction, run_batch, bind, resolve.
  match goal with |- context [transaction_create ?row s1] =>
    destruct (transaction_create_cases row s1) as [Ea|(e & Ea)]; rewrite Ea
  end; [|reflexivity].
  match goal with |- context [transaction_create ?row (set_transactions ?f s1)] =>
    destruct (transaction_create_cases row (set_transactions f s1)) as [Eb|(e & Eb)]; rewrite Eb
  end; [|reflexivity].
  unfold queue_add, modify, throw. destruct enqueue; reflexivity.
Qed.

Lemma handle_clean_coherent (job : Job) (env : nat → Attempt) (s : World) :
  fault (env 0%nat) = None → (∀ ws, concurrent (env 0%nat) ws = ws) →
  cache_coherent s → cache_coherent (final (handle job env s)).
Proof.
  intros Hf Hu H. rewrite handle_unfold. unfold try_catch.
  pose proof (executeTransaction_first_attempt (job_tx job) env s Hf) as F.
  pose proof (job_tx_plain job (mkTx (wallets s))
                (set_wallets (concurrent (env 0%nat)) (emit TxBegin s))) as (_ & _ & Hnr).
  revert F Hnr.
  destruct job as [d|d|d]; cbn [job_tx].
  - pose proof (processDeposit_tx_cases d (mkTx (wallets s))
                  (set_wallets (concurrent (env 0%nat)) (emit TxBegin s))) as C.
    destruct C as [H0|r0 H0 Hu' Hlt|r0 H0 Hu' Hv|r0 r H0 Hu' Hr Hv Hf'|r0 r H0 Hu' Hr Hv Hf'];
      intros F Hnr;
      try (rewrite (F (Hnr _ eq_refl)); unfold bind, transaction_updateMany, throw;
           world_simpl; eapply cache_coherent_ext; [| |exact H]; world_simpl;
           rewrite ?Hu; reflexivity).
    rewrite F. cbn [final snd]. unfold settled_single.
    eapply (cache_coherent_refresh s); [| |exact H]; world_simpl; rewrite ?Hu; reflexivity.
  - pose proof (processWithdrawal_tx_cases d (mkTx (wallets s))
                  (set_wallets (concurrent (env 0%nat)) (emit TxBegin s))) as C.
    destruct C as [H0|r0 H0 Hu' Hlt|r0 H0 Hu' Hv|r0 r H0 Hu' Hr Hv Hf'|r0 r H0 Hu' Hr Hv Hf'];
      intros F Hnr;
      try (rewrite (F (Hnr _ eq_refl)); unfold bind, transaction_updateMany, throw;
           world_simpl; eapply cache_coherent_ext; [| |exact H]; world_simpl;
           rewrite ?Hu; reflexivity).
    rewrite F. cbn [final snd]. unfold settled_single.
    eapply (cache_coherent_refresh s); [| |exact H]; world_simpl; rewrite ?Hu; reflexivity.
  - pose proof (processTransfer_tx_cases d (mkTx (wallets s))
                  (set_wallets (concurrent (env 0%nat)) (emit TxBegin s))) as C.
    destruct C as [H0|rs0 rd0 Hs0 Hd0 Hlt|rs0 rd0 Hs0 Hd0 Hle Hv
                  |rs0 rd0 rs Hs0 Hd0 Hle Hrs Hvs Hfs
                  |rs0 rd0 rs Hs0 Hd0 Hle Hrs Hvs Hfs Hv
                  |rs0 rd0 rs rd Hs0 Hd0 Hle Hne Hrs Hvs Hfs Hrd Hvd Hfd
                  |rs0 rd0 rs rd Hs0 Hd0 Hle Hne Hrs Hvs Hfs Hrd Hvd Hfd];
      intros F Hnr;
      try (rewrite (F (Hnr _ eq_refl)); unfold bind, transaction_updateMany, throw;
           world_simpl; eapply cache_coherent_ext; [| |exact H]; world_simpl;
           rewrite ?Hu; reflexivity).
    rewrite F. cbn [final snd]. unfold settled_transfer.
    eapply (cache_coherent_refresh
              (mkWorld (<[TransferJob.sourceWalletId d :=
                            bump (decrement (TransferJob.amount d)) rs]> (wallets s))
                       (transactions s)
                       (<[balance_key (TransferJob.sourceWalletId d) :=
                            Decimal.of_units
                              (WalletRow.balance (bump (decrement (TransferJob.amount d)) rs))]>
                          (redis s))
                       (queue s) (trace s))).
    + world_simpl. rewrite Hu. reflexivity.
    + world_simpl. reflexivity.
    + eapply (cache_coherent_refresh s); [| |exact H]; reflexivity.
Qed.

Lemma step_cache_coherent (op : Operation) (s : World) :
  cache_safe op → cache_coherent s → cache_coherent (step op s).
Proof.
  intros Hc H.
  destruct op as [cuid dto|w|w|u q dto|u q dto|u1 u2 q dto|w|job env]; cbn [step].
  - rewrite createWallet_spec. cbv zeta. destruct (in_range _); [|exact H].
    destruct (wallets s !! cuid); [exact H|].
    destruct (bool_decide _); [exact H|].
    cbn [final snd]. cbn [cache_safe] in Hc.
    eapply (cache_coherent_refresh s); [| |exact H]; [reflexivity|].
    cbn [redis WalletRow.balance]. rewrite <- Hc. reflexivity.
  - destruct (getWallet_cases w s) as [(r & _ & _ & E)|(_ & E)]; rewrite E; exact H.
  - apply getWalletBalance_coherent. exact H.
  - destruct (depositFunds_cases u q dto s) as [(o & E)|(_ & E)]; rewrite E; [exact H|].
    eapply cache_coherent_ext; [| |exact H]; destruct q; reflexivity.
  - pose proof (getWalletBalance_coherent (WithdrawFundsDto.walletId dto) s H) as H1.
    destruct (withdrawFunds_cases u q dto s) as [(o & E)|[(o & E & _)|(b & _ & _ & E)]];
      rewrite E; [exact H|exact H1|].
    eapply cache_coherent_ext; [| |exact H1]; destruct q; reflexivity.
  - pose proof (getWalletBalance_coherent (TransferFundsDto.sourceWalletId dto) s H) as H1.
    pose proof (getWalletBalance_frame (TransferFundsDto.sourceWalletId dto) s) as (Fw & _).
    destruct (transferFunds_redis u1 u2 q dto s) as [E|E].
    + eapply cache_coherent_ext; [apply transferFunds_wallets|exact E|exact H].
    + eapply cache_coherent_ext; [|exact E|exact H1].
      rewrite transferFunds_wallets. symmetry. exact Fw.
  - pose proof (deactivateWallet_spec w s) as E.
    destruct (wallets s !! w) as [rw|] eqn:Hw; [|rewrite E; exact H].
    destruct (WalletRow.isActive rw); [|rewrite E; exact H].
    cbn zeta in E. destruct (Decimal.gt _ _); rewrite E; cbn [final snd].
    + apply getWalletBalance_coherent. exact H.
    + eapply (cache_coherent_drop s _ w rw (deactivated rw)); [exact Hw|reflexivity| | |exact H];
        reflexivity.
  - destruct Hc as [Hf Hu]. apply handle_clean_coherent; assumption.
Qed.

(** X18: the cache agrees with the store as long as settlements run cleanly
    and wallets are created with whole balances. If every cached balance is
    the stored balance of an existing wallet, this is still so after any
    sequence of operations in which each delivery's first attempt meets no
    store failure and no write of another worker, and each wallet is created
    with an initial balance that is a whole number of units (createWallet
    caches the balance as requested, not as stored); and then every balance
    the read path returns is the stored one. *)
Theorem cache_stays_coherent (ops : list Operation) (s : World) :
  Forall cache_safe ops →
  cache_coherent s →
  cache_coherent (run ops s) ∧
  ∀ id b, outcome (getWalletBalance id (run ops s)) = Resolved b →
    ∃ r, wallets (run ops s) !! id = Some r ∧ b = Decimal.of_units (WalletRow.balance r).
Proof.
  intros Hops H.
  assert (H' : cache_coherent (run ops s)).
  { apply (run_invariant cache_coherent cache_safe); [|exact Hops|exact H].
    intros op s0. apply step_cache_coherent. }
  split; [exact H'|].
  intros id b. pose proof (getWalletBalance_spec id (run ops s)) as E.
  unfold seen_balance in E.
  destruct (redis (run ops s) !! balance_key id) as [c|] eqn:Hc.
  - rewrite E. intros [= <-]. apply H'. exact Hc.
  - destruct (wallets (run ops s) !! id) as [r|] eqn:Hr; [|rewrite E; discriminate].
    destruct (WalletRow.isActive r); rewrite E; [|discriminate].
    intros [= <-]. eauto.
Qed.

Lemma cache_stays_coherent_witness :
  cache_coherent
    (run [OpCreateWallet "a" dto_alice; OpCreateWallet "b" dto_bob;
          OpDepositFunds "g1" None deposit_a; OpHandle (JobDeposit job_deposit_a) calm;
          OpTransferFunds "g3" "g4" None transfer_a_b;
          OpHandle (JobTransfer (TransferJob.mk "a" "b" 10 None "r1")) calm;
          OpDeactivateWallet "b"]
         empty_world).
Proof.
  apply (cache_stays_coherent _ empty_world).
  - repeat constructor.
  - intros id b Hb. cbn in Hb. rewrite lookup_empty in Hb. discriminate.
Defined.

(** ** The history of a wallet row *)

Lemma step_row_kept (op : Operation) (s : World) (id : string) (r : WalletRow.t) :
  unaccompanied op →
  wallets s !! id = Some r →
  ∃ r', wallets (step op s) !! id = Some r' ∧
        WalletRow.userId r' = WalletRow.userId r ∧
        WalletRow.version r ≤ WalletRow.version r' ∧
        (WalletRow.version r' = WalletRow.version r →
         WalletRow.balance r' = WalletRow.balance r) ∧
        (WalletRow.isActive r = false → WalletRow.isActive r' = false).
Proof.
  intros Hu Hr. pose proof (step_row_change op s id Hu) as C.
  inversion C as [E|r1 Eop Hr1 E|job env r1 u Eop Hr1 Hupd E|dto Eop Hr1 Hfresh E].
  - exists r. rewrite Hr. repeat split; auto. lia.
  - assert (r1 = r) by congruence. subst r1. exists (deactivated r).
    repeat split; auto. cbn. lia.
  - assert (r1 = r) by congruence. subst r1. exists (bump u r).
    repeat split; auto; cbn; lia.
  - congruence.
Qed.

Lemma run_row_kept (ops : list Operation) (s : World) (id : string) (r : WalletRow.t) :
  Forall unaccompanied ops →
  wallets s !! id = Some r →
  ∃ r', wallets (run ops s) !! id = Some r' ∧
        WalletRow.userId r' = WalletRow.userId r ∧
        WalletRow.version r ≤ WalletRow.version r' ∧
        (WalletRow.version r' = WalletRow.version r →
         WalletRow.balance r' = WalletRow.balance r) ∧
        (WalletRow.isActive r = false → WalletRow.isActive r' = false).
Proof.
  unfold run. revert s r. induction ops as [|op ops IH]; intros s r Hops Hr.
  - exists r. repeat split; auto. lia.
  - apply Forall_cons in Hops as [Hop Hops]. cbn [foldl].
    destruct (step_row_kept op s id r Hop Hr) as (r1 & Hr1 & Hu1 & Hv1 & Hb1 & Ha1).
    destruct (IH (step op s) r1 Hops Hr1) as (r2 & Hr2 & Hu2 & Hv2 & Hb2 & Ha2).
    exists r2. split; [exact Hr2|]. split; [congruence|]. split; [lia|]. split.
    + intros Hv. rewrite Hb2, Hb1 by lia. reflexivity.
    + auto.
Qed.

(** X19: the version of a wallet row tracks its balance. Over any sequence of
    operations during whose settlements no other worker writes, a wallet row
    is never deleted and keeps its user; its version never decreases; if the
    version is the same at the end, so is the balance; and a deactivated
    wallet is still deactivated. *)
Theorem wallet_version_tracks_balance (ops : list Operation) (s : World) (id : string)
    (r : WalletRow.t) :
  Forall unaccompanied ops →
  wallets s !! id = Some r →
  ∃ r', wallets (run ops s) !! id = Some r' ∧
        WalletRow.userId r' = WalletRow.userId r ∧
        WalletRow.version r ≤ WalletRow.version r' ∧
        (WalletRow.version r' = WalletRow.version r →
         WalletRow.balance r' = WalletRow.balance r) ∧
        (WalletRow.isActive r = false → WalletRow.isActive r' = false).
Proof. apply run_row_kept. Qed.

Lemma wallet_version_tracks_balance_witness :
  ∃ r', wallets (run [OpDepositFunds "g1" None deposit_a;
                      OpHandle (JobDeposit job_deposit_a) env_hiccup;
                      OpDeactivateWallet "b"] world_two_wallets) !! "a" = Some r' ∧
        WalletRow.userId r' = "u1" ∧
        0 ≤ WalletRow.version r' ∧
        (WalletRow.version r' = 0 → WalletRow.balance r' = 100) ∧
        (true = false → WalletRow.isActive r' = false).
Proof.
  apply (wallet_version_tracks_balance
           [OpDepositFunds "g1" None deposit_a; OpHandle (JobDeposit job_deposit_a) env_hiccup;
            OpDeactivateWallet "b"]
           world_two_wallets "a" (WalletRow.mk "u1" 100 true 0)).
  - repeat constructor. intros [|i] ws; reflexivity.
  - vm_compute. reflexivity.
Defined.

(** ** Deactivation is final *)

(** X20: once deactivateWallet has resolved, the wallet's user never has a
    usable wallet again. After any further operations (no other writer during
    settlements) getWallet of that wallet is rejected as not found, and
    createWallet for the same user is rejected and changes nothing, since the
    deactivated row still holds the unique userId: with the store's error
    P2002 naming the column user_id when the generated id is new and the
    balance within range, and never with ConflictException('User already has
    a wallet'). *)
Theorem deactivation_is_final (walletId : string) (s : World) (w : Wallet.t)
    (ops : list Operation) :
  outcome (deactivateWallet walletId s) = Resolved w →
  Forall unaccompanied ops →
  let s' := run ops (final (deactivateWallet walletId s)) in
  getWallet walletId s' = (Rejected (NotFoundException "Wallet not found"), s') ∧
  ∀ cuid dto,
    CreateWalletDto.userId dto = Wallet.userId w →
    (∃ e, createWallet cuid dto s' = (Rejected e, s') ∧ ∀ message, e ≠ ConflictException message) ∧
    (wallets s' !! cuid = None →
     in_range (rounded (default 0%Q (CreateWalletDto.initialBalance dto))) = true →
     createWallet cuid dto s' = (Rejected (PrismaError "P2002" ["user_id"]), s')).
Proof.
  intros Ho Hops s'.
  assert (H1 : ∃ r1, wallets (final (deactivateWallet walletId s)) !! walletId = Some r1 ∧
                     WalletRow.isActive r1 = false ∧ WalletRow.userId r1 = Wallet.userId w).
  { pose proof (deactivateWallet_spec walletId s) as E.
    destruct (wallets s !! walletId) as [r|] eqn:Hr; [|rewrite E in Ho; discriminate].
    destruct (WalletRow.isActive r); [|rewrite E in Ho; discriminate].
    cbn zeta in E. destruct (Decimal.gt _ _); rewrite E in Ho |- *; [discriminate|].
    cbn [outcome fst] in Ho. injection Ho as <-.
    exists (deactivated r). cbn [final snd wallets]. rewrite lookup_insert_eq.
    repeat split. }
  destruct H1 as (r1 & Hr1 & Ha1 & Hu1).
  destruct (run_row_kept ops _ walletId r1 Hops Hr1) as (r' & Hr' & Hu' & _ & _ & Ha').
  fold s' in Hr'. specialize (Ha' Ha1).
  split; [eapply getWallet_inactive; eassumption|].
  intros cuid dto Hdto.
  assert (Hex : bool_decide (map_Exists (fun _ r => WalletRow.userId r = CreateWalletDto.userId dto)
                                        (wallets s')) = true).
  { apply bool_decide_eq_true_2. exists walletId, r'. split; [exact Hr'|]. cbn. congruence. }
  rewrite createWallet_spec. cbv zeta. rewrite Hex. split.
  - destruct (in_range _); [|eexists; split; [reflexivity|discriminate]].
    destruct (wallets s' !! cuid); eexists; (split; [reflexivity|discriminate]).
  - intros -> ->. reflexivity.
Qed.

Lemma deactivation_is_final_witness :
  getWallet "b" (run [OpCreateWallet "c" (CreateWalletDto.mk "u2" (Some 5%Q))]
                     (final (deactivateWallet "b" world_two_wallets))) =
    (Rejected (NotFoundException "Wallet not found"),
     run [OpCreateWallet "c" (CreateWalletDto.mk "u2" (Some 5%Q))]
         (final (deactivateWallet "b" world_two_wallets))).
Proof.
  destruct (deactivation_is_final "b" world_two_wallets (Wallet.mk "b" "u2" 0 false 0)
              [OpCreateWallet "c" (CreateWalletDto.mk "u2" (Some 5%Q))]) as [H _].
  - vm_compute. reflexivity.
  - repeat constructor.
  - exact H.
Defined.

(** ** The API key guard *)

Lemma config_apiKey_nonempty API_KEY : config_apiKey API_KEY ≠ "".
Proof.
  unfold config_apiKey. destruct API_KEY as [key|]; [|discriminate].
  destruct (bool_decide (key = "")) eqn:E; [discriminate|].
  apply bool_decide_eq_false in E. exact E.
Qed.

(** X21: the guard lets a request through exactly when its wallet-api-key
    header is the configured key. It never returns false: every other request
    is refused with an exception of status 400, 'API key is missing' for an
    absent or empty header and 'Invalid API key' otherwise. The configured key
    is never empty, and when API_KEY is unset or empty the built-in key
    '6pfrn00011248xivxkz0t' is the one accepted. *)
Theorem guard_accepts_exactly_the_configured_key (API_KEY : option string)
    (header : option string) :
  (canActivate API_KEY header = inr true ↔ header = Some (config_apiKey API_KEY)) ∧
  canActivate API_KEY header ≠ inr false ∧
  (∀ e, canActivate API_KEY header = inl e →
        http_status e = 400 ∧
        (e = mkHttpException "API key is missing" 400 ↔ header = None ∨ header = Some "")) ∧
  (API_KEY = None ∨ API_KEY = Some "" →
   canActivate API_KEY (Some "6pfrn00011248xivxkz0t") = inr true).
Proof.
  pose proof (config_apiKey_nonempty API_KEY) as Hne.
  unfold canActivate. split; [|split; [|split]].
  - destruct header as [k|]; [|split; discriminate].
    destruct (bool_decide (k = "")) eqn:E.
    + apply bool_decide_eq_true in E. subst k. split; [discriminate|]. intros [= H]. congruence.
    + cbn zeta. destruct (bool_decide (k ≠ config_apiKey API_KEY)) eqn:E2.
      * apply bool_decide_eq_true in E2. split; [discriminate|]. intros [= H]. contradiction.
      * apply bool_decide_eq_false in E2. split; [|reflexivity]. intros _. f_equal.
        destruct (decide (k = config_apiKey API_KEY)); [assumption|contradiction].
  - destruct header as [k|]; [|discriminate].
    destruct (bool_decide (k = "")); [discriminate|]. cbn zeta.
    destruct (bool_decide (k ≠ config_apiKey API_KEY)); discriminate.
  - intros e. destruct header as [k|].
    + destruct (bool_decide (k = "")) eqn:E.
      * apply bool_decide_eq_true in E. subst k. intros [= <-]. split; [reflexivity|].
        split; auto.
      * apply bool_decide_eq_false in E. cbn zeta.
        destruct (bool_decide (k ≠ config_apiKey API_KEY)); [|discriminate].
        intros [= <-]. split; [reflexivity|]. split; [discriminate|].
        intros [H|H]; [discriminate|]. congruence.
    + intros [= <-]. split; [reflexivity|]. split; auto.
  - intros [->| ->]; reflexivity.
Qed.

(** ** Withdrawal requests and the wallet row *)

(** X22: withdrawFunds never looks at the wallet row when the cache holds a
    balance for the wallet. A request with a fresh transactionId for an
    amount the cached balance covers and the column's range admits writes
    its PENDING row, whether the wallet is active or deactivated and
    whatever balance is stored; it then enqueues the job and resolves to the
    row when the queue takes the job, and is rejected with the queue's
    error, the row staying in the ledger, when it does not. Only on a cache
    miss is a deactivated wallet refused as not found. *)
Theorem withdrawal_request_trusts_the_cache (uuidv4 : string) (enqueue : option Exception)
    (dto : WithdrawFundsDto.t) (s : World) (r : WalletRow.t) :
  let walletId := WithdrawFundsDto.walletId dto in
  let amount := WithdrawFundsDto.amount dto in
  let id := default uuidv4 (WithdrawFundsDto.transactionId dto) in
  let row := Transaction.mk id None walletId None (rounded amount) WITHDRAWAL PENDING
                            (WithdrawFundsDto.description dto) in
  let job := JobWithdrawal (SingleJob.mk walletId amount (WithdrawFundsDto.description dto) id) in
  row_of id s = None →
  wallets s !! walletId = Some r →
  (∀ cached : Decimal.t,
     redis s !! balance_key walletId = Some cached → (amount <= cached)%Q →
     in_range (rounded amount) = true →
     withdrawFunds uuidv4 enqueue dto s =
       match enqueue with
       | None =>
           (Resolved row,
            mkWorld (wallets s) (transactions s ++ [row]) (redis s) (queue s ++ [job]) (trace s))
       | Some error =>
           (Rejected error,
            mkWorld (wallets s) (transactions s ++ [row]) (redis s) (queue s) (trace s))
       end) ∧
  (redis s !! balance_key walletId = None → WalletRow.isActive r = false →
     withdrawFunds uuidv4 enqueue dto s = (Rejected (NotFoundException "Wallet not found"), s)).
Proof.
  intros walletId amount id row job Hfresh Hr. split.
  - intros cached Hc Hle Hf. apply lt_false in Hle.
    unfold withdrawFunds, bind, transaction_findUnique. fold walletId amount id.
    unfold row_of in Hfresh. rewrite Hfresh.
    pose proof (getWalletBalance_spec walletId s) as EB. unfold seen_balance in EB.
    rewrite Hc in EB. rewrite EB, Hle.
    rewrite transaction_create_fresh; [|exact Hf|exact Hfresh|cbn; eauto|discriminate].
    unfold queue_add, modify, throw. destruct enqueue; reflexivity.
  - intros Hc Ha.
    unfold withdrawFunds, bind, transaction_findUnique. fold walletId amount id.
    unfold row_of in Hfresh. rewrite Hfresh.
    pose proof (getWalletBalance_spec walletId s) as EB. unfold seen_balance in EB.
    rewrite Hc, Hr, Ha in EB. rewrite EB. reflexivity.
Qed.

Lemma withdrawal_request_trusts_the_cache_witness :
  outcome (withdrawFunds "g20" None (WithdrawFundsDto.mk "b" 20 None None)
             world_b_credited_after_deactivation) =
    Resolved (Transaction.mk "g20" None "b" None 20 WITHDRAWAL PENDING None) ∧
  active_of "b" world_b_credited_after_deactivation = Some false.
Proof.
  destruct (withdrawal_request_trusts_the_cache "g20" None (WithdrawFundsDto.mk "b" 20 None None)
              world_b_credited_after_deactivation (WalletRow.mk "u2" 50 false 1)) as [H _].
  - vm_compute. reflexivity.
  - vm_compute. reflexivity.
  - split; [|vm_compute; reflexivity].
    rewrite (H 50%Q); [reflexivity|vm_compute; reflexivity|vm_compute; discriminate
                      |vm_compute; reflexivity].
Defined.

(** ** A transfer from request to balances *)

Lemma filter_mark_reference (ref : string) (st : TransactionStatus) (l : list Transaction.t) :
  List.filter (fun r => bool_decide (Transaction.referenceId r = Some ref))
              (mark (ByReferenceId ref) st l) =
    List.map (Transaction.with_status st)
             (List.filter (fun r => bool_decide (Transaction.referenceId r = Some ref)) l).
Proof.
  induction l as [|x l IH]; [reflexivity|].
  cbn [mark List.map List.filter matches]. fold (mark (ByReferenceId ref) st l).
  destruct (bool_decide (Transaction.referenceId x = Some ref)) eqn:E.
  - cbn. rewrite E. cbn. f_equal. exact IH.
  - rewrite E. exact IH.
Qed.

(** X23: a transfer from request to balances. A transfer request with a new
    referenceId between two different active wallets, for an amount within
    the column's range that both the balance the read path reports and the
    stored balance of the source cover, with two new generated ids, is
    accepted when the queue takes the job: the two PENDING rows, holding the
    amount rounded to the column's 8 decimal places, are written and the job
    is enqueued. When that job is then delivered, with no other writer and
    an attempt that meets no store failure, and both new balances are within
    the column's range, the handler resolves, the source holds its balance
    minus the amount and the destination its balance plus the amount, each
    rounded to the column's scale, both at the next version, both rows are
    COMPLETED, and the read path returns the new balances. *)
Theorem transfer_round_trip (uuid_out uuid_in : string) (dto : TransferFundsDto.t)
    (env : nat → Attempt) (s : World) (rs rd : WalletRow.t) (seen : Decimal.t) :
  let source := TransferFundsDto.sourceWalletId dto in
  let destination := TransferFundsDto.destinationWalletId dto in
  let amount := TransferFundsDto.amount dto in
  let reference := TransferFundsDto.referenceId dto in
  let out_row := Transaction.mk uuid_out (Some reference) source (Some destination)
                                (rounded amount) TRANSFER_OUT PENDING
                                (TransferFundsDto.description dto) in
  let in_row := Transaction.mk uuid_in (Some reference) destination (Some source)
                               (rounded amount) TRANSFER_IN PENDING
                               (TransferFundsDto.description dto) in
  let job := JobTransfer (TransferJob.mk source destination amount
                                         (TransferFundsDto.description dto) reference) in
  let debited := rounded (Decimal.of_units (WalletRow.balance rs) - amount) in
  let credited := rounded (Decimal.of_units (WalletRow.balance rd) + amount) in
  let s1 := final (transferFunds uuid_out uuid_in None dto s) in
  let s2 := final (handle job env s1) in
  rows_of_reference reference s = [] →
  source ≠ destination →
  wallets s !! source = Some rs → WalletRow.isActive rs = true →
  wallets s !! destination = Some rd → WalletRow.isActive rd = true →
  seen_balance source s = Some seen → (amount <= seen)%Q →
  (amount <= Decimal.of_units (WalletRow.balance rs))%Q →
  in_range (rounded amount) = true →
  in_range debited = true → in_range credited = true →
  row_of uuid_out s = None → row_of uuid_in s = None → uuid_out ≠ uuid_in →
  undisturbed env →
  is_Some (commit_attempt env defaultMaxRetries 0) →
  outcome (transferFunds uuid_out uuid_in None dto s) = Resolved [out_row; in_row] ∧
  queue s1 = queue s ++ [job] ∧
  outcome (handle job env s1) = Resolved tt ∧
  wallets s2 !! source =
    Some (WalletRow.mk (WalletRow.userId rs) debited true (WalletRow.version rs + 1)) ∧
  wallets s2 !! destination =
    Some (WalletRow.mk (WalletRow.userId rd) credited true (WalletRow.version rd + 1)) ∧
  rows_of_reference reference s2 =
    [Transaction.with_status COMPLETED out_row; Transaction.with_status COMPLETED in_row] ∧
  getWalletBalance source s2 = (Resolved (Decimal.of_units debited), s2) ∧
  getWalletBalance destination s2 = (Resolved (Decimal.of_units credited), s2).
Proof.
  intros source destination amount reference out_row in_row job debited credited s1 s2
         Hnone Hne Hrs Has Hrd Had Hseen Hle Hcov Hfa Hfs Hfd Hf1 Hf2 Hids Hu Hk.
  apply lt_false in Hle, Hcov.
  pose proof (getWalletBalance_frame source s) as (Fw & Ft & Fq & _).
  pose proof (getWalletBalance_spec source s) as EB. rewrite Hseen in EB.
  assert (E1 : ∃ s0, wallets s0 = wallets s ∧ transactions s0 = transactions s ∧
                     queue s0 = queue s ∧
                     transferFunds uuid_out uuid_in None dto s =
                       (Resolved [out_row; in_row],
                        mkWorld (wallets s0) (transactions s0 ++ [out_row; in_row]) (redis s0)
                                (queue s0 ++ [job]) (trace s0))).
  { unfold transferFunds, bind, transaction_findMany.
    unfold rows_of_reference in Hnone. fold reference. rewrite Hnone. cbn [length Nat.ltb Nat.leb].
    fold source destination amount reference.
    rewrite (getWallet_active _ _ _ Hrs Has), (getWallet_active _ _ _ Hrd Had).
    rewrite EB in Fw, Ft, Fq |- *. cbn [final snd] in Fw, Ft, Fq.
    set (s0 := match redis s !! balance_key source with
               | Some _ => s
               | None => set_redis (insert (balance_key source) seen) s
               end) in *.
    exists s0. split; [exact Fw|]. split; [exact Ft|]. split; [exact Fq|].
    rewrite Hle.
    unfold batch_transaction, run_batch, bind, resolve.
    rewrite transaction_create_fresh;
      [|exact Hfa|unfold row_of in *; cbn; rewrite Ft; exact Hf1|cbn; rewrite Fw, Hrs; eauto
       |cbn; intros d [= <-]; rewrite Fw, Hrd; eauto].
    rewrite transaction_create_fresh;
      [|exact Hfa
       |apply row_of_snoc_ne with (data := out_row) (s := s0);
          [reflexivity|exact Hids|unfold row_of in *; rewrite Ft; exact Hf2]
       |cbn; rewrite Fw, Hrd; eauto
       |cbn; intros d [= <-]; rewrite Fw, Hrs; eauto].
    unfold queue_add, modify, set_queue, set_transactions. cbn. rewrite <- app_assoc.
    reflexivity. }
  destruct E1 as (s0 & Hw0 & Ht0 & Hq0 & E1).
  assert (Hw1 : wallets s1 = wallets s) by (subst s1; rewrite E1; exact Hw0).
  assert (Ht1 : transactions s1 = transactions s ++ [out_row; in_row])
    by (subst s1; rewrite E1; cbn; rewrite Ht0; reflexivity).
  assert (Hc : covered job (wallets s1)).
  { unfold job. cbn [covered TransferJob.sourceWalletId TransferJob.destinationWalletId
                     TransferJob.amount].
    rewrite Hw1, Hrs, Hrd. repeat split; assumption. }
  pose proof (handle_resolves job env s1 Hu Hc Hk) as Ho.
  pose proof (handle_exact job env s1 Hu) as X. rewrite Ho in X.
  destruct X as (_ & Hw2 & Hcache).
  pose proof (handle_ledger job env s1) as [Hl _]. rewrite Ho in Hl.
  fold s2 in Hw2, Hcache, Hl.
  assert (Hsrc : wallets s2 !! source = Some (bump (decrement amount) rs)).
  { rewrite Hw2. unfold job.
    cbn [settle TransferJob.sourceWalletId TransferJob.destinationWalletId TransferJob.amount].
    rewrite lookup_alter_ne by congruence. rewrite lookup_alter_eq, Hw1, Hrs. reflexivity. }
  assert (Hdst : wallets s2 !! destination = Some (bump (increment amount) rd)).
  { rewrite Hw2. unfold job.
    cbn [settle TransferJob.sourceWalletId TransferJob.destinationWalletId TransferJob.amount].
    rewrite lookup_alter_eq, lookup_alter_ne by exact Hne. rewrite Hw1, Hrd. reflexivity. }
  split; [rewrite E1; reflexivity|].
  split; [subst s1; rewrite E1; cbn; rewrite Hq0; reflexivity|].
  split; [exact Ho|].
  split; [rewrite Hsrc, <- Has; reflexivity|].
  split; [rewrite Hdst, <- Had; reflexivity|].
  split.
  { unfold rows_of_reference. rewrite Hl. unfold job. cbn [job_key TransferJob.referenceId].
    rewrite filter_mark_reference, Ht1, List.filter_app.
    unfold rows_of_reference in Hnone. rewrite Hnone. cbn.
    rewrite !bool_decide_eq_true_2 by reflexivity. reflexivity. }
  split.
  - pose proof (Hcache source ltac:(cbn; left)) as Hc1. rewrite Hsrc in Hc1. cbn in Hc1.
    pose proof (getWalletBalance_spec source s2) as EB2. unfold seen_balance in EB2.
    rewrite Hc1 in EB2. exact EB2.
  - pose proof (Hcache destination ltac:(cbn; right; left)) as Hc1. rewrite Hdst in Hc1.
    cbn in Hc1.
    pose proof (getWalletBalance_spec destination s2) as EB2. unfold seen_balance in EB2.
    rewrite Hc1 in EB2. exact EB2.
Qed.

Lemma transfer_round_trip_witness :
  getWalletBalance "b"
    (final (handle (JobTransfer (TransferJob.mk "a" "b" 10 None "r1")) env_hiccup
              (final (transferFunds "g3" "g4" None transfer_a_b world_withdrawal_requested)))) =
    (Resolved 10%Q,
     final (handle (JobTransfer (TransferJob.mk "a" "b" 10 None "r1")) env_hiccup
              (final (transferFunds "g3" "g4" None transfer_a_b world_withdrawal_requested)))).
Proof.
  destruct (transfer_round_trip "g3" "g4" transfer_a_b env_hiccup world_withdrawal_requested
              (WalletRow.mk "u1" 150 true 1) (WalletRow.mk "u2" 0 true 0) 150%Q)
    as (_ & _ & _ & _ & _ & _ & _ & H).
  - vm_compute. reflexivity.
  - discriminate.
  - vm_compute. reflexivity.
  - reflexivity.
  - vm_compute. reflexivity.
  - reflexivity.
  - vm_compute. reflexivity.
  - vm_compute. discriminate.
  - vm_compute. discriminate.
  - vm_compute. reflexivity.
  - vm_compute. reflexivity.
  - vm_compute. reflexivity.
  - vm_compute. reflexivity.
  - vm_compute. reflexivity.
  - discriminate.
  - intros [|i] ws; reflexivity.
  - vm_compute. eauto.
  - exact H.
Defined.

(** ** Repeating a read or a request *)

Lemma getWalletBalance_is_idempotent_aux (walletId : string) (s : World) :
  getWalletBalance walletId (final (getWalletBalance walletId s)) =
    (outcome (getWalletBalance walletId s), final (getWalletBalance walletId s)).
Proof.
  pose proof (getWalletBalance_spec walletId s) as E. unfold seen_balance in E.
  destruct (redis s !! balance_key walletId) as [c|] eqn:Hc.
  - rewrite E. cbn [final outcome fst snd]. exact E.
  - destruct (wallets s !! walletId) as [r|] eqn:Hr.
    + destruct (WalletRow.isActive r) eqn:Ha; rewrite E; cbn [final outcome fst snd];
        [|exact E].
      pose proof (getWalletBalance_spec walletId
                    (set_redis (insert (balance_key walletId)
                                       (Decimal.of_units (WalletRow.balance r))) s)) as E2.
      unfold seen_balance in E2. cbn [redis set_redis] in E2.
      rewrite lookup_insert_eq in E2. exact E2.
    + rewrite E. cbn [final outcome fst snd]. exact E.
Qed.

(** X24: the read path is idempotent. A second getWalletBalance gives the
    same result as the first and changes nothing: a resolved first call has
    left the value in the cache, a rejected one has changed nothing. *)
Theorem getWalletBalance_is_idempotent (walletId : string) (s : World) :
  getWalletBalance walletId (final (getWalletBalance walletId s)) =
    (outcome (getWalletBalance walletId s), final (getWalletBalance walletId s)).
Proof. apply getWalletBalance_is_idempotent_aux. Qed.

Lemma depositFunds_keyed u q dto s t :
  DepositFundsDto.transactionId dto = Some t →
  let walletId := DepositFundsDto.walletId dto in
  let amount := DepositFundsDto.amount dto in
  let description := DepositFundsDto.description dto in
  depositFunds u q dto s =
    match List.find (fun r => bool_decide (Transaction.transactionId r = t)) (transactions s) with
    | Some existing => (Resolved existing, s)
    | None =>
        match getWallet walletId s with
        | (Resolved _, s1) =>
            match transaction_create
                    (TransactionData.mk t None walletId None amount DEPOSIT PENDING description)
                    s1 with
            | (Resolved row, s2) =>
                match q with
                | None =>
                    (Resolved row,
                     set_queue
                       (fun q => q ++ [JobDeposit (SingleJob.mk walletId amount description t)])
                       s2)
                | Some error => (Rejected error, s2)
                end
            | (Rejected e, s2) => (Rejected e, s2)
            end
        | (Rejected e, s1) => (Rejected e, s1)
        end
    end.
Proof.
  intros H. unfold depositFunds, bind, transaction_findUnique, queue_add, modify, resolve, throw.
  rewrite H. change (default u (Some t)) with t.
  destruct (List.find _ (transactions s)); [reflexivity|].
  destruct (getWallet _ s) as [[v|e] s1]; [|reflexivity].
  destruct (transaction_create _ s1) as [[v'|e] s2]; [|reflexivity].
  destruct q; reflexivity.
Qed.

Lemma withdrawFunds_keyed u q dto s t :
  WithdrawFundsDto.transactionId dto = Some t →
  let walletId := WithdrawFundsDto.walletId dto in
  let amount := WithdrawFundsDto.amount dto in
  let description := WithdrawFundsDto.description dto in
  withdrawFunds u q dto s =
    match List.find (fun r => bool_decide (Transaction.transactionId r = t)) (transactions s) with
    | Some existing => (Resolved existing, s)
    | None =>
        match getWalletBalance walletId s with
        | (Resolved balance, s1) =>
            if Decimal.lt balance amount
            then (Rejected (BadRequestException "Insufficient funds"), s1)
            else
              match transaction_create
                      (TransactionData.mk t None walletId None amount WITHDRAWAL PENDING
                                          description)
                      s1 with
              | (Resolved row, s2) =>
                  match q with
                  | None =>
                      (Resolved row,
                       set_queue
                         (fun q =>
                            q ++ [JobWithdrawal (SingleJob.mk walletId amount description t)])
                         s2)
                  | Some error => (Rejected error, s2)
                  end
              | (Rejected e, s2) => (Rejected e, s2)
              end
        | (Rejected e, s1) => (Rejected e, s1)
        end
    end.
Proof.
  intros H. unfold withdrawFunds, bind, transaction_findUnique, queue_add, modify, resolve, throw.
  rewrite H. change (default u (Some t)) with t.
  destruct (List.find _ (transactions s)); [reflexivity|].
  destruct (getWalletBalance _ s) as [[b|e] s1]; [|reflexivity].
  destruct (Decimal.lt b _); [reflexivity|].
  destruct (transaction_create _ s1) as [[v'|e] s2]; [|reflexivity].
  destruct q; reflexivity.
Qed.

Lemma transferFunds_resolved u1 u2 q dto s rows :
  outcome (transferFunds u1 u2 q dto s) = Resolved rows →
  rows_of_reference (TransferFundsDto.referenceId dto) (final (transferFunds u1 u2 q dto s)) =
    rows ∧
  rows ≠ [].
Proof.
  unfold rows_of_reference, transferFunds, bind, transaction_findMany, resolve, throw, queue_add,
    modify.
  destruct (0 <? length (List.filter _ (transactions s)))%nat eqn:Hlen.
  { cbn [final outcome fst snd]. intros [= <-]. split; [reflexivity|].
    apply Nat.ltb_lt in Hlen. intros E. rewrite E in Hlen. cbn in Hlen. lia. }
  destruct (getWallet_cases (TransferFundsDto.sourceWalletId dto) s)
    as [(r1 & _ & _ & E1)|(_ & E1)]; rewrite E1; [|discriminate].
  destruct (getWallet_cases (TransferFundsDto.destinationWalletId dto) s)
    as [(r2 & _ & _ & E2)|(_ & E2)]; rewrite E2; [|discriminate].
  pose proof (getWalletBalance_frame (TransferFundsDto.sourceWalletId dto) s) as (_ & Ft & _).
  destruct (getWalletBalance (TransferFundsDto.sourceWalletId dto) s) as [[b|e] s1];
    cbn [final snd] in Ft; [|discriminate].
  destruct (Decimal.lt b (TransferFundsDto.amount dto)); [discriminate|].
  match goal with |- context [batch_transaction [transaction_create ?a; transaction_create ?b] s1] =>
    destruct (transfer_batch_cases a b s1) as [Eb|(e & s2 & Eb & _)]; rewrite Eb
  end; [|discriminate].
  destruct q as [e|]; [discriminate|].
  cbn [final outcome fst snd]. intros [= <-]. split; [|discriminate].
  cbn [transactions set_queue set_transactions].
  rewrite List.filter_app, Ft.
  apply Nat.ltb_ge in Hlen.
  destruct (List.filter _ (transactions s)) as [|x l]; [|cbn in Hlen; lia].
  cbn. rewrite !bool_decide_eq_true_2 by reflexivity. reflexivity.
Qed.

(** X25: requests are idempotent on their key. A deposit or withdrawal
    request that carries a transactionId, once made, can be repeated: the
    repeat changes nothing, whatever id the generator returns and whatever
    the queue answers, and it gives the same result as the first call (the
    row it wrote, or the same rejection), with one exception: when the first
    call wrote its row and was then rejected because the queue did not take
    the job, the repeat resolves to that row, which is PENDING and has no
    job in the queue. A transfer request that resolved to its rows resolves
    to the same rows when repeated, and changes nothing. *)
Theorem requests_are_idempotent :
  (∀ u u' q q' dto s t,
     DepositFundsDto.transactionId dto = Some t →
     let first := depositFunds u q dto s in
     let again := depositFunds u' q' dto (final first) in
     final again = final first ∧
     (outcome again = outcome first ∨
      ∃ e row, q = Some e ∧ outcome first = Rejected e ∧ outcome again = Resolved row ∧
               row_of t s = None ∧ row_of t (final first) = Some row ∧
               Transaction.status row = PENDING ∧ queue (final first) = queue s)) ∧
  (∀ u u' q q' dto s t,
     WithdrawFundsDto.transactionId dto = Some t →
     let first := withdrawFunds u q dto s in
     let again := withdrawFunds u' q' dto (final first) in
     final again = final first ∧
     (outcome again = outcome first ∨
      ∃ e row, q = Some e ∧ outcome first = Rejected e ∧ outcome again = Resolved row ∧
               row_of t s = None ∧ row_of t (final first) = Some row ∧
               Transaction.status row = PENDING ∧ queue (final first) = queue s)) ∧
  (∀ u1 u2 u1' u2' q q' dto s rows,
     outcome (transferFunds u1 u2 q dto s) = Resolved rows →
     transferFunds u1' u2' q' dto (final (transferFunds u1 u2 q dto s)) =
       (Resolved rows, final (transferFunds u1 u2 q dto s))).
Proof.
  split; [|split].
  - intros u u' q q' dto s t Ht first again. subst first again.
    rewrite (depositFunds_keyed u q dto s t Ht). cbn zeta.
    destruct (List.find _ (transactions s)) as [x|] eqn:Hfind.
    { cbn [final outcome fst snd]. rewrite (depositFunds_keyed u' q' dto s t Ht). cbn zeta.
      rewrite Hfind. split; [reflexivity|left; reflexivity]. }
    destruct (getWallet_cases (DepositFundsDto.walletId dto) s) as [(r & Hr & Ha & E)|(Hno & E)];
      rewrite E.
    2:{ cbn [final outcome fst snd]. rewrite (depositFunds_keyed u' q' dto s t Ht). cbn zeta.
        rewrite Hfind, E. split; [reflexivity|left; reflexivity]. }
    match goal with |- context [transaction_create ?row s] =>
      destruct (transaction_create_cases row s) as [Ec|(e & Ec)]; rewrite Ec
    end.
    + destruct q as [e|]; cbn [final outcome fst snd];
        rewrite (depositFunds_keyed u' q' dto _ t Ht); cbn zeta;
        cbn [transactions set_queue set_transactions];
        rewrite find_append, Hfind;
        cbn [List.find Transaction.transactionId TransactionData.row
             TransactionData.transactionId];
        rewrite bool_decide_eq_true_2 by reflexivity;
        cbn [final outcome fst snd]; (split; [reflexivity|]); [right|left; reflexivity].
      eexists e, _. split; [reflexivity|]. split; [reflexivity|]. split; [reflexivity|].
      split; [exact Hfind|]. split; [|split; reflexivity].
      unfold row_of. cbn [transactions set_transactions]. rewrite find_append, Hfind.
      cbn [List.find Transaction.transactionId].
      rewrite bool_decide_eq_true_2 by reflexivity. reflexivity.
    + cbn [final outcome fst snd]. rewrite (depositFunds_keyed u' q' dto s t Ht). cbn zeta.
      rewrite Hfind, E, Ec. split; [reflexivity|left; reflexivity].
  - intros u u' q q' dto s t Ht first again. subst first again.
    rewrite (withdrawFunds_keyed u q dto s t Ht). cbn zeta.
    destruct (List.find _ (transactions s)) as [x|] eqn:Hfind.
    { cbn [final outcome fst snd]. rewrite (withdrawFunds_keyed u' q' dto s t Ht). cbn zeta.
      rewrite Hfind. split; [reflexivity|left; reflexivity]. }
    pose proof (getWalletBalance_is_idempotent_aux (WithdrawFundsDto.walletId dto) s) as Idem.
    pose proof (getWalletBalance_frame (WithdrawFundsDto.walletId dto) s) as (Fw & Ft & Fq & _).
    destruct (getWalletBalance (WithdrawFundsDto.walletId dto) s) as [[b|e] s1];
      cbn [final outcome fst snd] in Idem, Fw, Ft, Fq.
    2:{ cbn [final outcome fst snd]. rewrite (withdrawFunds_keyed u' q' dto s1 t Ht). cbn zeta.
        rewrite Ft, Hfind, Idem. split; [reflexivity|left; reflexivity]. }
    destruct (Decimal.lt b (WithdrawFundsDto.amount dto)) eqn:Hlt.
    { cbn [final outcome fst snd]. rewrite (withdrawFunds_keyed u' q' dto s1 t Ht). cbn zeta.
      rewrite Ft, Hfind, Idem, Hlt. split; [reflexivity|left; reflexivity]. }
    match goal with |- context [transaction_create ?row s1] =>
      destruct (transaction_create_cases row s1) as [Ec|(e & Ec)]; rewrite Ec
    end.
    + destruct q as [e|]; cbn [final outcome fst snd];
        rewrite (withdrawFunds_keyed u' q' dto _ t Ht); cbn zeta;
        cbn [transactions set_queue set_transactions];
        rewrite find_append, Ft, Hfind;
        cbn [List.find Transaction.transactionId TransactionData.row
             TransactionData.transactionId];
        rewrite bool_decide_eq_true_2 by reflexivity;
        cbn [final outcome fst snd]; (split; [reflexivity|]); [right|left; reflexivity].
      eexists e, _. split; [reflexivity|]. split; [reflexivity|]. split; [reflexivity|].
      split; [exact Hfind|]. split; [|split; [reflexivity|exact Fq]].
      unfold row_of. cbn [transactions set_transactions]. rewrite find_append, Ft, Hfind.
      cbn [List.find Transaction.transactionId].
      rewrite bool_decide_eq_true_2 by reflexivity. reflexivity.
    + cbn [final outcome fst snd]. rewrite (withdrawFunds_keyed u' q' dto s1 t Ht). cbn zeta.
      rewrite Ft, Hfind, Idem, Hlt, Ec. split; [reflexivity|left; reflexivity].
  - intros u1 u2 u1' u2' q q' dto s rows Ho.
    destruct (transferFunds_resolved u1 u2 q dto s rows Ho) as [Hrows Hne].
    unfold transferFunds at 1. unfold bind, transaction_findMany.
    unfold rows_of_reference in Hrows. rewrite Hrows.
    destruct rows as [|x l]; [congruence|]. reflexivity.
Qed.

Lemma requests_are_idempotent_witness :
  final (depositFunds "g5" None deposit_a (final (depositFunds "g1" None deposit_a world_two_wallets))) =
    final (depositFunds "g1" None deposit_a world_two_wallets).
Proof.
  destruct requests_are_idempotent as (H & _).
  apply (H "g1" "g5" None None deposit_a world_two_wallets "t1"). reflexivity.
Defined.

(** The queue is down when the deposit is first requested: the call is
    rejected although its row is written; the repeat, with the queue up,
    resolves to that row and enqueues nothing, so the deposit is never
    settled. *)
Example repeat_after_queue_failure_enqueues_nothing :
  let first := depositFunds "g1" (Some (PlainError "Queue is down")) deposit_a world_two_wallets in
  let again := depositFunds "g5" None deposit_a (final first) in
  outcome first = Rejected (PlainError "Queue is down") ∧
  outcome again = Resolved (Transaction.mk "t1" None "a" None 50 DEPOSIT PENDING None) ∧
  queue (final again) = [].
Proof. vm_compute. repeat split; reflexivity. Qed.
